(** * Asset-maintenance scripts of the PNLD web publication

    A shallow embedding of the Node.js scripts under [scripts/]:

    - [update-audio-references.js]: class [AudioFileUpdater], which
      rewrites [.mp3] references to [.ogg] in JSON content files;
    - [compress-audio.js]: class [AudioCompressor] (MP3 to Opus/OGG);
    - [compress-audio-mp3.js]: class [MP3Compressor] (MP3 to MP3).

    The first part of the file holds the model (ECMAScript strings and
    objects, JSON values, the file system, the scripts themselves); the
    second part holds the properties proved about it. *)

From Stdlib Require Import List String Ascii ZArith NArith Lia Bool Arith.
From Stdlib Require Import SpecFloat DecimalString.
Import ListNotations.
Open Scope string_scope.

(* ================================================================= *)
(** * Part I: the model *)
(* ================================================================= *)

(** ** ECMAScript strings

    A string is its sequence of code units.  The two methods the scripts
    use only compare code units for equality, so the alphabet does not
    matter; the literals involved are ASCII. *)
Module Js.

(** [s.slice(n)]: the string without its first [n] code units. *)
Fixpoint drop (n : nat) (s : string) : string :=
  match n, s with
  | O, _ => s
  | S _, EmptyString => EmptyString
  | S n', String _ s' => drop n' s'
  end.

(** [s.slice(0, n)]: the first [n] code units of the string. *)
Fixpoint take (n : nat) (s : string) : string :=
  match n, s with
  | O, _ => EmptyString
  | S _, EmptyString => EmptyString
  | S n', String c s' => String c (take n' s')
  end.

(** [String.prototype.endsWith(searchString)]: with
    [start = length - searchLength], false when [start < 0], otherwise
    whether the code units from [start] on are those of
    [searchString]. *)
Definition endsWith (s searchString : string) : bool :=
  let len := String.length s in
  let searchLength := String.length searchString in
  if (len <? searchLength)%nat then false
  else String.eqb (drop (len - searchLength) s) searchString.

(** [String.prototype.indexOf(searchString)], counted from [from]:
    the position of the FIRST occurrence. *)
Fixpoint indexOfFrom (from : nat) (searchString s : string) : option nat :=
  if prefix searchString s then Some from
  else match s with
       | EmptyString => None
       | String _ s' => indexOfFrom (S from) searchString s'
       end.

Definition indexOf (searchString s : string) : option nat :=
  indexOfFrom 0 searchString s.

(** [String.prototype.replace(searchValue, replaceValue)] with a
    string [searchValue] and a [replaceValue] that has no [$]: only
    the first occurrence of [searchValue] is replaced; a string
    without an occurrence is returned as it is. *)
Definition replace (searchValue replaceValue s : string) : string :=
  match indexOf searchValue s with
  | None => s
  | Some pos =>
      take pos s ++ replaceValue ++ drop (pos + String.length searchValue) s
  end.

(** *** Property keys of an ordinary object *)

Definition is_digit (c : ascii) : bool :=
  let n := nat_of_ascii c in ((48 <=? n)%nat && (n <=? 57)%nat)%bool.

Fixpoint all_digits (s : string) : bool :=
  match s with
  | EmptyString => true
  | String c s' => is_digit c && all_digits s'
  end.

Fixpoint decimal_value (acc : N) (s : string) : N :=
  match s with
  | EmptyString => acc
  | String c s' =>
      decimal_value (10 * acc + N.of_nat (nat_of_ascii c - 48)) s'
  end.

(** A key is an array index when it is the canonical decimal form of
    an integer of [0 .. 2^32 - 2]. *)
Definition array_index (key : string) : option N :=
  match key with
  | EmptyString => None
  | String c rest =>
      if all_digits key
         && (negb (Ascii.eqb c "0"%char) || String.eqb rest EmptyString)
         && (String.length key <=? 10)%nat
      then
        let n := decimal_value 0 key in
        if (n <? 4294967295)%N then Some n else None
      else None
  end.

(** Where a new own property goes ([OrdinaryOwnPropertyKeys]): array
    indices come first, in ascending numeric order; the other keys
    follow in the order of their creation.  [goes_before key k] holds
    when a new property [key] is listed before the existing [k]. *)
Definition goes_before (key k : string) : bool :=
  match array_index key, array_index k with
  | Some i, Some j => (i <? j)%N
  | Some _, None => true
  | None, _ => false
  end.

(** [precedes k1 k2]: [k1] may be listed before a later, different
    property [k2]. *)
Definition precedes (k1 k2 : string) : bool :=
  match array_index k1, array_index k2 with
  | Some i, Some j => (i <? j)%N
  | Some _, None => true
  | None, Some _ => false
  | None, None => negb (String.eqb k1 k2)
  end.

(** The keys of an object as [Object.entries] lists them: pairwise
    different, array indices first and ascending. *)
Fixpoint property_order (keys : list string) : bool :=
  match keys with
  | [] => true
  | k :: rest => forallb (precedes k) rest && property_order rest
  end.

End Js.

(** ** JSON values, as [JSON.parse] returns them *)
Module Json.

Unset Elimination Schemes.
(** A number is an IEEE 754 double; an object is the list of its own
    enumerable properties in the order of [Object.entries]. *)
Inductive value : Type :=
| VNull
| VBool (b : bool)
| VNum (x : spec_float)
| VStr (s : string)
| VArr (items : list value)
| VObj (props : list (string * value)).
Set Elimination Schemes.

(** Induction over a value with the hypotheses for the elements of an
    array and for the property values of an object. *)
Fixpoint value_ind (P : value -> Prop)
    (Hnull : P VNull)
    (Hbool : forall b, P (VBool b))
    (Hnum : forall x, P (VNum x))
    (Hstr : forall s, P (VStr s))
    (Harr : forall items, Forall P items -> P (VArr items))
    (Hobj : forall props, Forall (fun kv => P (snd kv)) props ->
                          P (VObj props))
    (v : value) {struct v} : P v :=
  let rec := value_ind P Hnull Hbool Hnum Hstr Harr Hobj in
  match v with
  | VNull => Hnull
  | VBool b => Hbool b
  | VNum x => Hnum x
  | VStr s => Hstr s
  | VArr items =>
      Harr items
        ((fix all (l : list value) : Forall P l :=
            match l with
            | [] => Forall_nil P
            | x :: l' => Forall_cons x (rec x) (all l')
            end) items)
  | VObj props =>
      Hobj props
        ((fix all (l : list (string * value))
            : Forall (fun kv => P (snd kv)) l :=
            match l with
            | [] => Forall_nil _
            | kv :: l' => Forall_cons kv (rec (snd kv)) (all l')
            end) props)
  end.

(** [typeof v === 'object' && v !== null]: arrays and objects. *)
Definition is_container (v : value) : bool :=
  match v with
  | VArr _ | VObj _ => true
  | _ => false
  end.

Definition keys (props : list (string * value)) : list string :=
  map fst props.

(** [Object.keys(v)] of an object [v]. *)
Definition own_keys (v : value) : list string :=
  match v with
  | VObj props => keys props
  | _ => []
  end.

(** *** Assignment [o[key] = v] on an ordinary object [o]

    [Object.prototype.__proto__] is an accessor property, so an
    assignment to the key ["__proto__"] on an object created by [{}]
    runs its setter (which changes the prototype when [v] is an object
    or [null] and does nothing otherwise): no own property is created.
    The prototype is invisible to [Object.entries] and
    [JSON.stringify], so only the own properties are modelled.  Any
    other key is an ordinary data property: an existing one keeps its
    place and takes the new value, a new one is listed where
    [Js.goes_before] puts it. *)
Fixpoint replace_prop (key : string) (v : value)
    (props : list (string * value)) : list (string * value) :=
  match props with
  | [] => []
  | (k, x) :: rest =>
      if String.eqb k key then (k, v) :: rest
      else (k, x) :: replace_prop key v rest
  end.

Fixpoint insert_prop (key : string) (v : value)
    (props : list (string * value)) : list (string * value) :=
  match props with
  | [] => [(key, v)]
  | (k, x) :: rest =>
      if Js.goes_before key k then (key, v) :: props
      else (k, x) :: insert_prop key v rest
  end.

Definition has_own (key : string) (props : list (string * value)) : bool :=
  existsb (String.eqb key) (keys props).

Definition set_prop (props : list (string * value)) (key : string)
    (v : value) : list (string * value) :=
  if String.eqb key "__proto__" then props
  else if has_own key props then replace_prop key v props
  else insert_prop key v props.

(** The string leaves of a value, from left to right. *)
Fixpoint strings (v : value) : list string :=
  match v with
  | VStr s => [s]
  | VArr items => flat_map strings items
  | VObj props => flat_map (fun kv => strings (snd kv)) props
  | _ => []
  end.

(** The keys of a parsed document are in property order at every
    level. *)
Fixpoint well_formed (v : value) : bool :=
  match v with
  | VArr items => forallb well_formed items
  | VObj props =>
      Js.property_order (keys props)
      && forallb (fun kv => well_formed (snd kv)) props
  | _ => true
  end.

(** No object of the value, at any level, has the key [key]. *)
Fixpoint key_free (key : string) (v : value) : bool :=
  match v with
  | VArr items => forallb (key_free key) items
  | VObj props =>
      negb (has_own key props)
      && forallb (fun kv => key_free key (snd kv)) props
  | _ => true
  end.

End Json.

(** ** [AudioFileUpdater.updateObjectReferences] *)
Module Rewriter.
Import Json.

(** The object [{ data, hasChanges, changeCount }] the method builds
    and returns.  [changeCount] is a count of values of one document,
    far below [2^53], so the double that holds it is exact. *)
Record result : Type := mkResult {
  data : value;
  hasChanges : bool;
  changeCount : nat
}.

(** [result.data[key] = v], with [result.data] the object [{}] the
    method starts from. *)
Definition assign (r : result) (key : string) (v : value) : result :=
  match data r with
  | VObj props => mkResult (VObj (set_prop props key v))
                           (hasChanges r) (changeCount r)
  | _ => r
  end.

(** [if (nested.hasChanges) { result.hasChanges = true;
    result.changeCount += nested.changeCount; }] *)
Definition absorb (r nested : result) : result :=
  if hasChanges nested
  then mkResult (data r) true (changeCount r + changeCount nested)
  else r.

(** [result.hasChanges = true; result.changeCount++;] *)
Definition bump (r : result) : result :=
  mkResult (data r) true (changeCount r + 1).

(** The callback of [obj.map] in the array branch: the element it
    returns and [result] after its side effects. *)
Definition mapItem (self : value -> result) (r : result) (item : value)
    : value * result :=
  match item with
  | VStr s =>
      if Js.endsWith s ".mp3"
      then (VStr (Js.replace ".mp3" ".ogg" s), bump r)
      else (item, r)
  | VArr _ | VObj _ =>
      let nested := self item in
      (data nested, absorb r nested)
  | _ => (item, r)
  end.

(** [Array.prototype.map] with a callback that updates [result]:
    the elements are visited from left to right. *)
Fixpoint mapItems (self : value -> result) (r : result)
    (items : list value) : list value * result :=
  match items with
  | [] => ([], r)
  | item :: rest =>
      let (item', r1) := mapItem self r item in
      let (rest', r2) := mapItems self r1 rest in
      (item' :: rest', r2)
  end.

(** The body of [for (const [key, value] of Object.entries(obj))]. *)
Definition visitEntry (self : value -> result) (r : result)
    (entry : string * value) : result :=
  let (key, value) := entry in
  match value with
  | VStr s =>
      if Js.endsWith s ".mp3"
      then bump (assign r key (VStr (Js.replace ".mp3" ".ogg" s)))
      else assign r key value
  | VArr _ | VObj _ =>
      let nested := self value in
      absorb (assign r key (data nested)) nested
  | _ => assign r key value
  end.

(** [updateObjectReferences(obj, parentHasChanges)]; the second
    parameter is never read.  A value that is neither an array nor an
    object is returned as it is, with no change counted. *)
Fixpoint updateObjectReferences (obj : value) : result :=
  let result := mkResult (VObj []) false 0 in
  match obj with
  | VArr items =>
      let (items', r) := mapItems updateObjectReferences result items in
      mkResult (VArr items') (hasChanges r) (changeCount r)
  | VObj props =>
      fold_left (visitEntry updateObjectReferences) props result
  | _ => mkResult obj false 0
  end.

End Rewriter.

(** ** What the rewrite is meant to do, in the words of the
       specification *)
Module RewriterSpec.
Import Json.

(** "The same string minus that suffix plus the new suffix". *)
Definition swap_suffix (old new s : string) : string :=
  Js.take (String.length s - String.length old) s ++ new.

Definition rewrite_string (s : string) : string :=
  if Js.endsWith s ".mp3" then swap_suffix ".mp3" ".ogg" s else s.

(** Every scalar string of the value tree that ends in [.mp3] has its
    suffix replaced; every other value is kept. *)
Fixpoint rewrite_all (v : value) : value :=
  match v with
  | VStr s => VStr (rewrite_string s)
  | VArr items => VArr (map rewrite_all items)
  | VObj props => VObj (map (fun kv => (fst kv, rewrite_all (snd kv))) props)
  | _ => v
  end.

(** The same, for the strings that sit inside an array or an object
    only: a document that is a bare scalar is kept as it is. *)
Definition rewrite_contained (v : value) : value :=
  if is_container v then rewrite_all v else v.

(** The strings that sit inside an array or an object of the
    document. *)
Definition contained_strings (v : value) : list string :=
  if is_container v then strings v else [].

(** The reference values of a document: its contained strings that
    end in [.mp3]. *)
Definition references (v : value) : list string :=
  filter (fun s => Js.endsWith s ".mp3") (contained_strings v).

(** A string that ends in [.mp3] has no earlier [.mp3] in it. *)
Definition suffix_only (s : string) : bool :=
  negb (Js.endsWith s ".mp3")
  || match Js.indexOf ".mp3" s with
     | Some pos => (pos + 4 =? String.length s)%nat
     | None => false
     end.

End RewriterSpec.

(** ** Auxiliary definitions for the proofs about the rewrite *)
Module RewriterAux.
Import Json Rewriter.

(** The element, or property value, the method produces for a child
    [v] of an array or an object. *)
Definition child (v : value) : value :=
  match v with
  | VStr s =>
      if Js.endsWith s ".mp3" then VStr (Js.replace ".mp3" ".ogg" s) else v
  | VArr _ | VObj _ => data (updateObjectReferences v)
  | _ => v
  end.

(** The changes the method counts for a child [v]. *)
Definition hits (v : value) : nat :=
  match v with
  | VStr s => if Js.endsWith s ".mp3" then 1 else 0
  | VArr _ | VObj _ => changeCount (updateObjectReferences v)
  | _ => 0
  end.

(** [result] after [n] more changes were counted. *)
Definition add (r : result) (n : nat) : result :=
  mkResult (data r) (hasChanges r || (0 <? n)%nat) (changeCount r + n).

Definition total (l : list value) : nat := list_sum (map hits l).

(** The own properties after the assignments of the object branch. *)
Definition assigned (props done : list (string * value))
    : list (string * value) :=
  fold_left (fun acc kv => set_prop acc (fst kv) (child (snd kv))) props done.

(** The flag of a result says whether its count is positive. *)
Definition flag_ok (r : result) : Prop :=
  hasChanges r = (0 <? changeCount r)%nat.


(** The flags of the nested results are all that a container needs of
    its children. *)
Definition nested_ok (v : value) : Prop :=
  is_container v = true -> flag_ok (updateObjectReferences v).

(** The count of a child is the number of its strings that end in
    [.mp3]. *)
Definition count_ok (v : value) : Prop :=
  hits v = List.length (filter (fun s => Js.endsWith s ".mp3") (strings v)).

(** The scenario of the specification. *)
Definition scenario : value :=
  VObj [("sound", VStr "intro.mp3");
        ("list", VArr [VStr "a.mp3"; VStr "b.png"])].

End RewriterAux.

(** ** The file system, as the [fs] module of Node.js shows it

    A tree of directories and regular files.  Permissions, links and
    time stamps are left out: an operation fails only for the shape of
    the tree (a missing entry, a file where a directory is needed, a
    directory where a file is needed). *)
Module Fs.

Unset Elimination Schemes.
Inductive node : Type :=
| File (content : string)
| Dir (entries : list (string * node)).
Set Elimination Schemes.

Fixpoint node_ind (P : node -> Prop)
    (Hfile : forall content, P (File content))
    (Hdir : forall entries,
        Forall (fun kv => P (snd kv)) entries -> P (Dir entries))
    (n : node) {struct n} : P n :=
  match n with
  | File content => Hfile content
  | Dir entries =>
      Hdir entries
        ((fix all (l : list (string * node))
            : Forall (fun kv => P (snd kv)) l :=
            match l with
            | [] => Forall_nil _
            | kv :: l' =>
                Forall_cons kv (node_ind P Hfile Hdir (snd kv)) (all l')
            end) entries)
  end.

(** A path is the list of its components below the root of the tree. *)
Definition path : Type := list string.

(** [path.join(dir, name)] for a [name] that [readdirSync] returned or
    that is a literal without a separator. *)
Definition join (dir : path) (name : string) : path := (dir ++ [name])%list.

(** The path as the scripts print it. *)
Definition show (p : path) : string := String.concat "/" p.

Fixpoint find (name : string) (entries : list (string * node))
    : option node :=
  match entries with
  | [] => None
  | (k, x) :: rest => if String.eqb k name then Some x else find name rest
  end.

Fixpoint lookup (p : path) (n : node) : option node :=
  match p with
  | [] => Some n
  | name :: rest =>
      match n with
      | Dir entries =>
          match find name entries with
          | Some x => lookup rest x
          | None => None
          end
      | File _ => None
      end
  end.

(** The entry [name] of a directory put through [f]; a new entry goes
    to the end of the directory. *)
Fixpoint alter (name : string) (f : option node -> node)
    (entries : list (string * node)) : list (string * node) :=
  match entries with
  | [] => [(name, f None)]
  | (k, x) :: rest =>
      if String.eqb k name then (k, f (Some x)) :: rest
      else (k, x) :: alter name f rest
  end.

(** [graft p new n]: the tree [n] with [new] put at [p].  Directories
    that are missing on the way are made; a regular file on the way
    leaves the tree as it is. *)
Fixpoint graft (p : path) (new : node) (n : node) {struct p} : node :=
  match p with
  | [] => new
  | name :: rest =>
      match n with
      | File _ => n
      | Dir entries =>
          Dir (alter name
                 (fun old => graft rest new
                               match old with
                               | Some x => x
                               | None => Dir []
                               end)
                 entries)
      end
  end.

Fixpoint remove (name : string) (entries : list (string * node))
    : list (string * node) :=
  match entries with
  | [] => []
  | (k, x) :: rest =>
      if String.eqb k name then rest else (k, x) :: remove name rest
  end.

Fixpoint change (name : string) (f : node -> node)
    (entries : list (string * node)) : list (string * node) :=
  match entries with
  | [] => []
  | (k, x) :: rest =>
      if String.eqb k name then (k, f x) :: rest
      else (k, x) :: change name f rest
  end.

(** [prune p n]: the tree [n] without the entry at [p]. *)
Fixpoint prune (p : path) (n : node) {struct p} : node :=
  match p with
  | [] => n
  | name :: rest =>
      match n with
      | File _ => n
      | Dir entries =>
          match rest with
          | [] => Dir (remove name entries)
          | _ :: _ => Dir (change name (prune rest) entries)
          end
      end
  end.

(** Whether [mkdir -p] can make [p]: no regular file is on the way or
    at [p] itself. *)
Fixpoint creatable (p : path) (n : node) : bool :=
  match n with
  | File _ => false
  | Dir entries =>
      match p with
      | [] => true
      | name :: rest =>
          match find name entries with
          | Some x => creatable rest x
          | None => true
          end
      end
  end.

Fixpoint distinct (names : list string) : bool :=
  match names with
  | [] => true
  | name :: rest => negb (existsb (String.eqb name) rest) && distinct rest
  end.

(** The names of a directory are pairwise different, at every level. *)
Fixpoint well_formed (n : node) : bool :=
  match n with
  | File _ => true
  | Dir entries =>
      distinct (map fst entries)
      && forallb (fun kv => well_formed (snd kv)) entries
  end.

(** The number of directory levels of a tree. *)
Fixpoint height (n : node) : nat :=
  match n with
  | File _ => 0
  | Dir entries => S (list_max (map (fun kv => height (snd kv)) entries))
  end.

(** *** The calls of the [fs] module

    A call that throws returns the message of its error on the left. *)

Record Stats : Type := mkStats { isDirectory : bool; size : nat }.

Definition errno (code syscall : string) (p : path) : string :=
  code ++ ", " ++ syscall ++ " '" ++ show p ++ "'".

Definition existsSync (p : path) (fs : node) : bool :=
  match lookup p fs with
  | Some _ => true
  | None => false
  end.

(** The size of a regular file is its number of bytes.  The size that
    a directory reports depends on the platform; it is 0 here, so what
    is said about sizes is said of regular files only. *)
Definition statSync (p : path) (fs : node) : string + Stats :=
  match lookup p fs with
  | Some (File content) => inr (mkStats false (String.length content))
  | Some (Dir _) => inr (mkStats true 0)
  | None => inl (errno "ENOENT: no such file or directory" "stat" p)
  end.

Definition readdirSync (p : path) (fs : node) : string + list string :=
  match lookup p fs with
  | Some (Dir entries) => inr (map fst entries)
  | Some (File _) => inl (errno "ENOTDIR: not a directory" "scandir" p)
  | None => inl (errno "ENOENT: no such file or directory" "scandir" p)
  end.

Definition readFileSync (p : path) (fs : node) : string + string :=
  match lookup p fs with
  | Some (File content) => inr content
  | Some (Dir _) =>
      inl (errno "EISDIR: illegal operation on a directory" "read" p)
  | None => inl (errno "ENOENT: no such file or directory" "open" p)
  end.

(** [writeFileSync] makes the file or replaces its content; the
    directory that holds it has to exist. *)
Definition writeFileSync (p : path) (content : string) (fs : node)
    : string + node :=
  match lookup p fs with
  | Some (File _) => inr (graft p (File content) fs)
  | Some (Dir _) =>
      inl (errno "EISDIR: illegal operation on a directory" "open" p)
  | None =>
      match lookup (removelast p) fs with
      | Some (Dir _) => inr (graft p (File content) fs)
      | _ => inl (errno "ENOENT: no such file or directory" "open" p)
      end
  end.

(** [mkdirSync(p, { recursive: true })]. *)
Definition mkdirSync (p : path) (fs : node) : string + node :=
  if creatable p fs then
    match lookup p fs with
    | Some _ => inr fs
    | None => inr (graft p (Dir []) fs)
    end
  else inl (errno "EEXIST: file already exists" "mkdir" p).

Definition copyFileSync (src dest : path) (fs : node) : string + node :=
  match lookup src fs with
  | Some (File content) =>
      match writeFileSync dest content fs with
      | inr fs' => inr fs'
      | inl _ =>
          inl (errno "ENOENT: no such file or directory" "copyfile" dest)
      end
  | Some (Dir _) =>
      inl (errno "EISDIR: illegal operation on a directory" "copyfile" src)
  | None => inl (errno "ENOENT: no such file or directory" "copyfile" src)
  end.

Definition unlinkSync (p : path) (fs : node) : string + node :=
  match lookup p fs with
  | Some (File _) => inr (prune p fs)
  | Some (Dir _) =>
      inl (errno "EISDIR: illegal operation on a directory" "unlink" p)
  | None => inl (errno "ENOENT: no such file or directory" "unlink" p)
  end.

End Fs.

(** ** A run of a script

    The state of a run is the file system, the counters of the script
    ([this.stats]) and the lines written to the error stream
    ([console.warn], [console.error]).  The progress lines of
    [console.log] are left out. *)
Module Proc.
Import Fs.

Record process (S : Type) : Type := mkProcess {
  disk : node;
  stats : S;
  stderr : list string
}.
Arguments mkProcess {S}.
Arguments disk {S}.
Arguments stats {S}.
Arguments stderr {S}.

(** The state with another disk. *)
Definition with_disk {S : Type} (s : process S) (fs : node) : process S :=
  mkProcess fs (stats s) (stderr s).

(** How a piece of a script ends.  An exception, or the rejection of the
    promise of an [async] function, carries the [message] of its error.
    An exception thrown inside an event listener is not seen by the
    [try] or the promise around it: nobody catches it. *)
Inductive outcome (S A : Type) : Type :=
| Done (a : A) (s : process S)
| Thrown (message : string) (s : process S)
| Exited (code : Z) (s : process S)
| Uncaught (message : string) (s : process S)
| OutOfFuel.
Arguments Done {S A}.
Arguments Thrown {S A}.
Arguments Exited {S A}.
Arguments Uncaught {S A}.
Arguments OutOfFuel {S A}.

Definition M (S A : Type) : Type := process S -> outcome S A.

Definition ret {S A : Type} (a : A) : M S A := fun s => Done a s.

Definition bind {S A B : Type} (m : M S A) (k : A -> M S B) : M S B :=
  fun s =>
    match m s with
    | Done a s' => k a s'
    | Thrown e s' => Thrown e s'
    | Exited c s' => Exited c s'
    | Uncaught e s' => Uncaught e s'
    | OutOfFuel => OutOfFuel
    end.

Definition throw {S A : Type} (message : string) : M S A :=
  fun s => Thrown message s.

(** [process.exit(code)]. *)
Definition exit {S A : Type} (code : Z) : M S A := fun s => Exited code s.

(** [try { body } catch (error) { handler(error.message) }]. *)
Definition try_catch {S A : Type} (body : M S A) (handler : string -> M S A)
    : M S A :=
  fun s =>
    match body s with
    | Thrown e s' => handler e s'
    | o => o
    end.

(** The body of an event listener. *)
Definition listener {S A : Type} (body : M S A) : M S A :=
  fun s =>
    match body s with
    | Thrown e s' => Uncaught e s'
    | o => o
    end.

(** A call of the [fs] module that reads. *)
Definition reading {S A : Type} (call : node -> string + A) : M S A :=
  fun s =>
    match call (disk s) with
    | inr a => Done a s
    | inl e => Thrown e s
    end.

(** A call of the [fs] module that writes. *)
Definition writing {S : Type} (call : node -> string + node) : M S unit :=
  fun s =>
    match call (disk s) with
    | inr fs' => Done tt (mkProcess fs' (stats s) (stderr s))
    | inl e => Thrown e s
    end.

Definition exists_ {S : Type} (p : path) : M S bool :=
  fun s => Done (existsSync p (disk s)) s.

Definition update_stats {S : Type} (f : S -> S) : M S unit :=
  fun s => Done tt (mkProcess (disk s) (f (stats s)) (stderr s)).

(** [console.warn(line)] and [console.error(line)]. *)
Definition console_error {S : Type} (line : string) : M S unit :=
  fun s => Done tt (mkProcess (disk s) (stats s) (stderr s ++ [line])%list).

Declare Scope proc_scope.
Delimit Scope proc_scope with proc.
Notation "x <- m ;; k" := (bind m (fun x => k))
  (at level 61, m at next level, right associativity) : proc_scope.
Notation "m ;; k" := (bind m (fun _ => k))
  (at level 61, right associativity) : proc_scope.

(** [for (const x of l) { body(x) }]. *)
Fixpoint for_each {S A : Type} (l : list A) (body : A -> M S unit)
    : M S unit :=
  match l with
  | [] => ret tt
  | x :: rest => bind (body x) (fun _ => for_each rest body)
  end.

(** [l.filter(x => keep(x))] with a callback that reads the disk. *)
Fixpoint filter_by {S A : Type} (keep : A -> M S bool) (l : list A)
    : M S (list A) :=
  match l with
  | [] => ret []
  | x :: rest =>
      bind (keep x) (fun b =>
      bind (filter_by keep rest) (fun rest' =>
      ret (if b then x :: rest' else rest')))
  end.

(** The exit status of the Node.js process: [0] when the event loop
    runs empty, the argument of [process.exit], [1] after an uncaught
    exception or an unhandled rejection. *)
Definition exit_status {S A : Type} (o : outcome S A) : option Z :=
  match o with
  | Done _ _ => Some 0%Z
  | Exited code _ => Some code
  | Thrown _ _ => Some 1%Z
  | Uncaught _ _ => Some 1%Z
  | OutOfFuel => None
  end.

(** [m.catch(console.error)], the last line of every script. *)
Definition catch_console_error {S : Type} (m : M S unit) : M S unit :=
  try_catch m console_error.

End Proc.

(** ** [update-audio-references.js]: class [AudioFileUpdater] *)
Module Updater.
Import Json Rewriter Fs Proc.
Local Open Scope proc_scope.

(** [JSON.parse], which throws a [SyntaxError] (its message on the
    left) on a text that is not JSON, and [JSON.stringify(v, null, 2)]:
    the standard library the script delegates to. *)
Class JSON : Type := {
  JSON_parse : string -> string + value;
  JSON_stringify : value -> string
}.

(** [this.stats]. *)
Record counters : Type := mkCounters {
  jsonFilesUpdated : nat;
  audioReferencesUpdated : nat
}.

(** [path.join(__dirname, '../PNLD/content/i18n')], below the root of
    the repository. *)
Definition baseDir : path := ["PNLD"; "content"; "i18n"].

Definition warning (filePath : path) (message : string) : string :=
  "   ⚠️  Warning: Could not process " ++ show filePath ++ ": " ++ message.

(** [function traverse(currentDir)] of [findJsonFiles], on the
    directory [n] found at [currentDir]: the paths pushed to
    [jsonFiles].  The traversal only reads, so the entries it meets are
    those of [n]. *)
Fixpoint traverse (currentDir : path) (n : node) : list path :=
  match n with
  | File _ => []
  | Dir entries =>
      flat_map
        (fun kv =>
           let itemPath := join currentDir (fst kv) in
           match snd kv with
           | Dir _ => traverse itemPath (snd kv)
           | File _ =>
               if Js.endsWith (fst kv) ".json" then [itemPath] else []
           end)
        entries
  end.

Section Methods.
Context {json : JSON}.

(** The value of [JSON.parse(fs.readFileSync(filePath, 'utf8'))], or
    the message of the error that one of the two calls throws. *)
Definition load (filePath : path) (fs : node) : string + value :=
  match readFileSync filePath fs with
  | inl e => inl e
  | inr content => JSON_parse content
  end.

Definition updateJsonFile (filePath : path) : M counters bool :=
  try_catch
    (data <- reading (load filePath) ;;
     let updatedData := updateObjectReferences data in
     if hasChanges updatedData then
       writing (writeFileSync filePath
                  (JSON_stringify (Rewriter.data updatedData))) ;;
       update_stats
         (fun st => mkCounters (jsonFilesUpdated st)
                      (audioReferencesUpdated st + changeCount updatedData)) ;;
       ret true
     else ret false)
    (fun message => console_error (warning filePath message) ;; ret false).

Definition findJsonFiles (directory : path) : M counters (list path) :=
  reading (fun fs =>
             match readdirSync directory fs, lookup directory fs with
             | inl e, _ => inl e
             | inr _, Some n => inr (traverse directory n)
             | inr _, None => inr []
             end).

(** The loop of [updateLanguageReferences]. *)
Definition updateFiles (jsonFiles : list path) : M counters unit :=
  for_each jsonFiles
    (fun jsonFile =>
       updated <- updateJsonFile jsonFile ;;
       if updated : bool then
         update_stats
           (fun st => mkCounters (jsonFilesUpdated st + 1)
                        (audioReferencesUpdated st))
       else ret tt).

Definition updateLanguageReferences (language : string) : M counters unit :=
  let langDir := join baseDir language in
  jsonFiles <- findJsonFiles langDir ;;
  updateFiles jsonFiles.

Definition updateAudioReferences : M counters unit :=
  names <- reading (readdirSync baseDir) ;;
  languages <- filter_by
                 (fun dir =>
                    st <- reading (statSync (join baseDir dir)) ;;
                    ret (isDirectory st))
                 names ;;
  for_each languages updateLanguageReferences.

(** [updater.updateAudioReferences().catch(console.error)]. *)
Definition main : M counters unit :=
  catch_console_error updateAudioReferences.

End Methods.

(** A stand-in for the JSON library that knows three texts. *)
Definition quoted (s : string) : string :=
  String (ascii_of_nat 34) s ++ String (ascii_of_nat 34) EmptyString.

Definition sound_text (name : string) : string :=
  "{" ++ quoted "sound" ++ ": " ++ quoted name ++ "}".

Definition sample_json : JSON := {|
  JSON_parse := fun text =>
    if String.eqb text (sound_text "intro.mp3")
    then inr (VObj [("sound", VStr "intro.mp3")])
    else if String.eqb text (sound_text "intro.ogg")
    then inr (VObj [("sound", VStr "intro.ogg")])
    else if String.eqb text (quoted "intro.mp3")
    then inr (VStr "intro.mp3")
    else inl "Unexpected token";
  JSON_stringify := fun v =>
    match v with
    | VObj [("sound", VStr name)] => sound_text name
    | _ => "null"
    end
|}.

End Updater.

(** A sample run: one language with a file that holds a reference, a
    file that is not JSON, a file that is one string, and a file that
    was converted before. *)
Module UpdaterSample.
Import Json Fs Proc Updater.

Definition en : path := join baseDir "en".

Definition sample_disk : node :=
  Dir [("PNLD",
        Dir [("content",
              Dir [("i18n",
                    Dir [("en",
                          Dir [("page.json", File (sound_text "intro.mp3"));
                               ("bad.json", File "{oops");
                               ("title.json", File (quoted "intro.mp3"));
                               ("done.json", File (sound_text "intro.ogg"))])])])])].

Definition sample_start : process counters :=
  mkProcess sample_disk (mkCounters 0 0) [].

End UpdaterSample.

(** ** The encoder

    [ffmpeg] is not part of the repository.  Its runs follow the
    contract of the specification: an exit code of zero signals
    success, any other end signals failure, with the diagnostics on its
    error stream.  A run reads the input file and writes nothing but
    the output file; a run that fails may leave a part of the output
    behind. *)
Module ChildProcess.
Import Fs Proc.

(** A failed run ends with a non-zero exit code, or is ended by a
    signal ([code] is [null] then). *)
Inductive failure : Type :=
| Status (code : positive)
| Signal.

(** What the encoder makes of the bytes of its input. *)
Inductive encoding : Type :=
| Encoded (output : string)
| Failed (why : failure) (partial : option string) (diagnostics : string).

(** What the listeners of a child process see: the ['error'] event of
    a child that could not be started, or the ['close'] event with the
    exit code and the text collected from the error stream. *)
Inductive spawned : Type :=
| SpawnError (message : string)
| Closed (code : option Z) (errorOutput : string).

Class Ffmpeg : Type := {
  (** [spawn('ffmpeg', ['-version'])] *)
  version : spawned;
  (** the encoder proper, on its arguments and the bytes of the input *)
  encode : list string -> string -> encoding
}.

Definition code_of (why : failure) : option Z :=
  match why with
  | Status code => Some (Zpos code)
  | Signal => None
  end.

(** [`${code}`]. *)
Definition show_code (code : option Z) : string :=
  match code with
  | Some z => NilZero.string_of_int (Z.to_int z)
  | None => "null"
  end.

(** [spawn('ffmpeg', args)] for a conversion of [input] to [output],
    up to the event that ends it.  An input that cannot be read and an
    output that cannot be written make the run fail with status 1. *)
Definition spawn_ffmpeg {S : Type} `{Ffmpeg} (args : list string)
    (input output : path) : M S spawned :=
  fun s =>
    match version with
    | SpawnError message => Done (SpawnError message) s
    | Closed _ _ =>
        match readFileSync input (disk s) with
        | inl e => Done (Closed (Some 1%Z) e) s
        | inr bytes =>
            match encode args bytes with
            | Encoded out =>
                match writeFileSync output out (disk s) with
                | inr fs' => Done (Closed (Some 0%Z) "") (with_disk s fs')
                | inl e => Done (Closed (Some 1%Z) e) s
                end
            | Failed why partial diagnostics =>
                Done (Closed (code_of why) diagnostics)
                  match partial with
                  | Some part =>
                      match writeFileSync output part (disk s) with
                      | inr fs' => with_disk s fs'
                      | inl _ => s
                      end
                  | None => s
                  end
            end
        end
    end.

End ChildProcess.

(** ** What [AudioCompressor] and [MP3Compressor] have in the same
       words *)
Module Compressor.
Import Fs Proc ChildProcess.
Local Open Scope proc_scope.

(** [this.stats]; an entry of [errors] is [{ file, error }]. *)
Record statistics : Type := mkStatistics {
  totalFiles : nat;
  processedFiles : nat;
  originalSize : nat;
  compressedSize : nat;
  errors : list (string * string)
}.

Definition initial : statistics := mkStatistics 0 0 0 0 [].

Definition count_file (size : nat) (st : statistics) : statistics :=
  mkStatistics (totalFiles st + 1) (processedFiles st)
    (originalSize st + size) (compressedSize st) (errors st).

Definition count_processed (st : statistics) : statistics :=
  mkStatistics (totalFiles st) (processedFiles st + 1)
    (originalSize st) (compressedSize st) (errors st).

Definition add_compressed (size : nat) (st : statistics) : statistics :=
  mkStatistics (totalFiles st) (processedFiles st)
    (originalSize st) (compressedSize st + size) (errors st).

Definition push_error (file message : string) (st : statistics)
    : statistics :=
  mkStatistics (totalFiles st) (processedFiles st)
    (originalSize st) (compressedSize st)
    (errors st ++ [(file, message)])%list.

Definition M : Type -> Type := Proc.M statistics.

(** [checkFFmpeg]: [resolve(code === 0)] on ['close'],
    [resolve(false)] on ['error']. *)
Definition checkFFmpeg `{Ffmpeg} : M bool :=
  ret match version with
      | Closed (Some 0%Z) _ => true
      | _ => false
      end.

(** [readdirSync(dir).filter(d => statSync(join(dir, d)).isDirectory())] *)
Definition languagesOf (dir : path) : M (list string) :=
  names <- reading (readdirSync dir) ;;
  filter_by
    (fun name =>
       st <- reading (statSync (join dir name)) ;;
       ret (isDirectory st))
    names.

(** [readdirSync(audioDir).filter(file => file.endsWith('.mp3'))] *)
Definition mp3FilesOf (audioDir : path) : M (list string) :=
  names <- reading (readdirSync audioDir) ;;
  ret (filter (fun file => Js.endsWith file ".mp3") names).

(** [analyzeCurrentFiles] over the language directories of [dir].  The
    call of [getTotalSize] in its log line reads the same directory
    again and is left out with the line. *)
Definition analyzeFiles (dir : path) : M unit :=
  languages <- languagesOf dir ;;
  for_each languages
    (fun lang =>
       let audioDir := join (join dir lang) "audio" in
       present <- exists_ audioDir ;;
       if present : bool then
         files <- mp3FilesOf audioDir ;;
         for_each files
           (fun file =>
              st <- reading (statSync (join audioDir file)) ;;
              update_stats (count_file (size st)))
       else ret tt).

(** The body of the loop of [copyDirectory] over the items of [src];
    [recur] is the method itself. *)
Definition copyItem (recur : path -> path -> M unit) (src dest : path)
    (item : string) : M unit :=
  let srcPath := join src item in
  let destPath := join dest item in
  st <- reading (statSync srcPath) ;;
  if isDirectory st then recur srcPath destPath
  else writing (copyFileSync srcPath destPath).

(** [copyDirectory(src, dest)].  The recursion follows the directories
    it finds on the disk while it copies; [fuel] bounds its depth. *)
Fixpoint copyDirectory (fuel : nat) (src dest : path) : M unit :=
  match fuel with
  | O => fun _ => OutOfFuel
  | S fuel' =>
      present <- exists_ dest ;;
      (if present : bool then ret tt else writing (mkdirSync dest)) ;;
      items <- reading (readdirSync src) ;;
      for_each items (copyItem (copyDirectory fuel') src dest)
  end.

(** [createBackup], with the [baseDir] and the [backupDir] of the
    class. *)
Definition createBackup (baseDir backupDir : path) (fuel : nat) : M unit :=
  present <- exists_ backupDir ;;
  if present : bool then ret tt
  else copyDirectory fuel baseDir backupDir.

(** The loop of [compressLanguageFiles] around [compressFile]. *)
Definition compressEach (compressFile : string -> M unit)
    (mp3Files : list string) : M unit :=
  for_each mp3Files
    (fun file =>
       try_catch
         (compressFile file ;; update_stats count_processed)
         (fun message => update_stats (push_error file message))).

Definition not_found : string :=
  "❌ FFmpeg is required but not found. Please install it first.".

End Compressor.

(** ** [compress-audio.js]: class [AudioCompressor] *)
Module OggCompressor.
Import Fs Proc ChildProcess Compressor.
Local Open Scope proc_scope.

Definition baseDir : path := ["PNLD"; "content"; "i18n"].
Definition backupDir : path := ["PNLD"; "content"; "i18n-backup"].

Section Methods.
Context {ffmpeg : Ffmpeg}.

Definition analyzeCurrentFiles : M unit := analyzeFiles baseDir.

Definition createBackup (fuel : nat) : M unit :=
  Compressor.createBackup baseDir backupDir fuel.

Definition arguments (inputPath outputPath : path) : list string :=
  ["-i"; show inputPath; "-c:a"; "libopus"; "-b:a"; "16k"; "-ar"; "16000";
   "-ac"; "1"; "-application"; "voip"; "-y"; show outputPath].

(** [compressFile]; the sizes it resolves with are not used by its
    caller. *)
Definition compressFile (audioDir : path) (filename : string) : M unit :=
  let inputPath := join audioDir filename in
  let outputPath := join audioDir (Js.replace ".mp3" ".ogg" filename) in
  original <- reading (statSync inputPath) ;;
  child <- spawn_ffmpeg (arguments inputPath outputPath)
             inputPath outputPath ;;
  match child with
  | Closed code errorOutput =>
      match code with
      | Some 0%Z =>
          listener
            (compressed <- reading (statSync outputPath) ;;
             update_stats (add_compressed (size compressed)) ;;
             writing (unlinkSync inputPath))
      | _ =>
          throw ("FFmpeg failed with code " ++ show_code code ++ ": "
                 ++ errorOutput)
      end
  | SpawnError message => throw ("Failed to start FFmpeg: " ++ message)
  end.

Definition compressLanguageFiles (language : string) : M unit :=
  let audioDir := join (join baseDir language) "audio" in
  present <- exists_ audioDir ;;
  if present : bool then
    mp3Files <- mp3FilesOf audioDir ;;
    compressEach (compressFile audioDir) mp3Files
  else ret tt.

Definition compressLanguages : M unit :=
  languages <- languagesOf baseDir ;;
  for_each languages compressLanguageFiles.

Definition compressAllFiles (fuel : nat) : M unit :=
  createBackup fuel ;;
  compressLanguages.

Definition init (fuel : nat) : M unit :=
  found <- checkFFmpeg ;;
  if found : bool then
    analyzeCurrentFiles ;;
    compressAllFiles fuel
  else
    console_error not_found ;;
    exit 1%Z.

(** [compressor.init().catch(console.error)]. *)
Definition main (fuel : nat) : M unit := catch_console_error (init fuel).

End Methods.
End OggCompressor.

(** ** [compress-audio-mp3.js]: class [MP3Compressor] *)
Module Mp3Compressor.
Import Fs Proc ChildProcess Compressor.
Local Open Scope proc_scope.

Definition baseDir : path := ["PNLD"; "content"; "i18n"].
Definition backupDir : path := ["PNLD"; "content"; "i18n-backup-mp3"].

(** [this.settings] of [new MP3Compressor()]. *)
Definition bitrate : string := "64".
Definition sampleRate : string := "24000".
Definition channels : string := "1".
Definition quality : string := "2".

Section Methods.
Context {ffmpeg : Ffmpeg}.

(** The files are counted in the backup. *)
Definition analyzeCurrentFiles : M unit := analyzeFiles backupDir.

Definition createBackup (fuel : nat) : M unit :=
  Compressor.createBackup baseDir backupDir fuel.

Definition arguments (inputPath outputPath : path) : list string :=
  ["-i"; show inputPath; "-c:a"; "libmp3lame"; "-b:a"; bitrate;
   "-ar"; sampleRate; "-ac"; channels; "-q:a"; quality; "-y";
   show outputPath].

(** [if (fs.existsSync(outputPath)) { fs.unlinkSync(outputPath); }] *)
Definition cleanUp (outputPath : path) : M unit :=
  present <- exists_ outputPath ;;
  if present : bool then writing (unlinkSync outputPath) else ret tt.

Definition compressFile (sourceAudioDir targetAudioDir : path)
    (filename : string) : M unit :=
  let inputPath := join sourceAudioDir filename in
  let outputPath := join targetAudioDir filename in
  original <- reading (statSync inputPath) ;;
  child <- spawn_ffmpeg (arguments inputPath outputPath)
             inputPath outputPath ;;
  match child with
  | Closed code errorOutput =>
      match code with
      | Some 0%Z =>
          listener
            (compressed <- reading (statSync outputPath) ;;
             update_stats (add_compressed (size compressed)))
      | _ =>
          listener (cleanUp outputPath) ;;
          throw ("FFmpeg failed with code " ++ show_code code ++ ": "
                 ++ errorOutput)
      end
  | SpawnError message =>
      listener (cleanUp outputPath) ;;
      throw ("Failed to start FFmpeg: " ++ message)
  end.

Definition compressLanguageFiles (language : string) : M unit :=
  let sourceAudioDir := join (join backupDir language) "audio" in
  let targetAudioDir := join (join baseDir language) "audio" in
  present <- exists_ sourceAudioDir ;;
  if present : bool then
    made <- exists_ targetAudioDir ;;
    (if made : bool then ret tt else writing (mkdirSync targetAudioDir)) ;;
    mp3Files <- mp3FilesOf sourceAudioDir ;;
    compressEach (compressFile sourceAudioDir targetAudioDir) mp3Files
  else ret tt.

Definition compressLanguages : M unit :=
  languages <- languagesOf backupDir ;;
  for_each languages compressLanguageFiles.

Definition compressAllFiles (fuel : nat) : M unit :=
  createBackup fuel ;;
  compressLanguages.

Definition init (fuel : nat) : M unit :=
  found <- checkFFmpeg ;;
  if found : bool then
    analyzeCurrentFiles ;;
    compressAllFiles fuel
  else
    console_error not_found ;;
    exit 1%Z.

(** [compressor.init().catch(console.error)]. *)
Definition main (fuel : nat) : M unit := catch_console_error (init fuel).

End Methods.
End Mp3Compressor.

(** ** Auxiliary definitions for the proofs about the file system *)
Module FsAux.
Import Fs.

(** Two paths part ways: below a common directory they go on with
    different names. *)
Fixpoint apart (p q : path) : bool :=
  match p, q with
  | a :: p', b :: q' => if String.eqb a b then apart p' q' else true
  | _, _ => false
  end.

(** No regular file lies on the way to [p], above [p] itself. *)
Fixpoint open_way (p : path) (n : node) : bool :=
  match p with
  | [] => true
  | name :: rest =>
      match n with
      | File _ => false
      | Dir entries =>
          match find name entries with
          | Some x => open_way rest x
          | None => true
          end
      end
  end.

Definition is_file (o : option node) : bool :=
  match o with
  | Some (File _) => true
  | _ => false
  end.

Definition is_dir (o : option node) : bool :=
  match o with
  | Some (Dir _) => true
  | _ => false
  end.

End FsAux.

(** ** What the backup step is meant to do *)
Module BackupSpec.
Import Fs Proc Compressor.

(** From a disk that holds the directory [Dir es] at [baseDir],
    [createBackup] ends well; the disk it leaves is the old one when
    [backupDir] existed, and otherwise the old one with a copy of
    [Dir es] at [backupDir]; the source is still there; a second run
    from the state it leaves changes nothing. *)
Definition backs_up (baseDir backupDir : path) (createBackup : nat -> M unit)
    (fuel : nat) (s : process statistics) (es : list (string * node))
    : Prop :=
  let after :=
    if existsSync backupDir (disk s) then disk s
    else graft backupDir (Dir es) (disk s) in
  createBackup fuel s = Done tt (with_disk s after)
  /\ (existsSync backupDir (disk s) = true -> with_disk s after = s)
  /\ (existsSync backupDir (disk s) = false ->
      lookup backupDir after = lookup baseDir (disk s))
  /\ lookup baseDir after = Some (Dir es)
  /\ createBackup fuel (with_disk s after) = Done tt (with_disk s after).

(** A disk with two languages and no backup. *)
Definition sample_disk : node :=
  Dir [("PNLD",
        Dir [("content",
              Dir [("i18n",
                    Dir [("en",
                          Dir [("audio",
                                Dir [("intro.mp3", File "RIFF-intro");
                                     ("notes.txt", File "n")]);
                               ("page.json", File "{}")]);
                         ("es", Dir [("audio", Dir [("hola.mp3", File "RIFF-hola")])]);
                         ("README", File "r")])])])].

Definition sample_content : list (string * node) :=
  [("en",
    Dir [("audio",
          Dir [("intro.mp3", File "RIFF-intro"); ("notes.txt", File "n")]);
         ("page.json", File "{}")]);
   ("es", Dir [("audio", Dir [("hola.mp3", File "RIFF-hola")])]);
   ("README", File "r")].

Definition sample_start : process statistics :=
  mkProcess sample_disk initial [].

End BackupSpec.

(** ** A run in which one conversion fails *)
Module FailureSample.
Import Fs Proc ChildProcess Compressor.

(** An encoder that fails on the bytes of [intro.mp3] with status 1,
    after it wrote a part of its output, and converts any other
    input. *)
Definition failing_ffmpeg : Ffmpeg := {|
  version := Closed (Some 0%Z) "";
  encode := fun _ bytes =>
    if String.eqb bytes "RIFF-intro"
    then Failed (Status 1) (Some "Ogg") "No space left on device"
    else Encoded ("Ogg:" ++ bytes)
|}.

Definition audio : list (string * node) :=
  [("intro.mp3", File "RIFF-intro"); ("next.mp3", File "RIFF-next")].

Definition tree (dirs : list (string * node)) : node :=
  Dir [("PNLD", Dir [("content", Dir dirs)])].

(** The disk of [compress-audio.js]: the files are converted in
    place. *)
Definition ogg_disk : node :=
  tree [("i18n", Dir [("en", Dir [("audio", Dir audio)])])].

(** The disk of [compress-audio-mp3.js]: the files are read from the
    backup. *)
Definition mp3_disk : node :=
  tree [("i18n", Dir [("en", Dir [("audio", Dir [])])]);
        ("i18n-backup-mp3", Dir [("en", Dir [("audio", Dir audio)])])].

Definition start (fs : node) : process statistics := mkProcess fs initial [].

Definition message : string :=
  "FFmpeg failed with code 1: No space left on device".

End FailureSample.

(** ** The layout of the content directory and the ends of a run *)
Module Layout.
Import Fs FsAux Proc.

Definition regular (n : node) : bool :=
  match n with
  | File _ => true
  | Dir _ => false
  end.

(** The [audio] directory of every language below [baseDir] holds
    regular files only. *)
Definition audio_files (baseDir : path) (fs : node) : bool :=
  match lookup baseDir fs with
  | Some (Dir languages) =>
      forallb
        (fun kv =>
           match lookup ["audio"] (snd kv) with
           | Some (Dir entries) => forallb regular (map snd entries)
           | _ => true
           end)
        languages
  | _ => true
  end.

(** The same, as the proofs keep it: whatever directory is found at
    the [audio] path of a language holds regular files only. *)
Definition files_only (baseDir : path) (fs : node) : Prop :=
  forall (language : string) (entries : list (string * node)),
    lookup (baseDir ++ [language; "audio"])%list fs = Some (Dir entries) ->
    forallb regular (map snd entries) = true.

(** From a disk with [P], the computation ends by returning or by
    throwing, on a disk with [Q]: it neither leaves the process nor
    fails in a listener, and it does not run out of fuel. *)
Definition settles {S A : Type} (P : node -> Prop) (m : M S A)
    (Q : node -> Prop) : Prop :=
  forall s, P (disk s) ->
    match m s with
    | Done _ s' | Thrown _ s' => Q (disk s')
    | _ => False
    end.

(** From a disk with [P], the computation returns, on a disk with
    [Q]. *)
Definition returns {S A : Type} (P : node -> Prop) (m : M S A)
    (Q : node -> Prop) : Prop :=
  forall s, P (disk s) ->
    match m s with
    | Done _ s' => Q (disk s')
    | _ => False
    end.

(** The audio directories below the [baseDir] of the compressors. *)
Definition audio_only : node -> Prop := files_only Mp3Compressor.baseDir.

(** The condition on a disk that asks for nothing. *)
Definition anything (fs : node) : Prop := True.

(** [ffmpeg -version] ran and exited with code 0. *)
Definition found (version : ChildProcess.spawned) : bool :=
  match version with
  | ChildProcess.Closed (Some 0%Z) _ => true
  | _ => false
  end.

End Layout.

(** ** Auxiliary definitions for the proofs about the updater *)
Module UpdaterAux.
Import Json Rewriter Fs FsAux Proc Updater.

(** The changes [updateJsonFile] counts in the file at [p]: those of
    the document it holds, and none when the file does not load. *)
Definition changes_in `{JSON} (fs : node) (p : path) : nat :=
  match load p fs with
  | inr doc => changeCount (updateObjectReferences doc)
  | inl _ => 0
  end.

(** The regular file at [p] holds [content]. *)
Definition kept_file (p : path) (content : string) (fs : node) : Prop :=
  lookup p fs = Some (File content).

End UpdaterAux.

(** ** Auxiliary definitions for the proofs about the compressors *)
Module CompressorAux.
Import Fs FsAux Proc ChildProcess Compressor.

(** The files one loop of [compressLanguageFiles] has dealt with. *)
Definition tally (st : statistics) : nat :=
  processedFiles st + List.length (errors st).

(** A condition on the disk that no change inside an [audio] directory
    of a language below [baseDir] can break. *)
Definition audio_stable (baseDir : path) (Q : node -> Prop) : Prop :=
  forall (language : string) (entries : list (string * node)) (fs : node),
    Q fs -> Q (graft (baseDir ++ [language; "audio"])%list (Dir entries) fs).

(** The path [q] does not lie in the [audio] directory of a language
    below [baseDir], and is none of the directories above one. *)
Fixpoint outside_audio (baseDir q : path) : bool :=
  match baseDir, q with
  | [], _ :: name :: _ => negb (String.eqb name "audio")
  | [], _ => false
  | a :: baseDir', b :: q' =>
      if String.eqb a b then outside_audio baseDir' q' else true
  | _ :: _, [] => false
  end.

(** The names of the [.mp3] files in a directory. *)
Definition mp3_names (entries : list (string * node)) : list string :=
  filter (fun file => Js.endsWith file ".mp3") (map fst entries).

(** A condition on the disk that no change of the directory at [p]
    can break. *)
Definition stable_at (p : path) (Q : node -> Prop) : Prop :=
  forall (entries : list (string * node)) (fs : node),
    Q fs -> Q (graft p (Dir entries) fs).

(** From [s] to [s'], [n] more files were dealt with; the counts of
    the analysis and the error stream are as they were. *)
Definition counted (n : nat) (s s' : process statistics) : Prop :=
  tally (stats s') = tally (stats s) + n
  /\ totalFiles (stats s') = totalFiles (stats s)
  /\ originalSize (stats s') = originalSize (stats s)
  /\ stderr s' = stderr s.

(** The statistics after the analysis found [n] more files, of [bytes]
    bytes together. *)
Definition add_files (n bytes : nat) (st : statistics) : statistics :=
  mkStatistics (totalFiles st + n) (processedFiles st)
    (originalSize st + bytes) (compressedSize st) (errors st).

(** The names of the directories in [dir]. *)
Definition languages_in (dir : path) (fs : node) : list string :=
  match lookup dir fs with
  | Some (Dir entries) =>
      filter (fun name => is_dir (find name entries)) (map fst entries)
  | _ => []
  end.

(** The entries of the audio directory of [language] below [dir]. *)
Definition audio_entries (dir : path) (fs : node) (language : string)
    : list (string * node) :=
  match lookup (dir ++ [language; "audio"])%list fs with
  | Some (Dir entries) => entries
  | _ => []
  end.

Definition size_of (o : option node) : nat :=
  match o with
  | Some (File content) => String.length content
  | _ => 0
  end.

(** The number of [.mp3] names in the audio directories of
    [languages], and the bytes of the files they name. *)
Definition mp3_count_of (dir : path) (fs : node) (languages : list string)
    : nat :=
  list_sum
    (map (fun language =>
            List.length (mp3_names (audio_entries dir fs language)))
       languages).

Definition mp3_bytes_of (dir : path) (fs : node) (languages : list string)
    : nat :=
  list_sum
    (map (fun language =>
            list_sum
              (map (fun name =>
                      size_of (find name (audio_entries dir fs language)))
                 (mp3_names (audio_entries dir fs language))))
       languages).

Definition mp3_count (dir : path) (fs : node) : nat :=
  mp3_count_of dir fs (languages_in dir fs).

Definition mp3_bytes (dir : path) (fs : node) : nat :=
  mp3_bytes_of dir fs (languages_in dir fs).

(** [dir] is a directory, and no language in it has a regular file
    named [audio]. *)
Definition audio_dirs (dir : path) (fs : node) : bool :=
  is_dir (lookup dir fs)
  && forallb
       (fun language =>
          negb (is_file (lookup (dir ++ [language; "audio"])%list fs)))
       (languages_in dir fs).

(** The audio directory of every language of the backup of
    [compress-audio-mp3.js] is there below [baseDir], or can be
    made. *)
Definition targets_creatable (fs : node) : bool :=
  forallb
    (fun language =>
       creatable (Mp3Compressor.baseDir ++ [language; "audio"])%list fs)
    (languages_in Mp3Compressor.backupDir fs).

(** The disk [fs1] is [fs], or [fs] after a write to [output]. *)
Definition maybe_written (output : path) (fs fs1 : node) : Prop :=
  fs1 = fs \/ exists part, writeFileSync output part fs = inr fs1.

(** The disk [fs2] is [fs1] without [output]. *)
Definition cleaned (output : path) (fs1 fs2 : node) : Prop :=
  (lookup output fs1 = None /\ fs2 = fs1) \/ unlinkSync output fs1 = inr fs2.

Section Ends.
Context {ffmpeg : Ffmpeg}.

(** The ways in which [compressFile] of [compress-audio.js] ends. *)
Inductive ogg_end (audioDir : path) (filename : string)
    (s : process statistics) : outcome statistics unit -> Prop :=
| ogg_failed (message : string) (fs1 : node) :
    maybe_written (join audioDir (Js.replace ".mp3" ".ogg" filename))
      (disk s) fs1 ->
    ogg_end audioDir filename s (Thrown message (with_disk s fs1))
| ogg_converted (bytes out : string) (fs1 fs2 : node) :
    lookup (join audioDir filename) (disk s) = Some (File bytes) ->
    encode
      (OggCompressor.arguments (join audioDir filename)
         (join audioDir (Js.replace ".mp3" ".ogg" filename)))
      bytes
    = Encoded out ->
    writeFileSync (join audioDir (Js.replace ".mp3" ".ogg" filename)) out
      (disk s)
    = inr fs1 ->
    unlinkSync (join audioDir filename) fs1 = inr fs2 ->
    ogg_end audioDir filename s
      (Done tt
         (mkProcess fs2 (add_compressed (String.length out) (stats s))
            (stderr s))).

(** The ways in which [compressFile] of [compress-audio-mp3.js]
    ends. *)
Inductive mp3_end (sourceAudioDir targetAudioDir : path) (filename : string)
    (s : process statistics) : outcome statistics unit -> Prop :=
| mp3_missing (message : string) :
    statSync (join sourceAudioDir filename) (disk s) = inl message ->
    mp3_end sourceAudioDir targetAudioDir filename s (Thrown message s)
| mp3_failed (message : string) (fs1 fs2 : node) :
    existsSync (join sourceAudioDir filename) (disk s) = true ->
    maybe_written (join targetAudioDir filename) (disk s) fs1 ->
    cleaned (join targetAudioDir filename) fs1 fs2 ->
    mp3_end sourceAudioDir targetAudioDir filename s
      (Thrown message (with_disk s fs2))
| mp3_converted (bytes out : string) (fs1 : node) :
    lookup (join sourceAudioDir filename) (disk s) = Some (File bytes) ->
    encode
      (Mp3Compressor.arguments (join sourceAudioDir filename)
         (join targetAudioDir filename))
      bytes
    = Encoded out ->
    writeFileSync (join targetAudioDir filename) out (disk s) = inr fs1 ->
    mp3_end sourceAudioDir targetAudioDir filename s
      (Done tt
         (mkProcess fs1 (add_compressed (String.length out) (stats s))
            (stderr s))).

End Ends.

End CompressorAux.

(** ** A disk on which everything has been converted *)
Module IdleSample.
Import Fs Proc Compressor.

Definition converted_disk : node :=
  FailureSample.tree
    [("i18n",
      Dir [("en", Dir [("audio", Dir [("intro.ogg", File "Ogg:RIFF")])])]);
     ("i18n-backup",
      Dir [("en", Dir [("audio", Dir [("intro.mp3", File "RIFF")])])])].

Definition start : process statistics := mkProcess converted_disk initial [].

End IdleSample.

(** ** The leaves a run replaced *)
Module RewriterCount.
Import Json.

(** [o[key]] for an own property of a parsed object. *)
Fixpoint get (key : string) (props : list (string * value)) : option value :=
  match props with
  | [] => None
  | (k, x) :: rest => if String.eqb k key then Some x else get key rest
  end.

(** "The number of string leaves replaced in the returned tree": the
    string leaves of [after] that differ from the leaf at the same
    place of [before], the place being the index in an array and the
    key in an object. *)
Fixpoint replaced (before after : value) {struct after} : nat :=
  match after with
  | VStr b =>
      match before with
      | VStr a => if String.eqb a b then 0 else 1
      | _ => 0
      end
  | VArr afters =>
      match before with
      | VArr befores =>
          (fix each (xs ys : list value) {struct ys} : nat :=
             match ys with
             | [] => 0
             | y :: ys' =>
                 match xs with
                 | x :: xs' => replaced x y + each xs' ys'
                 | [] => 0
                 end
             end) befores afters
      | _ => 0
      end
  | VObj afters =>
      match before with
      | VObj befores =>
          list_sum
            (map (fun kv =>
                    match get (fst kv) befores with
                    | Some x => replaced x (snd kv)
                    | None => 0
                    end)
               afters)
      | _ => 0
      end
  | _ => 0
  end.

(** The leaves of two arrays, index by index. *)
Fixpoint replaced_items (befores afters : list value) : nat :=
  match afters with
  | [] => 0
  | y :: ys' =>
      match befores with
      | x :: xs' => replaced x y + replaced_items xs' ys'
      | [] => 0
      end
  end.

(** A parsed document whose only property is named [__proto__]. *)
Definition proto_document : value := VObj [("__proto__", VStr "r.mp3")].

End RewriterCount.

(** ** A directory where an output file goes *)
Module CrashSample.
Import Fs Proc ChildProcess Compressor.

(** An encoder that is found and converts whatever it can read. *)
Definition working_ffmpeg : Ffmpeg := {|
  version := Closed (Some 0%Z) "";
  encode := fun _ bytes => Encoded ("ID3:" ++ bytes)
|}.

(** The backup holds the file [intro.mp3]; below [baseDir] a
    directory has that name. *)
Definition mp3_disk : node :=
  FailureSample.tree
    [("i18n", Dir [("en", Dir [("audio", Dir [("intro.mp3", Dir [])])])]);
     ("i18n-backup-mp3",
      Dir [("en", Dir [("audio", Dir [("intro.mp3", File "RIFF")])])])].

Definition start : process statistics := mkProcess mp3_disk initial [].

End CrashSample.

(* ================================================================= *)
(** * Part II: properties *)
(* ================================================================= *)

(** ** Strings *)
Module JsFacts.
Import Js.

Lemma drop_length (s : string) : drop (String.length s) s = "".
Proof. induction s as [|c s IH]; simpl; auto. Qed.

Lemma append_empty_r (s : string) : s ++ "" = s.
Proof. induction s as [|c s IH]; simpl; congruence. Qed.

(** When the first [.mp3] of a string is its suffix, replacing the
    first occurrence is replacing the suffix. *)
Lemma replace_suffix_only (s : string) :
  endsWith s ".mp3" = true ->
  RewriterSpec.suffix_only s = true ->
  replace ".mp3" ".ogg" s = RewriterSpec.swap_suffix ".mp3" ".ogg" s.
Proof.
  unfold RewriterSpec.suffix_only, replace, RewriterSpec.swap_suffix.
  intros Hends Hsole. rewrite Hends in Hsole. simpl in Hsole.
  destruct (indexOf ".mp3" s) as [pos|]; [|discriminate].
  apply Nat.eqb_eq in Hsole.
  change (String.length ".mp3") with 4.
  rewrite Hsole, drop_length.
  replace (String.length s - 4) with pos by lia.
  reflexivity.
Qed.

Lemma precedes_not_goes_before (k1 k2 : string) :
  precedes k1 k2 = true -> goes_before k2 k1 = false.
Proof.
  unfold precedes, goes_before.
  destruct (array_index k1) as [i|], (array_index k2) as [j|];
    try discriminate; auto.
  intros H. apply N.ltb_lt in H. apply N.ltb_ge. lia.
Qed.

Lemma precedes_neq (k1 k2 : string) :
  precedes k1 k2 = true -> String.eqb k1 k2 = false.
Proof.
  unfold precedes. intros H.
  destruct (String.eqb k1 k2) eqn:E; auto.
  apply String.eqb_eq in E. subst k2.
  destruct (array_index k1) as [i|]; simpl in H.
  - rewrite N.ltb_irrefl in H. discriminate.
  - discriminate.
Qed.

Lemma property_order_app (l1 l2 : list string) :
  property_order (l1 ++ l2) = true ->
  property_order l1 = true /\ property_order l2 = true /\
  (forall k1 k2, In k1 l1 -> In k2 l2 -> precedes k1 k2 = true).
Proof.
  induction l1 as [|k l1 IH]; simpl.
  - intros H. split; [reflexivity|]. split; [assumption|].
    intros k1 k2 [].
  - intros H. apply andb_true_iff in H as [Hk Hrest].
    rewrite forallb_app in Hk. apply andb_true_iff in Hk as [Hk1 Hk2].
    destruct (IH Hrest) as (H1 & H2 & H3).
    split; [|split; [assumption|]].
    + rewrite Hk1, H1. reflexivity.
    + intros k1 k2 [<-|Hin] Hin2.
      * rewrite forallb_forall in Hk2. auto.
      * auto.
Qed.

End JsFacts.



Module RewriterFacts.
Import Json Rewriter RewriterSpec RewriterAux.
Local Open Scope list_scope.

Lemma add_0 (r : result) : add r 0 = r.
Proof.
  destruct r as [d h c]. unfold add. simpl.
  rewrite orb_false_r, Nat.add_0_r. reflexivity.
Qed.

Lemma add_add (r : result) (a b : nat) : add (add r a) b = add r (a + b).
Proof.
  unfold add. simpl. f_equal.
  - destruct a, b; simpl; rewrite ?orb_false_r, ?orb_true_r; reflexivity.
  - lia.
Qed.

Lemma absorb_add (r nested : result) :
  flag_ok nested -> absorb r nested = add r (changeCount nested).
Proof.
  unfold flag_ok, absorb. intros ->.
  destruct (changeCount nested) as [|n]; simpl.
  - symmetry. apply add_0.
  - unfold add. simpl. rewrite orb_true_r. reflexivity.
Qed.

Lemma bump_add (r : result) : bump r = add r 1.
Proof. unfold bump, add. simpl. rewrite orb_true_r. reflexivity. Qed.

Lemma mapItem_eq (r : result) (item : value) :
  nested_ok item ->
  mapItem updateObjectReferences r item = (child item, add r (hits item)).
Proof.
  intros Hn. destruct item as [| b | x | s | items | props]; simpl;
    rewrite ?add_0; try reflexivity.
  - destruct (Js.endsWith s ".mp3"); rewrite ?bump_add, ?add_0; reflexivity.
  - rewrite absorb_add by (apply Hn; reflexivity). reflexivity.
  - rewrite absorb_add by (apply Hn; reflexivity). reflexivity.
Qed.

Lemma mapItems_eq (items : list value) :
  Forall nested_ok items ->
  forall r, mapItems updateObjectReferences r items
            = (map child items, add r (total items)).
Proof.
  induction 1 as [|item rest Hitem Hrest IH]; intros r.
  - simpl. rewrite add_0. reflexivity.
  - cbn [mapItems]. rewrite (mapItem_eq r item Hitem), IH.
    unfold total. simpl. rewrite add_add. reflexivity.
Qed.

Lemma visitEntry_eq (r : result) (key : string) (v : value) :
  nested_ok v ->
  visitEntry updateObjectReferences r (key, v)
  = add (assign r key (child v)) (hits v).
Proof.
  intros Hn. destruct v as [| b | x | s | items | props]; simpl;
    rewrite ?add_0; try reflexivity.
  - destruct (Js.endsWith s ".mp3"); rewrite ?bump_add, ?add_0; reflexivity.
  - rewrite absorb_add by (apply Hn; reflexivity). reflexivity.
  - rewrite absorb_add by (apply Hn; reflexivity). reflexivity.
Qed.

Lemma fold_visitEntry_eq (props : list (string * value)) :
  Forall (fun kv => nested_ok (snd kv)) props ->
  forall done h c,
    fold_left (visitEntry updateObjectReferences) props
              (mkResult (VObj done) h c)
    = add (mkResult (VObj (assigned props done)) h c)
          (total (map snd props)).
Proof.
  induction 1 as [|[key v] rest Hkv Hrest IH]; intros done h c.
  - simpl. rewrite add_0. reflexivity.
  - cbn [fold_left]. rewrite (visitEntry_eq _ key v Hkv).
    change (add (assign (mkResult (VObj done) h c) key (child v)) (hits v))
      with (mkResult (VObj (set_prop done key (child v)))
                     (h || (0 <? hits v)%nat) (c + hits v)).
    rewrite IH.
    change (mkResult (VObj (assigned rest (set_prop done key (child v))))
                     (h || (0 <? hits v)%nat) (c + hits v))
      with (add (mkResult (VObj (assigned ((key, v) :: rest) done)) h c)
                (hits v)).
    rewrite add_add. reflexivity.
Qed.

Lemma updateObjectReferences_array (items : list value) :
  Forall nested_ok items ->
  updateObjectReferences (VArr items)
  = mkResult (VArr (map child items)) (0 <? total items)%nat (total items).
Proof.
  intros H. cbn [updateObjectReferences].
  rewrite (mapItems_eq items H). reflexivity.
Qed.

Lemma updateObjectReferences_object (props : list (string * value)) :
  Forall (fun kv => nested_ok (snd kv)) props ->
  updateObjectReferences (VObj props)
  = mkResult (VObj (assigned props [])) (0 <? total (map snd props))%nat
             (total (map snd props)).
Proof.
  intros H. cbn [updateObjectReferences].
  rewrite (fold_visitEntry_eq props H). reflexivity.
Qed.

Lemma nested_ok_all (v : value) : nested_ok v.
Proof.
  induction v as [| b | x | s | items IH | props IH] using value_ind;
    intros Hc; try discriminate.
  - rewrite (updateObjectReferences_array items IH). reflexivity.
  - rewrite (updateObjectReferences_object props IH). reflexivity.
Qed.

Lemma references_flat_map {A : Type} (f : A -> list string)
    (p : string -> bool) (l : list A) :
  List.length (filter p (flat_map f l))
  = list_sum (map (fun x => List.length (filter p (f x))) l).
Proof.
  induction l as [|x l IH]; simpl; auto.
  rewrite filter_app, length_app, IH. reflexivity.
Qed.


Lemma total_strings (l : list value) :
  Forall count_ok l ->
  total l
  = List.length (filter (fun s => Js.endsWith s ".mp3")
                        (flat_map strings l)).
Proof.
  intros H. rewrite references_flat_map. unfold total. f_equal.
  induction H as [|x l Hx Hl IH]; simpl; auto.
  rewrite IH. f_equal. exact Hx.
Qed.

Lemma count_ok_all (v : value) : count_ok v.
Proof.
  induction v as [| b | x | s | items IH | props IH] using value_ind;
    unfold count_ok; try reflexivity.
  - simpl. destruct (Js.endsWith s ".mp3"); reflexivity.
  - cbn [hits strings].
    rewrite updateObjectReferences_array
      by (apply Forall_forall; intros; apply nested_ok_all).
    cbn [changeCount]. apply total_strings. exact IH.
  - cbn [hits strings].
    rewrite updateObjectReferences_object
      by (apply Forall_forall; intros; apply nested_ok_all).
    cbn [changeCount]. rewrite total_strings.
    + rewrite flat_map_concat_map, map_map, <- flat_map_concat_map.
      reflexivity.
    + apply Forall_map. exact IH.
Qed.

Lemma flag_ok_all (v : value) : flag_ok (updateObjectReferences v).
Proof.
  destruct (is_container v) eqn:Hc.
  - apply nested_ok_all. exact Hc.
  - destruct v; try discriminate; reflexivity.
Qed.

(** For every value, the flag of the returned record says whether
    its count is positive, and the count is the number of reference
    values of the input: the strings inside its arrays and objects, at
    any depth, that end in [.mp3], each counted once. *)
Theorem changeCount_counts_references (v : value) :
  hasChanges (updateObjectReferences v)
  = (0 <? changeCount (updateObjectReferences v))%nat
  /\ changeCount (updateObjectReferences v) = List.length (references v).
Proof.
  split; [apply flag_ok_all|].
  unfold references, contained_strings.
  destruct (is_container v) eqn:Hc.
  - pose proof (count_ok_all v) as H. unfold count_ok in H.
    rewrite <- H. destruct v; try discriminate; reflexivity.
  - destruct v; try discriminate; reflexivity.
Qed.

(** *** Key order *)

Lemma has_own_false (key : string) (done : list (string * value)) :
  (forall k, In k (keys done) -> Js.precedes k key = true) ->
  has_own key done = false.
Proof.
  intros H. unfold has_own.
  destruct (existsb (String.eqb key) (keys done)) eqn:E; auto.
  apply existsb_exists in E as (k & Hin & Heq).
  apply String.eqb_eq in Heq. subst k.
  apply H, JsFacts.precedes_neq in Hin.
  rewrite String.eqb_refl in Hin. discriminate.
Qed.

Lemma insert_prop_last (key : string) (v : value)
    (done : list (string * value)) :
  (forall k, In k (keys done) -> Js.precedes k key = true) ->
  insert_prop key v done = done ++ [(key, v)].
Proof.
  induction done as [|[k x] done IH]; intros H; simpl; auto.
  rewrite (JsFacts.precedes_not_goes_before k key) by (apply H; left; auto).
  rewrite IH; auto. intros k' Hin. apply H. right. exact Hin.
Qed.

Lemma set_prop_last (key : string) (v : value)
    (done : list (string * value)) :
  String.eqb key "__proto__" = false ->
  (forall k, In k (keys done) -> Js.precedes k key = true) ->
  set_prop done key v = done ++ [(key, v)].
Proof.
  intros Hp H. unfold set_prop.
  rewrite Hp, has_own_false by exact H. apply insert_prop_last, H.
Qed.

(** Assigning the properties of a parsed object, in their order, to
    an empty object lists them in that same order, provided none is
    named [__proto__]. *)
Lemma assigned_in_order (props done : list (string * value)) :
  Js.property_order (keys done ++ keys props) = true ->
  has_own "__proto__" props = false ->
  assigned props done
  = done ++ map (fun kv => (fst kv, child (snd kv))) props.
Proof.
  revert done. induction props as [|[key v] rest IH]; intros done Ho Hp.
  - simpl. rewrite app_nil_r. reflexivity.
  - unfold assigned. cbn [fold_left fst snd].
    unfold has_own in Hp. cbn [keys map fst existsb] in Hp.
    apply orb_false_iff in Hp as [Hkey Hrest].
    rewrite String.eqb_sym in Hkey.
    destruct (JsFacts.property_order_app _ _ Ho) as (_ & _ & Hbefore).
    rewrite (set_prop_last key (child v) done Hkey)
      by (intros k Hin; apply Hbefore; [exact Hin | left; reflexivity]).
    fold (assigned rest (done ++ [(key, child v)])).
    rewrite IH.
    + rewrite <- app_assoc. reflexivity.
    + unfold keys in *. rewrite map_app, <- app_assoc. exact Ho.
    + exact Hrest.
Qed.


Lemma keys_preserved (props : list (string * value)) :
  Js.property_order (keys props) = true ->
  has_own "__proto__" props = false ->
  own_keys (data (updateObjectReferences (VObj props))) = keys props.
Proof.
  intros Ho Hp.
  rewrite updateObjectReferences_object
    by (apply Forall_forall; intros; apply nested_ok_all).
  cbn [data own_keys]. rewrite (assigned_in_order props []) by assumption.
  cbn [app]. unfold keys. rewrite map_map. reflexivity.
Qed.

(** *** The rewritten document *)

Lemma forallb_flat_map {A B : Type} (p : B -> bool) (f : A -> list B)
    (l : list A) :
  forallb p (flat_map f l) = forallb (fun x => forallb p (f x)) l.
Proof.
  induction l as [|x l IH]; simpl; auto.
  rewrite forallb_app, IH. reflexivity.
Qed.

Lemma child_rewrite_all (v : value) :
  well_formed v = true ->
  key_free "__proto__" v = true ->
  forallb suffix_only (strings v) = true ->
  child v = rewrite_all v.
Proof.
  induction v as [| b | x | s | items IH | props IH] using value_ind;
    intros Hwf Hkf Hs; try reflexivity.
  - cbn [strings forallb] in Hs. rewrite andb_true_r in Hs.
    cbn [child rewrite_all]. unfold rewrite_string.
    destruct (Js.endsWith s ".mp3") eqn:He; auto.
    rewrite JsFacts.replace_suffix_only by assumption. reflexivity.
  - cbn [child].
    rewrite updateObjectReferences_array
      by (apply Forall_forall; intros; apply nested_ok_all).
    cbn [data rewrite_all]. f_equal. apply map_ext_in. intros item Hin.
    cbn [well_formed key_free strings] in Hwf, Hkf, Hs.
    rewrite forallb_flat_map in Hs.
    rewrite forallb_forall in Hwf, Hkf, Hs.
    rewrite Forall_forall in IH. apply IH; auto.
  - cbn [child].
    rewrite updateObjectReferences_object
      by (apply Forall_forall; intros; apply nested_ok_all).
    cbn [well_formed key_free strings] in Hwf, Hkf, Hs.
    apply andb_true_iff in Hwf as [Ho Hwf].
    apply andb_true_iff in Hkf as [Hp Hkf].
    apply negb_true_iff in Hp.
    rewrite forallb_flat_map in Hs.
    rewrite forallb_forall in Hwf, Hkf, Hs.
    cbn [data rewrite_all]. rewrite (assigned_in_order props []) by assumption.
    cbn [app]. f_equal. apply map_ext_in. intros kv Hin. f_equal.
    rewrite Forall_forall in IH. apply IH; auto.
Qed.

(** C1, as the method has it.  For every parsed document without a
    [__proto__] key in which a string that ends in [.mp3] has no
    earlier [.mp3], the method returns the document with every string
    that sits inside an array or an object and ends in [.mp3] changed
    to the same string minus that suffix plus [.ogg], and every other
    value as it was; a document that is a bare scalar is returned as
    it is. *)
Theorem updateObjectReferences_rewrites_contained (v : value) :
  well_formed v = true ->
  key_free "__proto__" v = true ->
  forallb suffix_only (contained_strings v) = true ->
  data (updateObjectReferences v) = rewrite_contained v.
Proof.
  intros Hwf Hkf Hs. unfold rewrite_contained, contained_strings in *.
  destruct (is_container v) eqn:Hc.
  - rewrite <- (child_rewrite_all v Hwf Hkf Hs).
    destruct v; try discriminate; reflexivity.
  - destruct v; try discriminate; reflexivity.
Qed.


Lemma updateObjectReferences_rewrites_contained_witness :
  well_formed scenario = true
  /\ key_free "__proto__" scenario = true
  /\ forallb suffix_only (contained_strings scenario) = true
  /\ data (updateObjectReferences scenario) = rewrite_contained scenario.
Proof.
  split; [reflexivity|]. split; [reflexivity|]. split; [reflexivity|].
  apply updateObjectReferences_rewrites_contained; reflexivity.
Defined.

(** C1, as the specification has it, fails on a document that is one
    string: the string is a scalar string leaf that ends in [.mp3],
    and the method returns it as it is. *)
Lemma root_string_is_not_rewritten :
  data (updateObjectReferences (VStr "intro.mp3")) = VStr "intro.mp3"
  /\ rewrite_all (VStr "intro.mp3") = VStr "intro.ogg"
  /\ data (updateObjectReferences (VStr "intro.mp3"))
     <> rewrite_all (VStr "intro.mp3").
Proof. repeat split. discriminate. Qed.

(** C2 at the array [["a.mp3.mp3"]]: the first run replaces the first
    [.mp3] and leaves the suffix, so a second run changes the document
    again. *)
Theorem second_run_changes_again :
  let once := data (updateObjectReferences (VArr [VStr "a.mp3.mp3"])) in
  once = VArr [VStr "a.ogg.mp3"]
  /\ updateObjectReferences once
     = mkResult (VArr [VStr "a.ogg.ogg"]) true 1.
Proof. split; reflexivity. Qed.

(** C5 at the parsed document
    [{"sound": "intro.mp3", "__proto__": "v"}]: its keys are in
    property order, the method reports a change, and the object it
    returns has lost the key [__proto__]. *)
Theorem proto_key_is_lost :
  let doc := VObj [("sound", VStr "intro.mp3"); ("__proto__", VStr "v")] in
  well_formed doc = true
  /\ hasChanges (updateObjectReferences doc) = true
  /\ own_keys doc = ["sound"; "__proto__"]
  /\ own_keys (data (updateObjectReferences doc)) = ["sound"].
Proof. repeat split. Qed.

End RewriterFacts.

(** ** The updater *)
Module UpdaterFacts.
Import Json Rewriter RewriterSpec Fs Proc Updater UpdaterSample.

Section Facts.
Context {json : JSON}.

Lemma load_is_file (filePath : path) (fs : node) (doc : value) :
  load filePath fs = inr doc ->
  exists content, lookup filePath fs = Some (File content).
Proof.
  unfold load, readFileSync.
  destruct (lookup filePath fs) as [[content | entries] |];
    try discriminate.
  intros _. exists content. reflexivity.
Qed.

Lemma write_after_load (filePath : path) (fs : node) (doc : value)
    (text : string) :
  load filePath fs = inr doc ->
  writeFileSync filePath text fs = inr (graft filePath (File text) fs).
Proof.
  intros H. destruct (load_is_file _ _ _ H) as [content Hc].
  unfold writeFileSync. rewrite Hc. reflexivity.
Qed.

(** C3.  For a file that is read and parsed, [updateJsonFile] writes
    the rewritten document to the file, adds the count to the
    statistics and returns [true] when at least one reference value was
    changed; when none was, it returns [false] and leaves the disk, the
    statistics and the error stream as they were. *)
Theorem updateJsonFile_writes_iff_changed (filePath : path)
    (s : process counters) (doc : value) :
  load filePath (disk s) = inr doc ->
  updateJsonFile filePath s
  = let r := updateObjectReferences doc in
    if (1 <=? changeCount r)%nat
    then Done true
           (mkProcess
              (graft filePath (File (JSON_stringify (data r))) (disk s))
              (mkCounters (jsonFilesUpdated (stats s))
                          (audioReferencesUpdated (stats s) + changeCount r))
              (stderr s))
    else Done false s.
Proof.
  intros Hload. cbv zeta.
  pose proof (RewriterFacts.flag_ok_all doc) as Hflag.
  unfold RewriterAux.flag_ok in Hflag.
  unfold updateJsonFile, try_catch, bind, reading. rewrite Hload.
  rewrite Hflag.
  destruct (changeCount (updateObjectReferences doc)) as [|n] eqn:Hn.
  - reflexivity.
  - cbn [Nat.ltb Nat.leb]. unfold writing.
    rewrite (write_after_load _ _ _ _ Hload). reflexivity.
Qed.


(** C9.  A document that is a bare scalar, also a string that ends in
    [.mp3], is returned as it is with no change counted, and the file
    that holds it is not written. *)
Theorem root_scalar_is_kept (filePath : path) (s : process counters)
    (doc : value) :
  is_container doc = false ->
  updateObjectReferences doc = mkResult doc false 0
  /\ (load filePath (disk s) = inr doc ->
      updateJsonFile filePath s = Done false s).
Proof.
  intros Hc.
  assert (H : updateObjectReferences doc = mkResult doc false 0)
    by (destruct doc; try discriminate; reflexivity).
  split; [exact H|].
  intros Hload.
  unfold updateJsonFile, try_catch, bind, reading. rewrite Hload, H.
  reflexivity.
Qed.

End Facts.

Lemma updateJsonFile_writes_iff_changed_witness :
  @load sample_json (join en "page.json") (disk sample_start)
  = inr (VObj [("sound", VStr "intro.mp3")])
  /\ @updateJsonFile sample_json (join en "page.json") sample_start
     = Done true
         (mkProcess
            (graft (join en "page.json") (File (sound_text "intro.ogg"))
               sample_disk)
            (mkCounters 0 1) []).
Proof.
  split; [reflexivity|].
  rewrite (@updateJsonFile_writes_iff_changed sample_json
             (join en "page.json") sample_start
             (VObj [("sound", VStr "intro.mp3")]));
    reflexivity.
Defined.


Lemma root_scalar_is_kept_witness :
  is_container (VStr "intro.mp3") = false
  /\ updateObjectReferences (VStr "intro.mp3")
     = mkResult (VStr "intro.mp3") false 0
  /\ @updateJsonFile sample_json (join en "title.json") sample_start
     = Done false sample_start.
Proof.
  split; [reflexivity|].
  destruct (@root_scalar_is_kept sample_json (join en "title.json")
              sample_start (VStr "intro.mp3") eq_refl) as [H1 H2].
  split; [exact H1 | apply H2; reflexivity].
Defined.

End UpdaterFacts.

(** ** The file system *)
Module FsFacts.
Import Fs FsAux.
Local Open Scope list_scope.

Lemma find_alter_same (name : string) (f : option node -> node)
    (es : list (string * node)) :
  find name (alter name f es) = Some (f (find name es)).
Proof.
  induction es as [|[k x] es IH]; simpl.
  - rewrite String.eqb_refl. reflexivity.
  - destruct (String.eqb k name) eqn:E; simpl; rewrite E; auto.
Qed.

Lemma find_alter_other (name k : string) (f : option node -> node)
    (es : list (string * node)) :
  String.eqb name k = false ->
  find k (alter name f es) = find k es.
Proof.
  intros Hne. induction es as [|[k' x] es IH]; simpl.
  - rewrite Hne. reflexivity.
  - destruct (String.eqb k' name) eqn:E; simpl.
    + apply String.eqb_eq in E. subst k'. rewrite Hne. reflexivity.
    + destruct (String.eqb k' k); auto.
Qed.

Lemma alter_alter (name : string) (f g : option node -> node)
    (es : list (string * node)) :
  alter name g (alter name f es) = alter name (fun old => g (Some (f old))) es.
Proof.
  induction es as [|[k x] es IH]; simpl.
  - rewrite String.eqb_refl. reflexivity.
  - destruct (String.eqb k name) eqn:E; simpl; rewrite E; congruence.
Qed.

Lemma alter_ext (name : string) (f g : option node -> node)
    (es : list (string * node)) :
  (forall old, f old = g old) -> alter name f es = alter name g es.
Proof.
  intros H. induction es as [|[k x] es IH]; simpl.
  - rewrite H. reflexivity.
  - destruct (String.eqb k name); rewrite ?H, ?IH; reflexivity.
Qed.

Lemma alter_absent (name : string) (f : option node -> node)
    (es : list (string * node)) :
  find name es = None -> alter name f es = es ++ [(name, f None)].
Proof.
  induction es as [|[k x] es IH]; simpl; auto.
  destruct (String.eqb k name); [discriminate|].
  intros H. rewrite IH; auto.
Qed.

Lemma lookup_app (p q : path) (n : node) :
  lookup (p ++ q) n
  = match lookup p n with
    | Some m => lookup q m
    | None => None
    end.
Proof.
  revert n. induction p as [|name p IH]; intros n; simpl; auto.
  destruct n as [c | es]; auto.
  destruct (find name es); auto.
Qed.

(** Grafting below a graft is grafting into what was grafted. *)
Lemma graft_graft (p q : path) (n m fs : node) :
  graft (p ++ q) n (graft p m fs) = graft p (graft q n m) fs.
Proof.
  revert fs. induction p as [|name p IH]; intros fs; simpl; auto.
  destruct fs as [c | es]; simpl; auto.
  rewrite alter_alter. f_equal. apply alter_ext. intros old. apply IH.
Qed.

Lemma graft_child (name : string) (n : node) (es : list (string * node)) :
  find name es = None ->
  graft [name] n (Dir es) = Dir (es ++ [(name, n)]).
Proof. intros H. simpl. rewrite alter_absent by exact H. reflexivity. Qed.

Lemma apart_nonempty (p q : path) : apart p q = true -> q <> [].
Proof. destruct p, q; simpl; congruence. Qed.

Lemma apart_sym (p q : path) : apart p q = apart q p.
Proof.
  revert q. induction p as [|a p IH]; intros [|b q]; simpl; auto.
  rewrite (String.eqb_sym a b). destruct (String.eqb b a); auto.
Qed.

Lemma apart_app (p q r1 r2 : path) :
  apart p q = true -> apart (p ++ r1) (q ++ r2) = true.
Proof.
  revert q. induction p as [|a p IH]; intros [|b q]; simpl; try discriminate.
  destruct (String.eqb a b); auto.
Qed.

Lemma apart_siblings (dir : path) (a b : string) :
  String.eqb a b = false -> apart (dir ++ [a]) (dir ++ [b]) = true.
Proof.
  intros H. induction dir as [|d dir IH]; simpl.
  - rewrite H. reflexivity.
  - rewrite String.eqb_refl. exact IH.
Qed.

(** A graft leaves alone what lies apart from it. *)
Lemma lookup_graft_apart (p q : path) (n fs : node) :
  apart p q = true -> lookup q (graft p n fs) = lookup q fs.
Proof.
  revert q fs. induction p as [|a p IH]; intros [|b q] fs H;
    simpl in H; try discriminate.
  destruct fs as [c | es]; [reflexivity|]. simpl.
  destruct (String.eqb a b) eqn:E.
  - apply String.eqb_eq in E. subst b. rewrite find_alter_same.
    destruct (find a es) as [x|].
    + apply IH. exact H.
    + rewrite IH by exact H.
      destruct q as [|b q]; [destruct (apart_nonempty _ _ H); reflexivity|].
      reflexivity.
  - rewrite find_alter_other by exact E. reflexivity.
Qed.

Lemma lookup_graft_same (p : path) (n fs : node) :
  open_way p fs = true -> lookup p (graft p n fs) = Some n.
Proof.
  revert fs. induction p as [|a p IH]; intros fs H; simpl; auto.
  destruct fs as [c | es]; [discriminate|]. simpl in *.
  rewrite find_alter_same.
  destruct (find a es) as [x|]; apply IH; auto.
  destruct p; reflexivity.
Qed.

Lemma lookup_graft_below (p q : path) (n fs : node) :
  open_way p fs = true -> lookup (p ++ q) (graft p n fs) = lookup q n.
Proof.
  intros H. rewrite lookup_app, lookup_graft_same by exact H. reflexivity.
Qed.

Lemma open_way_lookup (p : path) (fs x : node) :
  lookup p fs = Some x -> open_way p fs = true.
Proof.
  revert fs. induction p as [|a p IH]; intros fs H; simpl in *; auto.
  destruct fs as [c | es]; [discriminate|].
  destruct (find a es) as [y|]; [eauto | discriminate].
Qed.

Lemma open_way_creatable (p : path) (fs : node) :
  creatable p fs = true -> open_way p fs = true.
Proof.
  revert fs. induction p as [|a p IH]; intros fs H; simpl; auto.
  destruct fs as [c | es]; [discriminate|]. simpl in H.
  destruct (find a es) as [y|]; auto.
Qed.

Lemma open_way_child (dir : path) (name : string) (fs : node)
    (es : list (string * node)) :
  lookup dir fs = Some (Dir es) -> open_way (dir ++ [name]) fs = true.
Proof.
  revert fs. induction dir as [|a dir IH]; intros fs H; simpl in *.
  - inversion H. subst fs. destruct (find name es); reflexivity.
  - destruct fs as [c | es']; [discriminate|].
    destruct (find a es') as [y|]; [eauto | discriminate].
Qed.

Lemma creatable_child (dir : path) (name : string) (fs : node)
    (es : list (string * node)) :
  lookup dir fs = Some (Dir es) -> find name es = None ->
  creatable (dir ++ [name]) fs = true.
Proof.
  revert fs. induction dir as [|a dir IH]; intros fs H Hn; simpl in *.
  - inversion H. subst fs. simpl. rewrite Hn. reflexivity.
  - destruct fs as [c | es']; [discriminate|]. simpl.
    destruct (find a es') as [y|]; [eauto | discriminate].
Qed.

Lemma removelast_join (dir : path) (name : string) :
  removelast (dir ++ [name]) = dir.
Proof. apply removelast_last. Qed.

Lemma find_app_absent (name : string) (es1 es2 : list (string * node)) :
  find name es1 = None -> find name (es1 ++ es2) = find name es2.
Proof.
  induction es1 as [|[k x] es1 IH]; simpl; auto.
  destruct (String.eqb k name); [discriminate | auto].
Qed.

Lemma find_absent (name : string) (es : list (string * node)) :
  existsb (String.eqb name) (map fst es) = false -> find name es = None.
Proof.
  induction es as [|[k x] es IH]; simpl; auto.
  intros H. apply orb_false_iff in H as [H1 H2].
  rewrite String.eqb_sym, H1. auto.
Qed.

Lemma find_present (name : string) (es : list (string * node)) (x : node) :
  find name es = Some x -> existsb (String.eqb name) (map fst es) = true.
Proof.
  induction es as [|[k y] es IH]; simpl; [discriminate|].
  rewrite (String.eqb_sym name k).
  destruct (String.eqb k name); simpl; auto.
Qed.

End FsFacts.

(** ** The backup *)
Module BackupFacts.
Import Fs FsAux FsFacts Proc ChildProcess Compressor.
Local Open Scope list_scope.

Lemma with_disk_with_disk {S : Type} (s : process S) (a b : node) :
  with_disk (with_disk s a) b = with_disk s b.
Proof. reflexivity. Qed.

Lemma with_disk_same {S : Type} (s : process S) : with_disk s (disk s) = s.
Proof. destruct s; reflexivity. Qed.

Lemma distinct_app_absent (l1 l2 : list string) (k : string) :
  distinct (l1 ++ k :: l2) = true -> existsb (String.eqb k) l1 = false.
Proof.
  induction l1 as [|a l1 IH]; simpl; auto.
  intros H. apply andb_true_iff in H as [Ha Hrest].
  apply negb_true_iff in Ha. rewrite existsb_app in Ha.
  apply orb_false_iff in Ha as [_ Ha]. simpl in Ha.
  apply orb_false_iff in Ha as [Ha _].
  rewrite String.eqb_sym, Ha. simpl. auto.
Qed.

Lemma height_entry (es : list (string * node)) (k : string) (x : node)
    (bound : nat) :
  height (Dir es) <= S bound -> In (k, x) es -> height x <= bound.
Proof.
  simpl. intros H Hin. apply le_S_n in H.
  apply list_max_le in H. rewrite Forall_forall in H.
  apply H. apply in_map_iff. exists (k, x). split; auto.
Qed.

Section Copy.
Variables (fuel : nat) (src dest : path) (es : list (string * node)).
Variable fs0 : node.

(** What the recursive call does, one level down. *)
Hypothesis deeper :
  forall (src' dest' : path) (es' : list (string * node)) (s : process statistics),
    well_formed (Dir es') = true ->
    lookup src' (disk s) = Some (Dir es') ->
    lookup dest' (disk s) = None ->
    creatable dest' (disk s) = true ->
    apart src' dest' = true ->
    height (Dir es') <= fuel ->
    copyDirectory fuel src' dest' s
    = Done tt (with_disk s (graft dest' (Dir es') (disk s))).

Hypothesis src_dir : lookup src fs0 = Some (Dir es).
Hypothesis dest_open : open_way dest fs0 = true.
Hypothesis src_dest_apart : apart src dest = true.
Hypothesis src_wf : well_formed (Dir es) = true.
Hypothesis src_height : height (Dir es) <= S fuel.

Lemma copy_loop (es2 es1 : list (string * node)) (s : process statistics) :
  es = es1 ++ es2 ->
  for_each (map fst es2) (copyItem (copyDirectory fuel) src dest)
    (with_disk s (graft dest (Dir es1) fs0))
  = Done tt (with_disk s (graft dest (Dir es) fs0)).
Proof.
  revert es1. induction es2 as [|[k x] es2 IH]; intros es1 Hsplit.
  - rewrite app_nil_r in Hsplit. subst es1. reflexivity.
  - set (cur := graft dest (Dir es1) fs0).
    assert (Hnames : distinct (map fst es1 ++ k :: map fst es2) = true).
    { simpl in src_wf. apply andb_true_iff in src_wf as [Hd _].
      rewrite Hsplit, map_app in Hd. exact Hd. }
    assert (Hk1 : find k es1 = None)
      by (apply find_absent, (distinct_app_absent _ _ _ Hnames)).
    assert (Hin : In (k, x) es)
      by (rewrite Hsplit; apply in_or_app; right; left; reflexivity).
    assert (Hsrc_k : lookup (join src k) cur = Some x).
    { unfold cur, join. rewrite lookup_graft_apart.
      - rewrite lookup_app, src_dir. simpl.
        rewrite Hsplit, find_app_absent by exact Hk1.
        simpl. rewrite String.eqb_refl. reflexivity.
      - rewrite apart_sym. rewrite <- (app_nil_r dest).
        apply apart_app. exact src_dest_apart. }
    assert (Hdest : lookup dest cur = Some (Dir es1))
      by (apply lookup_graft_same; exact dest_open).
    assert (Hdest_k : lookup (join dest k) cur = None).
    { unfold cur, join. rewrite lookup_graft_below by exact dest_open.
      simpl. rewrite Hk1. reflexivity. }
    assert (Hnext : forall n,
               graft (join dest k) n cur = graft dest (Dir (es1 ++ [(k, n)])) fs0).
    { intros n. unfold cur, join. rewrite graft_graft, graft_child by exact Hk1.
      reflexivity. }
    cbn [map fst for_each]. unfold bind at 1. unfold copyItem at 1.
    unfold bind at 1. unfold reading at 1, statSync.
    cbn [disk with_disk]. fold cur. rewrite Hsrc_k.
    destruct x as [content | ex]; cbn [isDirectory].
    + unfold writing, copyFileSync, writeFileSync. cbn [disk with_disk].
      rewrite Hsrc_k, Hdest_k. unfold join at 1.
      rewrite removelast_join, Hdest, Hnext.
      change (mkProcess ?d (stats (mkProcess cur (stats s) (stderr s)))
                        (stderr (mkProcess cur (stats s) (stderr s))))
        with (with_disk s d).
      apply IH. rewrite <- app_assoc. exact Hsplit.
    + rewrite (deeper (join src k) (join dest k) ex).
      * cbn [disk with_disk]. fold cur. rewrite Hnext.
        apply IH. rewrite <- app_assoc. exact Hsplit.
      * simpl in src_wf. apply andb_true_iff in src_wf as [_ Hall].
        rewrite forallb_forall in Hall. apply (Hall (k, Dir ex)). exact Hin.
      * exact Hsrc_k.
      * exact Hdest_k.
      * apply (creatable_child dest k cur es1); assumption.
      * apply apart_app. exact src_dest_apart.
      * apply (height_entry es k); assumption.
Qed.

End Copy.

(** [copyDirectory] puts the source directory, as it is, at a
    destination that does not exist yet. *)
Lemma copyDirectory_grafts (fuel : nat) :
  forall (src dest : path) (es : list (string * node))
         (s : process statistics),
    well_formed (Dir es) = true ->
    lookup src (disk s) = Some (Dir es) ->
    lookup dest (disk s) = None ->
    creatable dest (disk s) = true ->
    apart src dest = true ->
    height (Dir es) <= fuel ->
    copyDirectory fuel src dest s
    = Done tt (with_disk s (graft dest (Dir es) (disk s))).
Proof.
  induction fuel as [|fuel IH]; intros src dest es s Hwf Hsrc Hdest Hc Ha Hh.
  - simpl in Hh. lia.
  - cbn [copyDirectory]. unfold bind at 1. unfold exists_ at 1, existsSync.
    rewrite Hdest. unfold bind at 1. unfold writing at 1, mkdirSync.
    rewrite Hc, Hdest. fold (with_disk s (graft dest (Dir []) (disk s))).
    unfold bind at 1. unfold reading at 1, readdirSync. cbn [disk with_disk].
    rewrite lookup_graft_apart by (rewrite apart_sym; exact Ha).
    rewrite Hsrc.
    apply (copy_loop fuel src dest es (disk s) IH Hsrc
             (open_way_creatable _ _ Hc) Ha Hwf Hh es [] s eq_refl).
Qed.

Lemma lookup_parent (dir : path) (name : string) (fs x : node) :
  lookup (dir ++ [name]) fs = Some x ->
  exists es, lookup dir fs = Some (Dir es) /\ find name es = Some x.
Proof.
  rewrite lookup_app. destruct (lookup dir fs) as [[c | es] |];
    simpl; try discriminate.
  destruct (find name es) as [y|] eqn:E; [|discriminate].
  intros H. exists es. split; congruence.
Qed.

Section Siblings.
Variables (dir : path) (base backup : string).
Hypothesis different : String.eqb base backup = false.

Lemma createBackup_backs_up (fuel : nat) (s : process statistics)
    (es : list (string * node)) :
  well_formed (Dir es) = true ->
  lookup (join dir base) (disk s) = Some (Dir es) ->
  height (Dir es) <= fuel ->
  BackupSpec.backs_up (join dir base) (join dir backup)
    (createBackup (join dir base) (join dir backup)) fuel s es.
Proof.
  intros Hwf Hbase Hh. unfold BackupSpec.backs_up.
  destruct (lookup_parent _ _ _ _ Hbase) as (esd & Hdir & Hfind).
  assert (Hopen : open_way (join dir backup) (disk s) = true)
    by (apply (open_way_child dir backup (disk s) esd); exact Hdir).
  assert (Hapart : apart (join dir base) (join dir backup) = true)
    by (apply apart_siblings; exact different).
  unfold existsSync.
  destruct (lookup (join dir backup) (disk s)) as [x|] eqn:Hb.
  - assert (Hskip : createBackup (join dir base) (join dir backup) fuel s
                    = Done tt s).
    { unfold createBackup, bind, exists_, existsSync. rewrite Hb.
      reflexivity. }
    rewrite with_disk_same.
    split; [exact Hskip|]. split; [reflexivity|].
    split; [discriminate|]. split; [exact Hbase | exact Hskip].
  - assert (Hcopy : createBackup (join dir base) (join dir backup) fuel s
                    = Done tt (with_disk s
                                 (graft (join dir backup) (Dir es) (disk s)))).
    { unfold createBackup, bind, exists_, existsSync. rewrite Hb.
      apply copyDirectory_grafts; auto.
      unfold join in Hb. rewrite lookup_app, Hdir in Hb. simpl in Hb.
      apply (creatable_child dir backup (disk s) esd Hdir).
      destruct (find backup esd); [discriminate | reflexivity]. }
    split; [exact Hcopy|]. split; [discriminate|].
    split; [intros _; rewrite Hbase; apply lookup_graft_same; exact Hopen|].
    split.
    + rewrite lookup_graft_apart by (rewrite apart_sym; exact Hapart).
      exact Hbase.
    + unfold createBackup, bind, exists_, existsSync. cbn [disk with_disk].
      rewrite lookup_graft_same by exact Hopen. reflexivity.
Qed.

End Siblings.

(** C8.  In both classes [compressAllFiles] starts with
    [createBackup], and from a disk that holds the source directory
    [createBackup] ends well: when the backup directory exists it
    leaves the state as it is; otherwise it leaves a copy of the whole
    source directory at the backup directory, with the source in
    place; a second run after it changes nothing. *)
Theorem createBackup_copies_or_skips `{Ffmpeg} (fuel : nat)
    (s : process statistics) (es : list (string * node)) :
  well_formed (Dir es) = true ->
  lookup ["PNLD"; "content"; "i18n"] (disk s) = Some (Dir es) ->
  height (Dir es) <= fuel ->
  BackupSpec.backs_up OggCompressor.baseDir OggCompressor.backupDir
    OggCompressor.createBackup fuel s es
  /\ BackupSpec.backs_up Mp3Compressor.baseDir Mp3Compressor.backupDir
       Mp3Compressor.createBackup fuel s es
  /\ OggCompressor.compressAllFiles fuel
     = bind (OggCompressor.createBackup fuel)
            (fun _ => OggCompressor.compressLanguages)
  /\ Mp3Compressor.compressAllFiles fuel
     = bind (Mp3Compressor.createBackup fuel)
            (fun _ => Mp3Compressor.compressLanguages).
Proof.
  intros Hwf Hbase Hh.
  split; [|split; [|split; reflexivity]].
  - apply (createBackup_backs_up ["PNLD"; "content"] "i18n" "i18n-backup");
      auto.
  - apply (createBackup_backs_up ["PNLD"; "content"] "i18n" "i18n-backup-mp3");
      auto.
Qed.

Lemma createBackup_copies_or_skips_witness :
  well_formed (Dir BackupSpec.sample_content) = true
  /\ lookup ["PNLD"; "content"; "i18n"] (disk BackupSpec.sample_start)
     = Some (Dir BackupSpec.sample_content)
  /\ height (Dir BackupSpec.sample_content) <= 3
  /\ OggCompressor.createBackup 3 BackupSpec.sample_start
     = Done tt
         (with_disk BackupSpec.sample_start
            (graft OggCompressor.backupDir (Dir BackupSpec.sample_content)
               BackupSpec.sample_disk)).
Proof.
  split; [reflexivity|]. split; [reflexivity|].
  split; [vm_compute; lia|].
  apply (@createBackup_copies_or_skips
           {| version := Closed (Some 0%Z) ""; encode := fun _ b => Encoded b |}
           3 BackupSpec.sample_start BackupSpec.sample_content);
    [reflexivity | reflexivity | vm_compute; lia].
Defined.

End BackupFacts.

(** ** A conversion that fails *)
Module FailureFacts.
Import Fs Proc ChildProcess Compressor FailureSample.

(** C4 at a run of [compress-audio.js] in which the encoder exits with
    code 1 on [intro.mp3] after it wrote a part of [intro.ogg]: one
    error entry for [intro.mp3] is recorded and [next.mp3] is converted
    after it, but the part of [intro.ogg] is still on the disk.  The
    same encoder under [compress-audio-mp3.js] leaves no output file
    for [intro.mp3]. *)
Theorem ogg_failure_leaves_output :
  @OggCompressor.compressLanguageFiles failing_ffmpeg "en" (start ogg_disk)
  = Done tt
      (mkProcess
         (tree [("i18n",
                 Dir [("en",
                       Dir [("audio",
                             Dir [("intro.mp3", File "RIFF-intro");
                                  ("intro.ogg", File "Ogg");
                                  ("next.ogg", File "Ogg:RIFF-next")])])])])
         (mkStatistics 0 1 0 13 [("intro.mp3", message)]) [])
  /\ @Mp3Compressor.compressLanguageFiles failing_ffmpeg "en" (start mp3_disk)
     = Done tt
         (mkProcess
            (tree [("i18n",
                    Dir [("en",
                          Dir [("audio",
                                Dir [("next.mp3", File "Ogg:RIFF-next")])])]);
                   ("i18n-backup-mp3",
                    Dir [("en", Dir [("audio", Dir audio)])])])
            (mkStatistics 0 1 0 13 [("intro.mp3", message)]) []).
Proof. split; vm_compute; reflexivity. Qed.

End FailureFacts.

(** ** The shape of the disk after a write *)
Module DiskFacts.
Import Fs FsAux FsFacts.
Local Open Scope list_scope.

Lemma alter_same_value (name : string) (x : node)
    (es : list (string * node)) :
  find name es = Some x -> alter name (fun _ => x) es = es.
Proof.
  induction es as [|[k y] es IH]; simpl; [discriminate|].
  destruct (String.eqb k name) eqn:E.
  - intros H. inversion H. reflexivity.
  - intros H. rewrite IH by exact H. reflexivity.
Qed.

Lemma graft_lookup_id (p : path) (fs m : node) :
  lookup p fs = Some m -> graft p m fs = fs.
Proof.
  revert fs. induction p as [|a p IH]; intros fs H; simpl in *.
  - congruence.
  - destruct fs as [c | es]; [reflexivity|].
    destruct (find a es) as [x|] eqn:E; [|discriminate].
    f_equal. rewrite <- (alter_same_value a x es E) at 2.
    induction es as [|[k y] es IHes]; simpl in *; [discriminate|].
    destruct (String.eqb k a).
    + inversion E. subst y. rewrite (IH x H). reflexivity.
    + rewrite IHes by exact E. rewrite (alter_same_value a x es E).
      reflexivity.
Qed.

Lemma graft_into_dir (dir : path) (name : string) (n fs : node)
    (es : list (string * node)) :
  lookup dir fs = Some (Dir es) ->
  graft (dir ++ [name]) n fs
  = graft dir (Dir (alter name (fun _ => n) es)) fs.
Proof.
  intros H.
  transitivity (graft (dir ++ [name]) n (graft dir (Dir es) fs)).
  - rewrite (graft_lookup_id dir fs (Dir es) H). reflexivity.
  - rewrite graft_graft. reflexivity.
Qed.

Lemma change_as_alter (a : string) (f : node -> node)
    (es : list (string * node)) (x : node) :
  find a es = Some x ->
  change a f es = alter a (fun _ => f x) es.
Proof.
  induction es as [|[k y] es IH]; simpl; [discriminate|].
  destruct (String.eqb k a).
  - intros H. inversion H. reflexivity.
  - intros H. rewrite IH by exact H. reflexivity.
Qed.

Lemma prune_in_dir (dir : path) (name : string) (fs : node)
    (es : list (string * node)) :
  lookup dir fs = Some (Dir es) ->
  prune (dir ++ [name]) fs = graft dir (Dir (remove name es)) fs.
Proof.
  revert fs. induction dir as [|a dir IH]; intros fs H; simpl in *.
  - inversion H. reflexivity.
  - destruct fs as [c | es']; [discriminate|].
    destruct (find a es') as [x|] eqn:E; [|discriminate].
    pose proof (IH x H) as IHx.
    destruct (dir ++ [name]) as [|b rest] eqn:Ed;
      [destruct dir; discriminate|].
    f_equal. rewrite (change_as_alter a _ es' x E), IHx.
    clear -E. induction es' as [|[k y] es' IHes]; simpl in *; [discriminate|].
    destruct (String.eqb k a).
    + inversion E. reflexivity.
    + rewrite IHes by exact E. reflexivity.
Qed.

Lemma write_shape (dir : path) (name content : string) (fs fs' : node) :
  writeFileSync (dir ++ [name]) content fs = inr fs' ->
  exists es,
    lookup dir fs = Some (Dir es)
    /\ fs' = graft dir (Dir (alter name (fun _ => File content) es)) fs.
Proof.
  unfold writeFileSync.
  destruct (lookup (dir ++ [name]) fs) as [[c | es0] |] eqn:E;
    try discriminate.
  - intros H. inversion H.
    destruct (BackupFacts.lookup_parent dir name fs _ E) as (es & Hdir & _).
    exists es. split; [exact Hdir | apply graft_into_dir; exact Hdir].
  - rewrite removelast_join.
    destruct (lookup dir fs) as [[c | es] |] eqn:Hdir; try discriminate.
    intros H. inversion H. exists es.
    split; [reflexivity | apply graft_into_dir; exact Hdir].
Qed.

Lemma unlink_shape (dir : path) (name : string) (fs fs' : node) :
  unlinkSync (dir ++ [name]) fs = inr fs' ->
  exists es,
    lookup dir fs = Some (Dir es)
    /\ fs' = graft dir (Dir (remove name es)) fs.
Proof.
  unfold unlinkSync.
  destruct (lookup (dir ++ [name]) fs) as [[c | es0] |] eqn:E;
    try discriminate.
  intros H. inversion H.
  destruct (BackupFacts.lookup_parent dir name fs _ E) as (es & Hdir & _).
  exists es. split; [exact Hdir | apply prune_in_dir; exact Hdir].
Qed.

Lemma mkdir_shape (p : path) (fs fs' : node) :
  mkdirSync p fs = inr fs' ->
  fs' = fs \/ (open_way p fs = true /\ fs' = graft p (Dir []) fs).
Proof.
  unfold mkdirSync. destruct (creatable p fs) eqn:Hc; [|discriminate].
  destruct (lookup p fs); intros H; inversion H; auto.
  right. split; [apply open_way_creatable; exact Hc | reflexivity].
Qed.

Lemma lookup_in_grafted_dir (dir : path) (name : string) (fs : node)
    (es : list (string * node)) :
  open_way dir fs = true ->
  lookup (dir ++ [name]) (graft dir (Dir es) fs) = find name es.
Proof.
  intros H. rewrite lookup_graft_below by exact H. simpl.
  destruct (find name es); reflexivity.
Qed.

Lemma find_in (name : string) (es : list (string * node)) (x : node) :
  find name es = Some x -> In (name, x) es.
Proof.
  induction es as [|[k y] es IH]; simpl; [discriminate|].
  destruct (String.eqb k name) eqn:E.
  - intros H. inversion H. apply String.eqb_eq in E. subst. left. reflexivity.
  - intros H. right. exact (IH H).
Qed.

Lemma well_formed_lookup (p : path) (fs n : node) :
  well_formed fs = true -> lookup p fs = Some n -> well_formed n = true.
Proof.
  revert fs. induction p as [|a p IH]; intros fs Hwf H; simpl in H.
  - congruence.
  - destruct fs as [c | es]; [discriminate|].
    destruct (find a es) as [x|] eqn:E; [|discriminate].
    apply (IH x); [|exact H].
    simpl in Hwf. apply andb_true_iff in Hwf as [_ Hall].
    rewrite forallb_forall in Hall. apply (Hall (a, x)), find_in, E.
Qed.

Lemma height_lookup (p : path) (fs n : node) :
  lookup p fs = Some n -> height n <= height fs.
Proof.
  revert fs. induction p as [|a p IH]; intros fs H; simpl in H.
  - inversion H. auto.
  - destruct fs as [c | es]; [discriminate|].
    destruct (find a es) as [x|] eqn:E; [|discriminate].
    apply Nat.le_trans with (height x); [exact (IH x H)|].
    simpl. apply Nat.le_trans with (list_max (map (fun kv => height (snd kv)) es));
      [|lia].
    assert (Hall : Forall (fun k => k <= list_max (map (fun kv => height (snd kv)) es))
                     (map (fun kv => height (snd kv)) es))
      by (apply list_max_le; lia).
    rewrite Forall_forall in Hall. apply Hall.
    apply in_map_iff. exists (a, x). split; [reflexivity | apply find_in, E].
Qed.

Lemma apart_below (p q r : path) :
  apart p q = true -> apart p (q ++ r) = true.
Proof.
  intros H. rewrite <- (app_nil_r p). apply apart_app. exact H.
Qed.

End DiskFacts.

(** ** How the pieces of a run end *)
Module RunFacts.
Import Fs FsAux FsFacts DiskFacts Proc ChildProcess Compressor Layout.
Local Open Scope list_scope.

Section Rules.
Context {S : Type}.
Implicit Types P Q R : node -> Prop.

Lemma settles_weaken {A : Type} P P' Q Q' (m : Proc.M S A) :
  settles P m Q ->
  (forall fs, P' fs -> P fs) -> (forall fs, Q fs -> Q' fs) ->
  settles P' m Q'.
Proof.
  intros Hm HP HQ s Hs. specialize (Hm s (HP _ Hs)).
  destruct (m s); auto.
Qed.

Lemma settles_ret {A : Type} P (a : A) : settles P (ret a : Proc.M S A) P.
Proof. intros s Hs. exact Hs. Qed.

Lemma settles_throw {A : Type} P (e : string) :
  settles P (throw e : Proc.M S A) P.
Proof. intros s Hs. exact Hs. Qed.

Lemma settles_bind {A B : Type} P R (m : Proc.M S A) (k : A -> Proc.M S B) :
  settles P m R -> (forall a, settles R (k a) R) ->
  settles P (bind m k) R.
Proof.
  intros Hm Hk s Hs. unfold bind. specialize (Hm s Hs).
  destruct (m s) as [a s' | e s' | c s' | e s' |]; auto.
  exact (Hk a s' Hm).
Qed.

Lemma settles_try_catch {A : Type} P R (body : Proc.M S A)
    (handler : string -> Proc.M S A) :
  settles P body R -> (forall e, settles R (handler e) R) ->
  settles P (try_catch body handler) R.
Proof.
  intros Hb Hh s Hs. unfold try_catch. specialize (Hb s Hs).
  destruct (body s) as [a s' | e s' | c s' | e s' |]; auto.
  exact (Hh e s' Hb).
Qed.

Lemma settles_reading {A : Type} P (call : node -> string + A) :
  settles P (reading call : Proc.M S A) P.
Proof.
  intros s Hs. unfold reading. destruct (call (disk s)); exact Hs.
Qed.

Lemma settles_writing P (call : node -> string + node) :
  (forall fs fs', P fs -> call fs = inr fs' -> P fs') ->
  settles P (writing call : Proc.M S unit) P.
Proof.
  intros H s Hs. unfold writing.
  destruct (call (disk s)) as [e | fs'] eqn:E; [exact Hs|].
  exact (H _ _ Hs E).
Qed.

Lemma settles_exists P (p : path) : settles P (exists_ p : Proc.M S bool) P.
Proof. intros s Hs. exact Hs. Qed.

Lemma settles_update_stats P (f : S -> S) : settles P (update_stats f) P.
Proof. intros s Hs. exact Hs. Qed.

Lemma settles_console_error P (line : string) :
  settles P (console_error line : Proc.M S unit) P.
Proof. intros s Hs. exact Hs. Qed.

Lemma settles_for_each {A : Type} P (body : A -> Proc.M S unit)
    (l : list A) :
  (forall x, settles P (body x) P) -> settles P (for_each l body) P.
Proof.
  intros H. induction l as [|x l IH]; cbn [for_each].
  - apply settles_ret.
  - apply settles_bind; [apply H | intros _; exact IH].
Qed.

Lemma settles_filter_by {A : Type} P (keep : A -> Proc.M S bool)
    (l : list A) :
  (forall x, settles P (keep x) P) -> settles P (filter_by keep l) P.
Proof.
  intros H. induction l as [|x l IH]; cbn [filter_by].
  - apply settles_ret.
  - apply settles_bind; [apply H|]. intros b.
    apply settles_bind; [exact IH|]. intros rest. apply settles_ret.
Qed.

End Rules.

(** *** The methods that only read *)

Lemma settles_languagesOf (P : node -> Prop) (dir : path) :
  settles P (languagesOf dir) P.
Proof.
  unfold languagesOf. apply settles_bind; [apply settles_reading|].
  intros names. apply settles_filter_by. intros name.
  apply settles_bind; [apply settles_reading|]. intros st. apply settles_ret.
Qed.

Lemma settles_mp3FilesOf (P : node -> Prop) (audioDir : path) :
  settles P (mp3FilesOf audioDir) P.
Proof.
  unfold mp3FilesOf. apply settles_bind; [apply settles_reading|].
  intros names. apply settles_ret.
Qed.

Lemma settles_analyzeFiles (P : node -> Prop) (dir : path) :
  settles P (analyzeFiles dir) P.
Proof.
  unfold analyzeFiles. apply settles_bind; [apply settles_languagesOf|].
  intros languages. apply settles_for_each. intros lang.
  apply settles_bind; [apply settles_exists|]. intros [|];
    [|apply settles_ret].
  apply settles_bind; [apply settles_mp3FilesOf|]. intros files.
  apply settles_for_each. intros file.
  apply settles_bind; [apply settles_reading|]. intros st.
  apply settles_update_stats.
Qed.

Lemma settles_compressEach (P : node -> Prop)
    (compressFile : string -> M unit) (mp3Files : list string) :
  (forall file, settles P (compressFile file) P) ->
  settles P (compressEach compressFile mp3Files) P.
Proof.
  intros H. unfold compressEach. apply settles_for_each. intros file.
  apply settles_try_catch.
  - apply settles_bind; [apply H|]. intros _. apply settles_update_stats.
  - intros e. apply settles_update_stats.
Qed.

(** *** The backup *)

Section Siblings.
Variables (dir : path) (base backup : string).
Hypothesis different : String.eqb base backup = false.
Variable P : node -> Prop.
Hypothesis P_graft :
  forall fs n, P fs -> P (graft (join dir backup) n fs).

Lemma settles_createBackup (fuel : nat) :
  settles
    (fun fs => well_formed fs = true /\ height fs < fuel /\ P fs)
    (createBackup (join dir base) (join dir backup) fuel) P.
Proof.
  intros s (Hwf & Hh & HP). unfold createBackup, bind, exists_, existsSync.
  destruct (lookup (join dir backup) (disk s)) as [x|] eqn:Hb; [exact HP|].
  assert (Hapart : apart (join dir backup) (join dir base) = true)
    by (apply apart_siblings; rewrite String.eqb_sym; exact different).
  destruct fuel as [|fuel]; [lia|].
  destruct (creatable (join dir backup) (disk s)) eqn:Hc.
  - destruct (lookup (join dir base) (disk s)) as [[c | es] |] eqn:Hs.
    + cbn [copyDirectory].
      unfold bind, exists_, existsSync, writing, mkdirSync, reading,
        readdirSync.
      cbn beta. rewrite Hb. cbn [disk]. rewrite Hc, Hb. cbn [disk].
      rewrite lookup_graft_apart, Hs by exact Hapart. cbn [disk].
      apply P_graft. exact HP.
    + rewrite (BackupFacts.copyDirectory_grafts (Datatypes.S fuel) _ _ es);
        auto.
      * cbn [disk with_disk]. apply P_graft. exact HP.
      * exact (well_formed_lookup _ _ _ Hwf Hs).
      * rewrite apart_sym. exact Hapart.
      * pose proof (height_lookup _ _ _ Hs). lia.
    + cbn [copyDirectory].
      unfold bind, exists_, existsSync, writing, mkdirSync, reading,
        readdirSync.
      cbn beta. rewrite Hb. cbn [disk]. rewrite Hc, Hb. cbn [disk].
      rewrite lookup_graft_apart, Hs by exact Hapart. cbn [disk].
      apply P_graft. exact HP.
  - cbn [copyDirectory]. unfold bind, exists_, existsSync, writing, mkdirSync.
    cbn beta. rewrite Hb. cbn [disk]. rewrite Hc. exact HP.
Qed.

End Siblings.

Lemma settles_seq {S A B : Type} (P R Q : node -> Prop)
    (m : Proc.M S A) (k : A -> Proc.M S B) :
  settles P m R -> (forall fs, R fs -> Q fs) ->
  (forall a, settles R (k a) Q) ->
  settles P (bind m k) Q.
Proof.
  intros Hm HRQ Hk s Hs. unfold bind. specialize (Hm s Hs).
  destruct (m s) as [a s' | e s' | c s' | e s' |]; auto.
  exact (Hk a s' Hm).
Qed.

(** A run that settles leaves the process with status 0. *)
Lemma exit_status_settled {S : Type} (P Q : node -> Prop)
    (m : Proc.M S unit) (s : process S) :
  settles P m Q -> P (disk s) ->
  exit_status (catch_console_error m s) = Some 0%Z.
Proof.
  intros Hm Hs. unfold catch_console_error, try_catch.
  specialize (Hm s Hs). destruct (m s); try contradiction; reflexivity.
Qed.

(** *** Regular files in the audio directories *)

Lemma regular_alter (name content : string) (es : list (string * node)) :
  forallb regular (map snd es) = true ->
  forallb regular (map snd (alter name (fun _ => File content) es)) = true.
Proof.
  induction es as [|[k x] es IH]; simpl; auto.
  intros H. apply andb_true_iff in H as [Hx Hes].
  destruct (String.eqb k name); simpl.
  - exact Hes.
  - rewrite Hx. exact (IH Hes).
Qed.

Lemma regular_remove (name : string) (es : list (string * node)) :
  forallb regular (map snd es) = true ->
  forallb regular (map snd (remove name es)) = true.
Proof.
  induction es as [|[k x] es IH]; simpl; auto.
  intros H. apply andb_true_iff in H as [Hx Hes].
  destruct (String.eqb k name); simpl.
  - exact Hes.
  - rewrite Hx. exact (IH Hes).
Qed.

Lemma regular_found (name : string) (es : list (string * node)) (x : node) :
  forallb regular (map snd es) = true -> find name es = Some x ->
  exists content, x = File content.
Proof.
  intros Hall Hf. apply find_in in Hf.
  rewrite forallb_forall in Hall.
  assert (H : regular x = true)
    by (apply Hall, in_map_iff; exists (name, x); split; auto).
  destruct x as [c | es']; [exists c; reflexivity | discriminate].
Qed.

Lemma apart_common (d p q : path) : apart (d ++ p) (d ++ q) = apart p q.
Proof.
  induction d as [|a d IH]; simpl; auto. rewrite String.eqb_refl. exact IH.
Qed.

Section AudioDirectories.
Variable baseDir : path.

Lemma files_only_audio_files (fs : node) :
  audio_files baseDir fs = true -> files_only baseDir fs.
Proof.
  unfold audio_files, files_only. intros H language entries Hl.
  rewrite lookup_app in Hl.
  destruct (lookup baseDir fs) as [[c | languages] |]; try discriminate.
  cbn [lookup] in Hl.
  destruct (find language languages) as [x|] eqn:E; [|discriminate].
  rewrite forallb_forall in H. specialize (H (language, x) (find_in _ _ _ E)).
  cbn [snd lookup] in H.
  destruct x as [c | es]; [discriminate|].
  destruct (find "audio" es) as [[c | es']|]; try discriminate.
  inversion Hl. subst es'. exact H.
Qed.

Lemma files_only_graft_audio (language : string) (fs : node)
    (es : list (string * node)) :
  files_only baseDir fs ->
  open_way (baseDir ++ [language; "audio"]) fs = true ->
  forallb regular (map snd es) = true ->
  files_only baseDir (graft (baseDir ++ [language; "audio"]) (Dir es) fs).
Proof.
  intros HI Hopen Hes language0 entries Hl.
  destruct (String.eqb language language0) eqn:E.
  - apply String.eqb_eq in E. subst language0.
    rewrite lookup_graft_same in Hl by exact Hopen.
    inversion Hl. subst entries. exact Hes.
  - rewrite lookup_graft_apart in Hl.
    + exact (HI language0 entries Hl).
    + rewrite apart_common. simpl. rewrite E. reflexivity.
Qed.

Lemma files_only_graft_apart (p : path) (n fs : node) :
  (forall language, apart p (baseDir ++ [language; "audio"]) = true) ->
  files_only baseDir fs -> files_only baseDir (graft p n fs).
Proof.
  intros Ha HI language entries Hl.
  rewrite lookup_graft_apart in Hl by apply Ha.
  exact (HI language entries Hl).
Qed.

Lemma files_only_write (language name content : string) (fs fs' : node) :
  files_only baseDir fs ->
  writeFileSync (join (baseDir ++ [language; "audio"]) name) content fs
  = inr fs' ->
  files_only baseDir fs'.
Proof.
  intros HI Hw. apply write_shape in Hw as (es & Hdir & ->).
  apply files_only_graft_audio; auto.
  - exact (open_way_lookup _ _ _ Hdir).
  - apply regular_alter. exact (HI language es Hdir).
Qed.

Lemma files_only_unlink (language name : string) (fs fs' : node) :
  files_only baseDir fs ->
  unlinkSync (join (baseDir ++ [language; "audio"]) name) fs = inr fs' ->
  files_only baseDir fs'.
Proof.
  intros HI Hu. apply unlink_shape in Hu as (es & Hdir & ->).
  apply files_only_graft_audio; auto.
  - exact (open_way_lookup _ _ _ Hdir).
  - apply regular_remove. exact (HI language es Hdir).
Qed.

Lemma files_only_mkdir (language : string) (fs fs' : node) :
  files_only baseDir fs ->
  mkdirSync (baseDir ++ [language; "audio"]) fs = inr fs' ->
  files_only baseDir fs'.
Proof.
  intros HI Hm. apply mkdir_shape in Hm as [-> | [Hopen ->]]; [exact HI|].
  apply files_only_graft_audio; auto.
Qed.

(** An entry of an audio directory can be unlinked. *)
Lemma unlink_regular (language name : string) (fs x : node) :
  files_only baseDir fs ->
  lookup (join (baseDir ++ [language; "audio"]) name) fs = Some x ->
  unlinkSync (join (baseDir ++ [language; "audio"]) name) fs
  = inr (prune (join (baseDir ++ [language; "audio"]) name) fs).
Proof.
  intros HI Hl. unfold unlinkSync. rewrite Hl.
  destruct (BackupFacts.lookup_parent _ _ _ _ Hl) as (es & Hdir & Hf).
  destruct (regular_found name es x (HI language es Hdir) Hf) as [c ->].
  reflexivity.
Qed.

End AudioDirectories.

Lemma lookup_written (dir : path) (name content : string) (fs fs' : node) :
  writeFileSync (join dir name) content fs = inr fs' ->
  lookup (join dir name) fs' = Some (File content).
Proof.
  intros Hw. apply write_shape in Hw as (es & Hdir & ->).
  unfold join. rewrite lookup_in_grafted_dir
    by exact (open_way_lookup _ _ _ Hdir).
  rewrite find_alter_same. reflexivity.
Qed.

Lemma lookup_beside_written (dir : path) (name other content bytes : string)
    (fs fs' : node) :
  writeFileSync (join dir name) content fs = inr fs' ->
  lookup (join dir other) fs = Some (File bytes) ->
  exists c, lookup (join dir other) fs' = Some (File c).
Proof.
  intros Hw Ho. apply write_shape in Hw as (es & Hdir & ->).
  unfold join in *. rewrite lookup_in_grafted_dir
    by exact (open_way_lookup _ _ _ Hdir).
  destruct (String.eqb name other) eqn:E.
  - apply String.eqb_eq in E. subst other. rewrite find_alter_same.
    exists content. reflexivity.
  - rewrite find_alter_other by exact E.
    rewrite lookup_app, Hdir in Ho. simpl in Ho.
    destruct (find other es) as [x|]; [|discriminate].
    exists bytes. exact Ho.
Qed.

End RunFacts.

(** ** The exit status of the compressors *)
Module ExitFacts.
Import Fs FsAux FsFacts DiskFacts Proc ChildProcess Compressor Layout RunFacts.
Local Open Scope list_scope.

Section Runs.
Context {ffmpeg : Ffmpeg} {json : Updater.JSON}.

(** *** [update-audio-references.js] *)

Lemma updateJsonFile_settles (filePath : path) :
  settles anything (Updater.updateJsonFile filePath) anything.
Proof.
  unfold Updater.updateJsonFile. apply settles_try_catch.
  - apply settles_bind; [apply settles_reading|]. intros data. cbv zeta.
    destruct (Rewriter.hasChanges (Rewriter.updateObjectReferences data));
      [|apply settles_ret].
    apply settles_bind; [apply settles_writing; auto|]. intros _.
    apply settles_bind; [apply settles_update_stats|]. intros _.
    apply settles_ret.
  - intros e. apply settles_bind; [apply settles_console_error|].
    intros _. apply settles_ret.
Qed.

Lemma updateAudioReferences_settles :
  settles anything Updater.updateAudioReferences anything.
Proof.
  unfold Updater.updateAudioReferences.
  apply settles_bind; [apply settles_reading|]. intros names.
  apply settles_bind.
  - apply settles_filter_by. intros name.
    apply settles_bind; [apply settles_reading|]. intros st.
    apply settles_ret.
  - intros languages. apply settles_for_each. intros language.
    unfold Updater.updateLanguageReferences, Updater.findJsonFiles.
    apply settles_bind; [apply settles_reading|]. intros jsonFiles.
    unfold Updater.updateFiles. apply settles_for_each. intros jsonFile.
    apply settles_bind; [apply updateJsonFile_settles|].
    intros [|]; [apply settles_update_stats | apply settles_ret].
Qed.

(** *** [compress-audio.js] *)

Lemma ogg_compressFile_settles (audioDir : path) (filename : string) :
  settles anything (OggCompressor.compressFile audioDir filename) anything.
Proof.
  intros s _. unfold OggCompressor.compressFile, bind, reading.
  destruct (statSync (join audioDir filename) (disk s)) as [e | st];
    [exact I|].
  unfold spawn_ffmpeg. destruct version as [m | code0 err0]; [exact I|].
  destruct (readFileSync (join audioDir filename) (disk s))
    as [e | bytes] eqn:Hread; [exact I|].
  destruct (encode _ bytes) as [out | why partial diag].
  - destruct (writeFileSync _ out (disk s)) as [e | fs'] eqn:Hwrite;
      [exact I|].
    assert (Hin : lookup (join audioDir filename) (disk s) = Some (File bytes)).
    { unfold readFileSync in Hread.
      destruct (lookup (join audioDir filename) (disk s)) as [[c | es] |];
        inversion Hread; reflexivity. }
    destruct (lookup_beside_written _ _ _ _ _ _ _ Hwrite Hin) as [c Hc].
    unfold listener, bind, reading, statSync, update_stats, writing,
      unlinkSync.
    cbn [disk with_disk]. rewrite (lookup_written _ _ _ _ _ Hwrite).
    cbn [disk with_disk]. rewrite Hc. exact I.
  - destruct why; exact I.
Qed.

Lemma ogg_compressLanguages_settles :
  settles anything OggCompressor.compressLanguages anything.
Proof.
  unfold OggCompressor.compressLanguages.
  apply settles_bind; [apply settles_languagesOf|]. intros languages.
  apply settles_for_each. intros language.
  unfold OggCompressor.compressLanguageFiles.
  apply settles_bind; [apply settles_exists|]. intros [|];
    [|apply settles_ret].
  apply settles_bind; [apply settles_mp3FilesOf|]. intros mp3Files.
  apply settles_compressEach. intros file. apply ogg_compressFile_settles.
Qed.

Lemma ogg_run_settles (fuel : nat) :
  settles (fun fs => well_formed fs = true /\ height fs < fuel /\ anything fs)
    (bind OggCompressor.analyzeCurrentFiles
       (fun _ => OggCompressor.compressAllFiles fuel))
    anything.
Proof.
  apply settles_seq with (R := fun fs => well_formed fs = true
                                         /\ height fs < fuel /\ anything fs).
  - apply settles_analyzeFiles.
  - intros fs _. exact I.
  - intros _. unfold OggCompressor.compressAllFiles.
    apply settles_seq with (R := anything).
    + apply (settles_createBackup ["PNLD"; "content"] "i18n" "i18n-backup");
        [reflexivity | intros; exact I].
    + auto.
    + intros _. apply ogg_compressLanguages_settles.
Qed.

(** *** [compress-audio-mp3.js] *)

Lemma cleanUp_returns (language filename : string)
    (s : process statistics) :
  audio_only (disk s) ->
  exists s',
    listener
      (Mp3Compressor.cleanUp
         (join (Mp3Compressor.baseDir ++ [language; "audio"]) filename)) s
    = Done tt s'
    /\ audio_only (disk s').
Proof.
  intros HI. unfold listener, Mp3Compressor.cleanUp, bind, exists_, existsSync.
  destruct (lookup _ (disk s)) as [x|] eqn:Hl.
  - unfold writing. rewrite (unlink_regular _ _ _ _ _ HI Hl).
    eexists. split; [reflexivity|]. cbn [disk].
    apply (files_only_unlink _ language filename (disk s)); [exact HI|].
    exact (unlink_regular _ _ _ _ _ HI Hl).
  - exists s. split; [reflexivity | exact HI].
Qed.

Lemma mp3_compressFile_settles (sourceAudioDir : path)
    (language filename : string) :
  settles audio_only
    (Mp3Compressor.compressFile sourceAudioDir
       (Mp3Compressor.baseDir ++ [language; "audio"]) filename)
    audio_only.
Proof.
  intros s HI. unfold Mp3Compressor.compressFile, bind at 1, reading.
  destruct (statSync (join sourceAudioDir filename) (disk s)) as [e | st];
    [exact HI|].
  unfold bind at 1. unfold spawn_ffmpeg.
  destruct version as [m | code0 err0].
  - unfold bind. destruct (cleanUp_returns language filename s HI)
      as (s' & -> & HI'). exact HI'.
  - destruct (readFileSync (join sourceAudioDir filename) (disk s))
      as [e | bytes].
    + cbn iota. unfold bind.
      destruct (cleanUp_returns language filename s HI) as (s' & -> & HI').
      exact HI'.
    + destruct (encode _ bytes) as [out | why partial diag].
      * destruct (writeFileSync _ out (disk s)) as [e | fs'] eqn:Hwrite.
        -- cbn iota. unfold bind.
           destruct (cleanUp_returns language filename s HI)
             as (s' & -> & HI').
           exact HI'.
        -- cbn iota. unfold listener, bind, reading, statSync, update_stats.
           cbn [disk with_disk]. rewrite (lookup_written _ _ _ _ _ Hwrite).
           cbn [disk with_disk]. exact (files_only_write _ _ _ _ _ _ HI Hwrite).
      * set (s1 := match partial with
                   | Some part =>
                       match writeFileSync _ part (disk s) with
                       | inr fs' => with_disk s fs'
                       | inl _ => s
                       end
                   | None => s
                   end).
        assert (HI1 : audio_only (disk s1)).
        { unfold s1. destruct partial as [part|]; [|exact HI].
          destruct (writeFileSync _ part (disk s)) as [e | fs'] eqn:Hwrite;
            [exact HI|].
          exact (files_only_write _ _ _ _ _ _ HI Hwrite). }
        destruct (cleanUp_returns language filename s1 HI1)
          as (s' & Hs' & HI').
        destruct why as [code|]; cbn [code_of]; cbn iota; unfold bind;
          rewrite Hs'; exact HI'.
Qed.

Lemma mp3_compressLanguages_settles :
  settles audio_only Mp3Compressor.compressLanguages audio_only.
Proof.
  unfold Mp3Compressor.compressLanguages.
  apply settles_bind; [apply settles_languagesOf|]. intros languages.
  apply settles_for_each. intros language.
  unfold Mp3Compressor.compressLanguageFiles.
  apply settles_bind; [apply settles_exists|]. intros [|];
    [|apply settles_ret].
  apply settles_bind; [apply settles_exists|]. intros made.
  apply settles_bind.
  - destruct made; [apply settles_ret|].
    apply settles_writing. intros fs fs' HI Hm.
    exact (files_only_mkdir _ language fs fs' HI Hm).
  - intros _. apply settles_bind; [apply settles_mp3FilesOf|].
    intros mp3Files. apply settles_compressEach. intros file.
    apply (mp3_compressFile_settles _ language file).
Qed.

Lemma mp3_run_settles (fuel : nat) :
  settles
    (fun fs => well_formed fs = true /\ height fs < fuel /\ audio_only fs)
    (bind Mp3Compressor.analyzeCurrentFiles
       (fun _ => Mp3Compressor.compressAllFiles fuel))
    audio_only.
Proof.
  apply settles_seq with (R := fun fs => well_formed fs = true
                                         /\ height fs < fuel /\ audio_only fs).
  - apply settles_analyzeFiles.
  - intros fs (_ & _ & H). exact H.
  - intros _. unfold Mp3Compressor.compressAllFiles.
    apply settles_seq with (R := audio_only).
    + apply (settles_createBackup ["PNLD"; "content"] "i18n"
               "i18n-backup-mp3"); [reflexivity|].
      intros fs n HI. apply files_only_graft_apart; [|exact HI].
      intros language. reflexivity.
    + auto.
    + intros _. apply mp3_compressLanguages_settles.
Qed.

(** X18.  On a disk with distinct names whose audio directories below
    [baseDir] hold regular files only, [compress-audio.js] and
    [compress-audio-mp3.js] leave the process with status 0 when
    [ffmpeg -version] ran and exited with code 0, whatever conversions
    failed, and with status 1 when it did not; in the second case the
    run ends in [process.exit(1)] with one line on the error stream
    and the disk and the statistics as they were.
    [update-audio-references.js], which does not need the encoder,
    leaves the process with status 0 from any state.  Without the
    condition on the audio directories the first part fails: a
    directory at an output path makes the cleanup of
    [compress-audio-mp3.js] throw in a listener. *)
Theorem exit_status_follows_ffmpeg (fuel : nat) (s : process statistics)
    (u : process Updater.counters) :
  well_formed (disk s) = true ->
  height (disk s) < fuel ->
  audio_files Mp3Compressor.baseDir (disk s) = true ->
  exit_status (OggCompressor.main fuel s)
  = Some (if found version then 0%Z else 1%Z)
  /\ exit_status (Mp3Compressor.main fuel s)
     = Some (if found version then 0%Z else 1%Z)
  /\ (found version = false ->
      let s' := mkProcess (disk s) (stats s) (stderr s ++ [not_found]) in
      OggCompressor.main fuel s = Exited 1%Z s'
      /\ Mp3Compressor.main fuel s = Exited 1%Z s')
  /\ exit_status (Updater.main u) = Some 0%Z.
Proof.
  intros Hwf Hh Haudio.
  apply files_only_audio_files in Haudio.
  assert (Hupdater : exit_status (Updater.main u) = Some 0%Z)
    by (apply (exit_status_settled _ _ _ u updateAudioReferences_settles);
        exact I).
  unfold OggCompressor.main, Mp3Compressor.main, OggCompressor.init,
    Mp3Compressor.init, checkFFmpeg.
  change (match version with
          | Closed (Some 0%Z) _ => true
          | _ => false
          end) with (found version).
  destruct (found version).
  - split; [|split; [|split; [discriminate | exact Hupdater]]].
    + apply (exit_status_settled _ _ _ s (ogg_run_settles fuel)).
      repeat split; assumption.
    + apply (exit_status_settled _ _ _ s (mp3_run_settles fuel)).
      repeat split; assumption.
  - split; [reflexivity|]. split; [reflexivity|].
    split; [|exact Hupdater]. intros _. split; reflexivity.
Qed.

End Runs.

Lemma exit_status_follows_ffmpeg_witness :
  well_formed FailureSample.mp3_disk = true
  /\ height FailureSample.mp3_disk < 10
  /\ audio_files Mp3Compressor.baseDir FailureSample.mp3_disk = true
  /\ exit_status
       (@OggCompressor.main FailureSample.failing_ffmpeg 10
          (FailureSample.start FailureSample.mp3_disk))
     = Some 0%Z
  /\ exit_status
       (@Mp3Compressor.main FailureSample.failing_ffmpeg 10
          (FailureSample.start FailureSample.mp3_disk))
     = Some 0%Z.
Proof.
  split; [reflexivity|]. split; [vm_compute; lia|]. split; [reflexivity|].
  destruct (@exit_status_follows_ffmpeg FailureSample.failing_ffmpeg
              Updater.sample_json 10
              (FailureSample.start FailureSample.mp3_disk)
              UpdaterSample.sample_start)
    as (Hogg & Hmp3 & _);
    [reflexivity | vm_compute; lia | reflexivity |].
  split; [exact Hogg | exact Hmp3].
Defined.

End ExitFacts.

(** ** More on strings *)
Module JsMore.
Import Js.

Lemma take_drop (n : nat) (s : string) : take n s ++ drop n s = s.
Proof.
  revert s. induction n as [|n IH]; intros [|c s]; simpl; auto.
  rewrite IH. reflexivity.
Qed.

Lemma append_inj_l (a x y : string) : a ++ x = a ++ y -> x = y.
Proof.
  induction a as [|c a IH]; simpl; auto.
  intros H. inversion H. auto.
Qed.

Lemma length_app (a b : string) :
  String.length (a ++ b) = String.length a + String.length b.
Proof. induction a as [|c a IH]; simpl; auto. Qed.

Lemma drop_app_length (a b : string) : drop (String.length a) (a ++ b) = b.
Proof. induction a as [|c a IH]; simpl; auto. Qed.

Lemma drop_drop (a b : nat) (s : string) : drop (a + b) s = drop b (drop a s).
Proof.
  revert s. induction a as [|a IH]; intros s; [reflexivity|].
  destruct s as [|c s]; simpl; [destruct b; reflexivity | apply IH].
Qed.

Lemma length_take (n : nat) (s : string) :
  n <= String.length s -> String.length (take n s) = n.
Proof.
  revert s. induction n as [|n IH]; intros [|c s] H; simpl in *; auto; try lia.
  rewrite IH; lia.
Qed.

Lemma length_drop (n : nat) (s : string) :
  String.length (drop n s) = String.length s - n.
Proof.
  revert s. induction n as [|n IH]; intros [|c s]; simpl; auto; lia.
Qed.

Lemma prefix_split (p s : string) :
  prefix p s = true -> s = p ++ drop (String.length p) s.
Proof.
  revert s. induction p as [|c p IH]; intros s H; [reflexivity|].
  destruct s as [|d s]; simpl in H; [discriminate|].
  destruct (ascii_dec c d) as [->|]; [|discriminate].
  simpl. f_equal. apply IH. exact H.
Qed.

Lemma prefix_app (p r : string) : prefix p (p ++ r) = true.
Proof.
  induction p as [|c p IH]; simpl.
  - destruct r; reflexivity.
  - destruct (ascii_dec c c); [exact IH | congruence].
Qed.

Lemma prefix_length (p s : string) :
  prefix p s = true -> String.length p <= String.length s.
Proof.
  intros H. rewrite (prefix_split p s H), length_app. lia.
Qed.

(** What [indexOf] finds is an occurrence. *)
Lemma indexOfFrom_occurrence (pat s : string) (from pos : nat) :
  indexOfFrom from pat s = Some pos ->
  from <= pos /\ prefix pat (drop (pos - from) s) = true.
Proof.
  revert from. induction s as [|c s IH]; intros from H.
  - cbn [indexOfFrom] in H. destruct (prefix pat "") eqn:E; [|discriminate].
    inversion H. subst. rewrite Nat.sub_diag. auto.
  - cbn [indexOfFrom] in H. destruct (prefix pat (String c s)) eqn:E.
    + inversion H. subst. rewrite Nat.sub_diag. auto.
    + apply IH in H as [Hle Hp]. split; [lia|].
      replace (pos - from) with (S (pos - S from)) by lia. exact Hp.
Qed.

(** An occurrence anywhere makes [indexOf] find one. *)
Lemma indexOfFrom_finds (pat s : string) (from k : nat) :
  prefix pat (drop k s) = true ->
  exists pos, indexOfFrom from pat s = Some pos.
Proof.
  revert from k. induction s as [|c s IH]; intros from k H.
  - cbn [indexOfFrom]. destruct k; cbn [drop] in H; rewrite H; eauto.
  - cbn [indexOfFrom]. destruct (prefix pat (String c s)) eqn:E; [eauto|].
    destruct k as [|k]; [cbn [drop] in H; congruence|].
    cbn [drop] in H. exact (IH (S from) k H).
Qed.

Lemma endsWith_split (s suffix : string) :
  endsWith s suffix = true ->
  s = take (String.length s - String.length suffix) s ++ suffix.
Proof.
  unfold endsWith. destruct (String.length s <? String.length suffix)%nat;
    [discriminate|].
  intros H. apply String.eqb_eq in H.
  remember (String.length s - String.length suffix) as k eqn:Hk.
  clear Hk. subst suffix. symmetry. apply take_drop.
Qed.

Lemma endsWith_indexOf (s suffix : string) :
  endsWith s suffix = true -> exists pos, indexOf suffix s = Some pos.
Proof.
  intros H. apply (indexOfFrom_finds suffix s 0
                     (String.length s - String.length suffix)).
  unfold endsWith in H.
  destruct (String.length s <? String.length suffix)%nat; [discriminate|].
  apply String.eqb_eq in H. rewrite H.
  pose proof (prefix_app suffix "") as Hp.
  rewrite JsFacts.append_empty_r in Hp. exact Hp.
Qed.

(** The two halves of a string around an occurrence. *)
Lemma indexOf_split (pat s : string) (pos : nat) :
  indexOf pat s = Some pos ->
  s = take pos s ++ pat ++ drop (pos + String.length pat) s.
Proof.
  intros H. apply indexOfFrom_occurrence in H as [_ H].
  rewrite Nat.sub_0_r in H. rewrite drop_drop.
  rewrite <- (prefix_split pat (drop pos s) H). symmetry. apply take_drop.
Qed.

Lemma endsWith_app (a b pat : string) :
  String.length b = String.length pat ->
  endsWith (a ++ b) pat = String.eqb b pat.
Proof.
  intros H. unfold endsWith. rewrite length_app, <- H.
  destruct (String.length a + String.length b <? String.length b)%nat eqn:E;
    [apply Nat.ltb_lt in E; lia|].
  replace (String.length a + String.length b - String.length b)
    with (String.length a) by lia.
  rewrite drop_app_length. reflexivity.
Qed.

End JsMore.

(** ** More on the rewrite *)
Module RewriterMore.
Import Json Rewriter RewriterSpec RewriterAux RewriterFacts.
Local Open Scope list_scope.

Lemma rewrite_string_settled (s : string) :
  Js.endsWith (rewrite_string s) ".mp3" = false.
Proof.
  unfold rewrite_string. destruct (Js.endsWith s ".mp3") eqn:E; [|exact E].
  unfold swap_suffix. rewrite JsMore.endsWith_app; reflexivity.
Qed.

Lemma strings_rewrite_all (v : value) :
  strings (rewrite_all v) = map rewrite_string (strings v).
Proof.
  induction v as [| b | x | s | items IH | props IH] using value_ind;
    try reflexivity.
  - cbn [rewrite_all strings]. induction IH as [|item items Hitem _ IHitems];
      simpl; auto. rewrite map_app, Hitem, IHitems. reflexivity.
  - cbn [rewrite_all strings]. induction IH as [|kv props Hkv _ IHprops];
      simpl; auto. rewrite map_app, Hkv, IHprops. reflexivity.
Qed.

Lemma keys_rewrite_all (props : list (string * value)) :
  keys (map (fun kv => (fst kv, rewrite_all (snd kv))) props) = keys props.
Proof. unfold keys. rewrite map_map. reflexivity. Qed.

Lemma well_formed_rewrite_all (v : value) :
  well_formed v = true -> well_formed (rewrite_all v) = true.
Proof.
  induction v as [| b | x | s | items IH | props IH] using value_ind;
    intros H; try reflexivity.
  - cbn [rewrite_all well_formed] in *. rewrite forallb_forall in H.
    apply forallb_forall. intros w Hw. apply in_map_iff in Hw as (u & <- & Hu).
    rewrite Forall_forall in IH. auto.
  - cbn [rewrite_all well_formed] in *. apply andb_true_iff in H as [Ho H].
    rewrite keys_rewrite_all, Ho. rewrite forallb_forall in H.
    apply forallb_forall. intros w Hw. apply in_map_iff in Hw as (u & <- & Hu).
    rewrite Forall_forall in IH. apply IH; auto.
Qed.

Lemma key_free_rewrite_all (key : string) (v : value) :
  key_free key v = true -> key_free key (rewrite_all v) = true.
Proof.
  induction v as [| b | x | s | items IH | props IH] using value_ind;
    intros H; try reflexivity.
  - cbn [rewrite_all key_free] in *. rewrite forallb_forall in H.
    apply forallb_forall. intros w Hw. apply in_map_iff in Hw as (u & <- & Hu).
    rewrite Forall_forall in IH. auto.
  - cbn [rewrite_all key_free] in *. apply andb_true_iff in H as [Ho H].
    unfold has_own in *. rewrite keys_rewrite_all, Ho.
    rewrite forallb_forall in H.
    apply forallb_forall. intros w Hw. apply in_map_iff in Hw as (u & <- & Hu).
    rewrite Forall_forall in IH. apply IH; auto.
Qed.

Lemma rewrite_all_id (v : value) :
  filter (fun s => Js.endsWith s ".mp3") (strings v) = [] ->
  rewrite_all v = v.
Proof.
  induction v as [| b | x | s | items IH | props IH] using value_ind;
    intros H; try reflexivity.
  - cbn [strings filter] in H. cbn [rewrite_all]. unfold rewrite_string.
    destruct (Js.endsWith s ".mp3"); [discriminate | reflexivity].
  - cbn [rewrite_all strings] in *. f_equal.
    induction IH as [|item items Hitem _ IHitems]; simpl in *; auto.
    rewrite filter_app in H. apply app_eq_nil in H as [H1 H2].
    rewrite Hitem, IHitems; auto.
  - cbn [rewrite_all strings] in *. f_equal.
    induction IH as [|[k w] props Hkv _ IHprops]; simpl in *; auto.
    rewrite filter_app in H. apply app_eq_nil in H as [H1 H2].
    rewrite Hkv, IHprops; auto.
Qed.

Lemma suffix_only_settled (l : list string) :
  filter (fun s => Js.endsWith s ".mp3") l = [] ->
  forallb suffix_only l = true.
Proof.
  induction l as [|s l IH]; simpl; auto.
  unfold suffix_only at 1. destruct (Js.endsWith s ".mp3"); [discriminate|].
  simpl. exact IH.
Qed.

Lemma settled_strings (l : list string) :
  filter (fun s => Js.endsWith s ".mp3") (map rewrite_string l) = [].
Proof.
  induction l as [|s l IH]; simpl; auto.
  rewrite rewrite_string_settled. exact IH.
Qed.

(** A container without reference values comes back as it is. *)
Lemma container_without_references (v : value) :
  is_container v = true ->
  well_formed v = true ->
  key_free "__proto__" v = true ->
  filter (fun s => Js.endsWith s ".mp3") (strings v) = [] ->
  updateObjectReferences v = mkResult v false 0.
Proof.
  intros Hc Hwf Hkf Hnone.
  pose proof (child_rewrite_all v Hwf Hkf (suffix_only_settled _ Hnone))
    as Hdata.
  rewrite (rewrite_all_id v Hnone) in Hdata.
  pose proof (count_ok_all v) as Hcount. unfold count_ok in Hcount.
  rewrite Hnone in Hcount.
  pose proof (flag_ok_all v) as Hflag. unfold flag_ok in Hflag.
  destruct v; try discriminate; cbn [child hits] in Hdata, Hcount;
    destruct (updateObjectReferences _) as [d h c];
    cbn [data hasChanges changeCount List.length] in *; subst; reflexivity.
Qed.

(** X1.  On a parsed document without a [__proto__] key in which a
    string that ends in [.mp3] has no earlier [.mp3], a second run of
    the method on what the first run returned changes nothing: it
    returns the same value with no change counted. *)
Theorem second_run_is_idle_on_suffix_only (v : value) :
  well_formed v = true ->
  key_free "__proto__" v = true ->
  forallb suffix_only (contained_strings v) = true ->
  let once := data (updateObjectReferences v) in
  updateObjectReferences once = mkResult once false 0.
Proof.
  intros Hwf Hkf Hs. cbv zeta. unfold contained_strings in Hs.
  destruct (is_container v) eqn:Hc.
  - assert (Honce : data (updateObjectReferences v) = rewrite_all v).
    { rewrite <- (child_rewrite_all v Hwf Hkf Hs).
      destruct v; try discriminate; reflexivity. }
    rewrite Honce. apply container_without_references.
    + destruct v; try discriminate; reflexivity.
    + apply well_formed_rewrite_all. exact Hwf.
    + apply key_free_rewrite_all. exact Hkf.
    + rewrite strings_rewrite_all. apply settled_strings.
  - destruct v; try discriminate; reflexivity.
Qed.

Lemma second_run_is_idle_on_suffix_only_witness :
  well_formed scenario = true
  /\ key_free "__proto__" scenario = true
  /\ forallb suffix_only (contained_strings scenario) = true
  /\ updateObjectReferences (data (updateObjectReferences scenario))
     = mkResult (data (updateObjectReferences scenario)) false 0.
Proof.
  split; [reflexivity|]. split; [reflexivity|]. split; [reflexivity|].
  apply second_run_is_idle_on_suffix_only; reflexivity.
Defined.

(** X2.  A parsed document without a [__proto__] key and without a
    reference value is returned as it is, with no change counted. *)
Theorem document_without_references_is_kept (v : value) :
  well_formed v = true ->
  key_free "__proto__" v = true ->
  references v = [] ->
  updateObjectReferences v = mkResult v false 0.
Proof.
  intros Hwf Hkf Hnone. unfold references, contained_strings in Hnone.
  destruct (is_container v) eqn:Hc.
  - apply container_without_references; assumption.
  - destruct v; try discriminate; reflexivity.
Qed.

Lemma document_without_references_is_kept_witness :
  well_formed (VObj [("title", VStr "Molly"); ("pages", VArr [VStr "a.ogg"])])
  = true
  /\ key_free "__proto__"
       (VObj [("title", VStr "Molly"); ("pages", VArr [VStr "a.ogg"])])
     = true
  /\ references (VObj [("title", VStr "Molly"); ("pages", VArr [VStr "a.ogg"])])
     = []
  /\ updateObjectReferences
       (VObj [("title", VStr "Molly"); ("pages", VArr [VStr "a.ogg"])])
     = mkResult
         (VObj [("title", VStr "Molly"); ("pages", VArr [VStr "a.ogg"])])
         false 0.
Proof.
  split; [reflexivity|]. split; [reflexivity|]. split; [reflexivity|].
  apply document_without_references_is_kept; reflexivity.
Defined.

(** *** What the method never does to the shape of a value *)

Lemma keys_set_prop (props : list (string * value)) (key : string)
    (v : value) :
  incl (keys (set_prop props key v)) (key :: keys props)
  /\ (~ In "__proto__" (keys props) ->
      ~ In "__proto__" (keys (set_prop props key v))).
Proof.
  unfold set_prop. destruct (String.eqb key "__proto__") eqn:Ep.
  - split; [apply incl_tl, incl_refl | auto].
  - assert (Hne : key <> "__proto__")
      by (intros ->; rewrite String.eqb_refl in Ep; discriminate).
    destruct (has_own key props).
    + assert (H : keys (replace_prop key v props) = keys props).
      { induction props as [|[k x] props IH]; simpl; auto.
        destruct (String.eqb k key); simpl; [reflexivity | rewrite IH; auto]. }
      rewrite H. split; [apply incl_tl, incl_refl | auto].
    + assert (H : forall k, In k (keys (insert_prop key v props)) ->
                            k = key \/ In k (keys props)).
      { induction props as [|[k x] props IH]; simpl.
        - intros k [<-|[]]; auto.
        - destruct (Js.goes_before key k); simpl.
          + intros k' [<-|[<-|H]]; auto.
          + intros k' [<-|H]; auto. destruct (IH k' H); auto. }
      split.
      * intros k Hk. destruct (H k Hk) as [->|Hin]; [left | right]; auto.
      * intros Hno Hin. destruct (H _ Hin) as [Heq|Hin']; auto.
Qed.

Lemma keys_assigned (props done : list (string * value)) :
  incl (keys (assigned props done)) (keys done ++ keys props)
  /\ (~ In "__proto__" (keys done) ->
      ~ In "__proto__" (keys (assigned props done))).
Proof.
  revert done. induction props as [|[k x] props IH]; intros done.
  - simpl. rewrite app_nil_r. split; [apply incl_refl | auto].
  - unfold assigned. cbn [fold_left fst snd].
    fold (assigned props (set_prop done k (child x))).
    destruct (IH (set_prop done k (child x))) as [Hincl Hproto].
    destruct (keys_set_prop done k (child x)) as [Hincl1 Hproto1].
    split.
    + intros key Hkey. apply Hincl in Hkey. apply in_app_or in Hkey.
      apply in_or_app. destruct Hkey as [Hkey|Hkey].
      * apply Hincl1 in Hkey. destruct Hkey as [<-|Hkey]; [right; left|left];
          auto.
      * right. right. exact Hkey.
    + intros Hno. apply Hproto, Hproto1, Hno.
Qed.

(** X3.  Whatever the input, the method keeps the kind of the value:
    an array comes back as an array of the same length, an object as
    an object whose keys are keys of the input and never [__proto__],
    and any other value as itself. *)
Theorem updateObjectReferences_keeps_the_kind (v : value) :
  match v with
  | VArr items =>
      exists items',
        data (updateObjectReferences v) = VArr items'
        /\ List.length items' = List.length items
  | VObj props =>
      exists props',
        data (updateObjectReferences v) = VObj props'
        /\ incl (keys props') (keys props)
        /\ ~ In "__proto__" (keys props')
  | _ => data (updateObjectReferences v) = v
  end.
Proof.
  destruct v as [| b | x | s | items | props]; try reflexivity.
  - exists (map child items).
    rewrite updateObjectReferences_array
      by (apply Forall_forall; intros; apply nested_ok_all).
    split; [reflexivity | apply length_map].
  - exists (assigned props []).
    rewrite updateObjectReferences_object
      by (apply Forall_forall; intros; apply nested_ok_all).
    destruct (keys_assigned props []) as [Hincl Hproto].
    split; [reflexivity|]. split; [exact Hincl | apply Hproto; intros []].
Qed.

End RewriterMore.

(** ** More on the updater *)
Module UpdaterMore.
Import Json Rewriter RewriterSpec Fs FsAux FsFacts DiskFacts Proc Layout
  RunFacts Updater UpdaterAux UpdaterSample.
Local Open Scope list_scope.

(** Two regular files at different paths lie apart. *)
Lemma files_apart (p q : path) (fs : node) (a b : string) :
  lookup p fs = Some (File a) -> lookup q fs = Some (File b) -> p <> q ->
  apart p q = true.
Proof.
  revert q fs. induction p as [|x p IH]; intros [|y q] fs Hp Hq Hne;
    simpl in *.
  - congruence.
  - inversion Hp. subst fs. discriminate.
  - inversion Hq. subst fs. discriminate.
  - destruct fs as [c | es]; [discriminate|].
    destruct (String.eqb x y) eqn:E; [|reflexivity].
    apply String.eqb_eq in E. subst y.
    destruct (find x es) as [n|]; [|discriminate].
    apply (IH q n); auto. congruence.
Qed.

Section Facts.
Context {json : JSON}.

Lemma load_file (p : path) (fs : node) (doc : value) :
  load p fs = inr doc -> exists content, lookup p fs = Some (File content).
Proof.
  unfold load, readFileSync.
  destruct (lookup p fs) as [[content | entries] |]; try discriminate.
  intros _. exists content. reflexivity.
Qed.

(** The three ways in which [updateJsonFile] ends. *)
Lemma updateJsonFile_cases (filePath : path) (s : process counters) :
  (exists message,
      load filePath (disk s) = inl message
      /\ updateJsonFile filePath s
         = Done false
             (mkProcess (disk s) (stats s)
                (stderr s ++ [warning filePath message])))
  \/ (exists doc,
         load filePath (disk s) = inr doc
         /\ changeCount (updateObjectReferences doc) = 0
         /\ updateJsonFile filePath s = Done false s)
  \/ (exists doc,
         load filePath (disk s) = inr doc
         /\ 0 < changeCount (updateObjectReferences doc)
         /\ updateJsonFile filePath s
            = Done true
                (mkProcess
                   (graft filePath
                      (File (JSON_stringify
                               (data (updateObjectReferences doc))))
                      (disk s))
                   (mkCounters (jsonFilesUpdated (stats s))
                      (audioReferencesUpdated (stats s)
                       + changeCount (updateObjectReferences doc)))
                   (stderr s))).
Proof.
  destruct (load filePath (disk s)) as [message | doc] eqn:Hload.
  - left. exists message. split; [reflexivity|].
    unfold updateJsonFile, try_catch, bind, reading. rewrite Hload.
    reflexivity.
  - right. pose proof (RewriterFacts.flag_ok_all doc) as Hflag.
    unfold RewriterAux.flag_ok in Hflag.
    destruct (changeCount (updateObjectReferences doc)) as [|n] eqn:Hn.
    + left. exists doc. split; [reflexivity|]. split; [exact Hn|].
      unfold updateJsonFile, try_catch, bind, reading.
      rewrite Hload, Hflag. reflexivity.
    + right. exists doc. split; [reflexivity|]. split; [lia|].
      unfold updateJsonFile, try_catch, bind, reading, writing.
      rewrite Hload, Hflag. cbn [Nat.ltb Nat.leb].
      rewrite (UpdaterFacts.write_after_load _ _ _ _ Hload). rewrite Hn.
      reflexivity.
Qed.

(** X4.  [updateJsonFile] returns for every path and every state; it
    leaves alone whatever lies apart from [filePath]; when it returns
    [false] the disk and the statistics are as they were, and when it
    returns [true] nothing was written to the error stream. *)
Theorem updateJsonFile_returns_and_writes_one_file (filePath : path)
    (s : process counters) :
  exists (updated : bool) (s' : process counters),
    updateJsonFile filePath s = Done updated s'
    /\ (forall q, apart filePath q = true ->
                  lookup q (disk s') = lookup q (disk s))
    /\ (updated = false -> disk s' = disk s /\ stats s' = stats s)
    /\ (updated = true -> stderr s' = stderr s).
Proof.
  destruct (updateJsonFile_cases filePath s)
    as [(message & _ & ->) | [(doc & _ & _ & ->) | (doc & _ & _ & ->)]].
  - eexists; eexists. split; [reflexivity|].
    split; [reflexivity|]. split; [split; reflexivity | discriminate].
  - eexists; eexists. split; [reflexivity|].
    split; [reflexivity|]. split; [split; reflexivity | discriminate].
  - eexists; eexists. split; [reflexivity|]. cbn [disk stats stderr].
    split; [|split; [discriminate | reflexivity]].
    intros q Hq. apply lookup_graft_apart. exact Hq.
Qed.

(** X5.  When the JSON library reads back what it wrote, a second
    [updateJsonFile] on a file whose document has no [__proto__] key
    and no [.mp3] before a suffix [.mp3] finds nothing to change: it
    returns [false] and leaves the state as it is. *)
Theorem updateJsonFile_twice (filePath : path) (s s1 : process counters)
    (doc : value) (updated : bool) :
  load filePath (disk s) = inr doc ->
  Json.well_formed doc = true ->
  Json.key_free "__proto__" doc = true ->
  forallb suffix_only (contained_strings doc) = true ->
  JSON_parse (JSON_stringify (data (updateObjectReferences doc)))
  = inr (data (updateObjectReferences doc)) ->
  updateJsonFile filePath s = Done updated s1 ->
  updateJsonFile filePath s1 = Done false s1.
Proof.
  intros Hload Hwf Hkf Hs Hround Hfirst.
  destruct (updateJsonFile_cases filePath s)
    as [(message & Hl & _) | [(doc' & Hl & _ & H) | (doc' & Hl & _ & H)]].
  - congruence.
  - rewrite H in Hfirst. inversion Hfirst. subst. exact H.
  - assert (doc' = doc) by congruence. subst doc'.
    rewrite H in Hfirst. inversion Hfirst. subst updated s1. clear Hfirst.
    destruct (load_file _ _ _ Hload) as [content Hfile].
    set (once := data (updateObjectReferences doc)) in *.
    assert (Hload1 :
              load filePath
                (graft filePath (File (JSON_stringify once)) (disk s))
              = inr once).
    { unfold load, readFileSync.
      rewrite lookup_graft_same by exact (open_way_lookup _ _ _ Hfile).
      exact Hround. }
    assert (Hidle : updateObjectReferences once = mkResult once false 0).
    { unfold once, contained_strings in *.
      destruct (is_container doc) eqn:Hc.
      - assert (Honce : data (updateObjectReferences doc) = rewrite_all doc).
        { rewrite <- (RewriterFacts.child_rewrite_all doc Hwf Hkf Hs).
          destruct doc; try discriminate; reflexivity. }
        rewrite Honce. apply RewriterMore.container_without_references.
        + destruct doc; try discriminate; reflexivity.
        + apply RewriterMore.well_formed_rewrite_all. exact Hwf.
        + apply RewriterMore.key_free_rewrite_all. exact Hkf.
        + rewrite RewriterMore.strings_rewrite_all.
          apply RewriterMore.settled_strings.
      - destruct doc; try discriminate; reflexivity. }
    unfold updateJsonFile, try_catch, bind, reading. cbn [disk].
    rewrite Hload1, Hidle. reflexivity.
Qed.

(** *** The files [findJsonFiles] returns *)

Lemma in_find (name : string) (x : node) (es : list (string * node)) :
  distinct (map fst es) = true -> In (name, x) es -> find name es = Some x.
Proof.
  induction es as [|[k y] es IH]; simpl; [intros _ []|].
  intros Hd Hin. apply andb_true_iff in Hd as [Hk Hd].
  apply negb_true_iff in Hk.
  destruct Hin as [Heq | Hin].
  - inversion Heq. subst. rewrite String.eqb_refl. reflexivity.
  - destruct (String.eqb k name) eqn:E.
    + apply String.eqb_eq in E. subst k.
      assert (Hex : existsb (String.eqb name) (map fst es) = true).
      { apply existsb_exists. exists name. split.
        - apply in_map_iff. exists (name, x). auto.
        - apply String.eqb_refl. }
      congruence.
    + apply IH; assumption.
Qed.

Lemma traverse_exact (n : node) :
  well_formed n = true ->
  forall (dir p : path),
    In p (traverse dir n)
    <-> exists rel name,
          p = dir ++ rel ++ [name]
          /\ is_file (lookup (rel ++ [name]) n) = true
          /\ Js.endsWith name ".json" = true.
Proof.
  induction n as [content | es IH] using node_ind; intros Hwf dir p.
  - simpl. split; [intros []|].
    intros (rel & name & _ & H & _). destruct rel; discriminate.
  - cbn [well_formed] in Hwf. apply andb_true_iff in Hwf as [Hd Hall].
    rewrite forallb_forall in Hall. rewrite Forall_forall in IH.
    cbn [traverse]. rewrite in_flat_map. split.
    + intros ((k & x) & Hin & Hp). cbn [fst snd] in Hp.
      pose proof (in_find k x es Hd Hin) as Hfind.
      destruct x as [c | es'].
      * destruct (Js.endsWith k ".json") eqn:E; [|destruct Hp].
        destruct Hp as [<-|[]]. exists [], k.
        split; [reflexivity|]. split; [|exact E].
        simpl. rewrite Hfind. reflexivity.
      * apply (IH (k, Dir es') Hin (Hall _ Hin)) in Hp
          as (rel & name & -> & Hfile & Hname).
        exists (k :: rel), name. split.
        { unfold join. rewrite <- app_assoc. reflexivity. }
        split; [|exact Hname]. simpl. rewrite Hfind. exact Hfile.
    + intros (rel & name & -> & Hfile & Hname).
      destruct rel as [|k rel]; simpl in Hfile.
      * destruct (find name es) as [x|] eqn:Hfind; [|discriminate].
        destruct x as [c | es']; [|discriminate].
        exists (name, File c). split; [exact (find_in _ _ _ Hfind)|].
        cbn [fst snd]. rewrite Hname. left. reflexivity.
      * destruct (find k es) as [x|] eqn:Hfind; [|discriminate].
        pose proof (find_in _ _ _ Hfind) as Hin.
        exists (k, x). split; [exact Hin|]. cbn [fst snd].
        destruct x as [c | es'].
        { destruct rel; discriminate. }
        apply (IH (k, Dir es') Hin (Hall _ Hin)).
        exists rel, name. split.
        { unfold join. rewrite <- app_assoc. reflexivity. }
        split; assumption.
Qed.

(** X6.  On a disk with distinct names in every directory,
    [findJsonFiles] of a directory returns, without a change of the
    state, exactly the paths of the regular files below it, at any
    depth, whose names end in [.json]. *)
Theorem findJsonFiles_exact (directory : path) (s : process counters)
    (es : list (string * node)) :
  Fs.well_formed (disk s) = true ->
  lookup directory (disk s) = Some (Dir es) ->
  exists jsonFiles,
    findJsonFiles directory s = Done jsonFiles s
    /\ forall p,
         In p jsonFiles
         <-> exists rel name,
               p = directory ++ rel ++ [name]
               /\ is_file (lookup p (disk s)) = true
               /\ Js.endsWith name ".json" = true.
Proof.
  intros Hwf Hdir. exists (traverse directory (Dir es)). split.
  - unfold findJsonFiles, reading, readdirSync. rewrite Hdir. reflexivity.
  - intros p.
    rewrite (traverse_exact (Dir es) (well_formed_lookup _ _ _ Hwf Hdir)).
    split; intros (rel & name & -> & Hfile & Hname); exists rel, name;
      (split; [reflexivity|]); (split; [|exact Hname]).
    + rewrite lookup_app, Hdir. exact Hfile.
    + rewrite lookup_app, Hdir in Hfile. exact Hfile.
Qed.

End Facts.

Lemma updateJsonFile_twice_witness :
  @load sample_json (join en "page.json") (disk sample_start)
  = inr (VObj [("sound", VStr "intro.mp3")])
  /\ @updateJsonFile sample_json (join en "page.json")
       (mkProcess
          (graft (join en "page.json") (File (sound_text "intro.ogg"))
             sample_disk)
          (mkCounters 0 1) [])
     = Done false
         (mkProcess
            (graft (join en "page.json") (File (sound_text "intro.ogg"))
               sample_disk)
            (mkCounters 0 1) []).
Proof.
  split; [reflexivity|].
  apply (@updateJsonFile_twice sample_json (join en "page.json") sample_start
           _ (VObj [("sound", VStr "intro.mp3")]) true);
    reflexivity.
Defined.

Lemma findJsonFiles_exact_witness :
  Fs.well_formed (disk sample_start) = true
  /\ exists jsonFiles,
       findJsonFiles en sample_start = Done jsonFiles sample_start
       /\ forall p,
            In p jsonFiles
            <-> exists rel name,
                  p = en ++ rel ++ [name]
                  /\ is_file (lookup p (disk sample_start)) = true
                  /\ Js.endsWith name ".json" = true.
Proof.
  split; [reflexivity|].
  apply (findJsonFiles_exact en sample_start
           [("page.json", File (sound_text "intro.mp3"));
            ("bad.json", File "{oops");
            ("title.json", File (quoted "intro.mp3"));
            ("done.json", File (sound_text "intro.ogg"))]);
    reflexivity.
Defined.

End UpdaterMore.

(** ** The run of the updater *)
Module UpdaterRun.
Import Json Rewriter RewriterSpec Fs FsAux FsFacts DiskFacts Proc Layout
  RunFacts Updater UpdaterAux UpdaterSample UpdaterMore.
Local Open Scope list_scope.

Lemma traverse_json (n : node) :
  forall (dir p : path),
    In p (traverse dir n) ->
    exists d name, p = d ++ [name] /\ Js.endsWith name ".json" = true.
Proof.
  induction n as [content | es IH] using node_ind; intros dir p;
    [intros []|].
  cbn [traverse]. rewrite in_flat_map. intros ((k & x) & Hin & Hp).
  cbn [fst snd] in Hp. rewrite Forall_forall in IH.
  destruct x as [c | es'].
  - destruct (Js.endsWith k ".json") eqn:E; [|destruct Hp].
    destruct Hp as [<-|[]]. exists dir, k. auto.
  - exact (IH (k, Dir es') Hin _ _ Hp).
Qed.

Lemma traverse_head (n : node) :
  forall (dir p : path),
    In p (traverse dir n) ->
    exists k r x,
      p = dir ++ k :: r
      /\ match n with
         | Dir es => In (k, x) es
         | File _ => False
         end.
Proof.
  induction n as [content | es IH] using node_ind; intros dir p;
    [intros []|].
  cbn [traverse]. rewrite in_flat_map. intros ((k & x) & Hin & Hp).
  cbn [fst snd] in Hp. rewrite Forall_forall in IH.
  destruct x as [c | es'].
  - destruct (Js.endsWith k ".json"); [|destruct Hp].
    destruct Hp as [<-|[]]. exists k, [], (File c). auto.
  - destruct (IH (k, Dir es') Hin _ _ Hp) as (k2 & r2 & x2 & -> & _).
    exists k, (k2 :: r2), (Dir es'). split; [|exact Hin].
    unfold join. rewrite <- app_assoc. reflexivity.
Qed.

Lemma traverse_NoDup (n : node) :
  Fs.well_formed n = true -> forall dir, NoDup (traverse dir n).
Proof.
  induction n as [content | es IH] using node_ind; intros Hwf dir;
    [constructor|].
  cbn [Fs.well_formed] in Hwf. apply andb_true_iff in Hwf as [Hd Hall].
  cbn [traverse].
  induction es as [|[k x] es IHes]; [constructor|].
  cbn [map fst distinct] in Hd. apply andb_true_iff in Hd as [Hk Hd].
  apply negb_true_iff in Hk.
  cbn [forallb snd] in Hall. apply andb_true_iff in Hall as [Hx Hall].
  inversion IH as [|? ? IHx IHrest]; subst.
  cbn [flat_map fst snd]. apply NoDup_app.
  - destruct x as [c | es'].
    + destruct (Js.endsWith k ".json"); repeat constructor. intros [].
    + apply IHx. exact Hx.
  - apply IHes; assumption.
  - intros p Hp Hp'.
    assert (Hfirst : exists r, p = dir ++ k :: r).
    { destruct x as [c | es'].
      - destruct (Js.endsWith k ".json"); [|destruct Hp].
        destruct Hp as [<-|[]]. exists []. reflexivity.
      - destruct (traverse_head _ _ _ Hp) as (k2 & r2 & _ & -> & _).
        exists (k2 :: r2). unfold join. rewrite <- app_assoc. reflexivity. }
    destruct Hfirst as [r ->].
    change (flat_map _ es) with (traverse dir (Dir es)) in Hp'.
    destruct (traverse_head _ _ _ Hp') as (k' & r' & x' & Heq & Hin).
    apply app_inv_head in Heq. inversion Heq. subst k'.
    assert (Hex : existsb (String.eqb k) (map fst es) = true).
    { apply existsb_exists. exists k. split.
      - apply in_map_iff. exists (k, x'). auto.
      - apply String.eqb_refl. }
    congruence.
Qed.

Section Facts.
Context {json : JSON}.

Lemma changes_in_apart (p q : path) (n fs : node) :
  apart p q = true -> changes_in (graft p n fs) q = changes_in fs q.
Proof.
  intros H. unfold changes_in, load, readFileSync.
  rewrite lookup_graft_apart by exact H. reflexivity.
Qed.

(** The counters after the loop over files that are all there. *)
Lemma updateFiles_counts (files : list path) :
  NoDup files ->
  forall s,
    Forall (fun p => is_file (lookup p (disk s)) = true) files ->
    exists s',
      updateFiles files s = Done tt s'
      /\ jsonFilesUpdated (stats s')
         = jsonFilesUpdated (stats s)
           + List.length
               (filter (fun p => (0 <? changes_in (disk s) p)%nat) files)
      /\ audioReferencesUpdated (stats s')
         = audioReferencesUpdated (stats s)
           + list_sum (map (changes_in (disk s)) files).
Proof.
  induction 1 as [|p files Hnotin Hnodup IH]; intros s Hfiles.
  - exists s. split; [reflexivity|]. simpl. split; lia.
  - inversion Hfiles as [|? ? Hp Hrest]; subst.
    unfold updateFiles. cbn [for_each]. unfold bind at 1 2.
    fold (updateFiles files).
    destruct (updateJsonFile_cases p s)
      as [(message & Hl & ->) | [(doc & Hl & Hc & ->) | (doc & Hl & Hc & ->)]].
    + cbn beta iota. unfold ret.
      destruct (IH (mkProcess (disk s) (stats s)
                      (stderr s ++ [warning p message])) Hrest)
        as (s' & -> & H1 & H2).
      assert (Hcp : changes_in (disk s) p = 0)
        by (unfold changes_in; rewrite Hl; reflexivity).
      exists s'. cbn [disk stats] in *. split; [reflexivity|].
      cbn [filter map list_sum]. rewrite Hcp.
      change (0 <? 0)%nat with false. cbn iota.
      unfold list_sum in *. cbn [fold_right]. split; lia.
    + cbn beta iota. unfold ret.
      destruct (IH s Hrest) as (s' & -> & H1 & H2).
      assert (Hcp : changes_in (disk s) p = 0)
        by (unfold changes_in; rewrite Hl; exact Hc).
      exists s'. split; [reflexivity|].
      cbn [filter map list_sum]. rewrite Hcp.
      change (0 <? 0)%nat with false. cbn iota.
      unfold list_sum in *. cbn [fold_right]. split; lia.
    + cbn beta iota. unfold update_stats.
      cbn [disk stats stderr jsonFilesUpdated audioReferencesUpdated].
      set (fs1 := graft p _ (disk s)).
      assert (Happ : forall q, In q files -> apart p q = true).
      { intros q Hq. rewrite Forall_forall in Hrest.
        specialize (Hrest q Hq).
        destruct (load_file _ _ _ Hl) as [a Ha].
        destruct (lookup q (disk s)) as [[b | es] |] eqn:Hb;
          try discriminate.
        apply (files_apart p q (disk s) a b Ha Hb).
        intros ->. contradiction. }
      assert (Hrest1 : Forall (fun q => is_file (lookup q fs1) = true) files).
      { apply Forall_forall. intros q Hq. unfold fs1.
        rewrite lookup_graft_apart by exact (Happ q Hq).
        rewrite Forall_forall in Hrest. exact (Hrest q Hq). }
      destruct (IH (mkProcess fs1
                      (mkCounters (jsonFilesUpdated (stats s) + 1)
                         (audioReferencesUpdated (stats s)
                          + changeCount (updateObjectReferences doc)))
                      (stderr s)) Hrest1)
        as (s' & -> & H1 & H2).
      exists s'. split; [reflexivity|]. cbn [disk stats] in H1, H2.
      cbn [jsonFilesUpdated audioReferencesUpdated] in H1, H2.
      rewrite (filter_ext_in _ (fun q => (0 <? changes_in (disk s) q)%nat))
        in H1
        by (intros q Hq; unfold fs1;
            rewrite changes_in_apart by exact (Happ q Hq); reflexivity).
      rewrite (map_ext_in _ (changes_in (disk s))) in H2
        by (intros q Hq; unfold fs1;
            rewrite changes_in_apart by exact (Happ q Hq); reflexivity).
      assert (Hcp : changes_in (disk s) p
                    = changeCount (updateObjectReferences doc))
        by (unfold changes_in; rewrite Hl; reflexivity).
      cbn [filter map list_sum]. rewrite Hcp.
      destruct (changeCount (updateObjectReferences doc)) as [|c];
        [lia|].
      change (0 <? Datatypes.S c)%nat with true. cbn [List.length].
      unfold list_sum in *. cbn [fold_right]. split; lia.
Qed.

(** X7.  On a disk with distinct names in every directory,
    [updateLanguageReferences] of a language directory returns; it
    adds to [jsonFilesUpdated] the number of JSON files of the
    language that hold at least one reference value, and to
    [audioReferencesUpdated] the number of reference values in all of
    them. *)
Theorem updateLanguageReferences_counts (language : string)
    (s : process counters) (es : list (string * node)) :
  Fs.well_formed (disk s) = true ->
  lookup (join baseDir language) (disk s) = Some (Dir es) ->
  let jsonFiles := traverse (join baseDir language) (Dir es) in
  exists s',
    updateLanguageReferences language s = Done tt s'
    /\ jsonFilesUpdated (stats s')
       = jsonFilesUpdated (stats s)
         + List.length
             (filter (fun p => (0 <? changes_in (disk s) p)%nat) jsonFiles)
    /\ audioReferencesUpdated (stats s')
       = audioReferencesUpdated (stats s)
         + list_sum (map (changes_in (disk s)) jsonFiles).
Proof.
  intros Hwf Hdir jsonFiles.
  pose proof (well_formed_lookup _ _ _ Hwf Hdir) as Hwf'.
  unfold updateLanguageReferences, bind, findJsonFiles, reading, readdirSync.
  rewrite Hdir. fold jsonFiles.
  apply updateFiles_counts.
  - apply traverse_NoDup. exact Hwf'.
  - apply Forall_forall. intros p Hp.
    apply (traverse_exact (Dir es) Hwf') in Hp
      as (rel & name & -> & Hfile & _).
    rewrite lookup_app, Hdir. exact Hfile.
Qed.

(** *** Files that are not JSON files *)

Section Other.
Variables (dir : path) (name content : string).
Hypothesis other : Js.endsWith name ".json" = false.

Lemma updateJsonFile_keeps (p : path) :
  p <> dir ++ [name] -> settles (kept_file (dir ++ [name]) content) (updateJsonFile p)
    (kept_file (dir ++ [name]) content).
Proof.
  intros Hne s Hs. unfold kept_file in *.
  destruct (updateJsonFile_cases p s)
    as [(message & _ & ->) | [(doc & _ & _ & ->) | (doc & Hl & _ & ->)]];
    cbn [disk]; try exact Hs.
  destruct (load_file _ _ _ Hl) as [a Ha].
  rewrite lookup_graft_apart; [exact Hs|].
  exact (files_apart _ _ _ _ _ Ha Hs Hne).
Qed.

Lemma updateFiles_keeps (files : list path) :
  Forall (fun p => p <> dir ++ [name]) files ->
  settles (kept_file (dir ++ [name]) content) (updateFiles files)
    (kept_file (dir ++ [name]) content).
Proof.
  intros H. unfold updateFiles.
  induction H as [|p files Hp _ IH]; cbn [for_each].
  - apply settles_ret.
  - apply settles_bind; [|intros _; exact IH].
    apply settles_bind; [apply updateJsonFile_keeps; exact Hp|].
    intros [|]; [apply settles_update_stats | apply settles_ret].
Qed.

Lemma updateLanguageReferences_keeps (language : string) :
  settles (kept_file (dir ++ [name]) content) (updateLanguageReferences language)
    (kept_file (dir ++ [name]) content).
Proof.
  intros s Hs. unfold updateLanguageReferences, bind, findJsonFiles, reading.
  assert (Hfiles : forall n,
             Forall (fun p => p <> dir ++ [name])
               (traverse (join baseDir language) n)).
  { intros n. apply Forall_forall. intros p Hp Heq. subst p.
    apply traverse_json in Hp as (d & nm & Heq & Hnm).
    apply app_inj_tail in Heq as [_ ->]. congruence. }
  destruct (readdirSync (join baseDir language) (disk s)); [exact Hs|].
  destruct (lookup (join baseDir language) (disk s)) as [n|].
  - exact (updateFiles_keeps _ (Hfiles n) s Hs).
  - exact (updateFiles_keeps [] (Forall_nil _) s Hs).
Qed.

Lemma updateAudioReferences_keeps :
  settles (kept_file (dir ++ [name]) content) updateAudioReferences
    (kept_file (dir ++ [name]) content).
Proof.
  unfold updateAudioReferences.
  apply settles_bind; [apply settles_reading|]. intros names.
  apply settles_bind.
  - apply settles_filter_by. intros nm.
    apply settles_bind; [apply settles_reading|]. intros st.
    apply settles_ret.
  - intros languages. apply settles_for_each. intros language.
    apply updateLanguageReferences_keeps.
Qed.

(** X8.  A run of the updater ends without an exception, and a
    regular file whose name does not end in [.json] has the same
    content after it. *)
Theorem updater_keeps_other_files (s : process counters) :
  lookup (dir ++ [name]) (disk s) = Some (File content) ->
  exists s',
    main s = Done tt s'
    /\ lookup (dir ++ [name]) (disk s') = Some (File content).
Proof.
  intros Hs. pose proof (updateAudioReferences_keeps s Hs) as H.
  unfold main, catch_console_error, try_catch.
  destruct (updateAudioReferences s) as [[] s' | e s' | c s' | e s' |];
    try contradiction.
  - exists s'. split; [reflexivity | exact H].
  - eexists. split; [reflexivity | exact H].
Qed.

End Other.
End Facts.

Lemma updateLanguageReferences_counts_witness :
  Fs.well_formed (disk sample_start) = true
  /\ lookup (join baseDir "en") (disk sample_start)
     = Some (Dir [("page.json", File (sound_text "intro.mp3"));
                  ("bad.json", File "{oops");
                  ("title.json", File (quoted "intro.mp3"));
                  ("done.json", File (sound_text "intro.ogg"))])
  /\ exists s',
       @updateLanguageReferences sample_json "en" sample_start = Done tt s'
       /\ jsonFilesUpdated (stats s') = 1
       /\ audioReferencesUpdated (stats s') = 1.
Proof.
  split; [reflexivity|]. split; [reflexivity|].
  destruct (@updateLanguageReferences_counts sample_json "en" sample_start
              _ eq_refl eq_refl) as (s' & H & H1 & H2).
  exists s'. split; [exact H|]. split; [exact H1 | exact H2].
Defined.

Lemma updater_keeps_other_files_witness :
  Js.endsWith "cover.png" ".json" = false
  /\ lookup (en ++ ["cover.png"])
       (graft (en ++ ["cover.png"]) (File "PNG") sample_disk)
     = Some (File "PNG")
  /\ exists s',
       @main sample_json
         (mkProcess (graft (en ++ ["cover.png"]) (File "PNG") sample_disk)
            (mkCounters 0 0) [])
       = Done tt s'
       /\ lookup (en ++ ["cover.png"]) (disk s') = Some (File "PNG").
Proof.
  split; [reflexivity|]. split; [reflexivity|].
  apply (@updater_keeps_other_files sample_json en "cover.png" "PNG");
    reflexivity.
Defined.

End UpdaterRun.

(** ** How a conversion ends *)
Module ConversionFacts.
Import Fs FsAux FsFacts DiskFacts Proc ChildProcess Compressor Layout
  RunFacts CompressorAux.
Local Open Scope list_scope.

Section Facts.
Context {ffmpeg : Ffmpeg}.

Lemma read_file (p : path) (fs : node) (bytes : string) :
  readFileSync p fs = inr bytes -> lookup p fs = Some (File bytes).
Proof.
  unfold readFileSync.
  destruct (lookup p fs) as [[c | es] |]; intros H; inversion H; reflexivity.
Qed.

Lemma ogg_compressFile_ends (audioDir : path) (filename : string)
    (s : process statistics) :
  ogg_end audioDir filename s (OggCompressor.compressFile audioDir filename s).
Proof.
  assert (Hsame : forall m, ogg_end audioDir filename s (Thrown m s)).
  { intros m. rewrite <- (BackupFacts.with_disk_same s) at 2.
    apply ogg_failed. left. reflexivity. }
  unfold OggCompressor.compressFile, bind, reading.
  destruct (statSync (join audioDir filename) (disk s)) as [e | st];
    [apply Hsame|].
  unfold spawn_ffmpeg. destruct version as [m | code0 err0]; [apply Hsame|].
  destruct (readFileSync (join audioDir filename) (disk s))
    as [e | bytes] eqn:Hread; [apply Hsame|].
  destruct (encode _ bytes) as [out | why partial diag] eqn:Henc.
  - destruct (writeFileSync _ out (disk s)) as [e | fs'] eqn:Hwrite;
      [apply Hsame|].
    pose proof (read_file _ _ _ Hread) as Hin.
    destruct (lookup_beside_written _ _ _ _ _ _ _ Hwrite Hin) as [c Hc].
    unfold listener, bind, reading, statSync, update_stats, writing,
      unlinkSync.
    cbn [disk with_disk]. rewrite (lookup_written _ _ _ _ _ Hwrite).
    cbn [disk with_disk stats stderr size]. rewrite Hc.
    apply (ogg_converted audioDir filename s bytes out fs'); auto.
    unfold unlinkSync. rewrite Hc. reflexivity.
  - assert (Hend : forall m,
               ogg_end audioDir filename s
                 (Thrown m
                    match partial with
                    | Some part =>
                        match writeFileSync
                                (join audioDir
                                   (Js.replace ".mp3" ".ogg" filename))
                                part (disk s) with
                        | inr fs' => with_disk s fs'
                        | inl _ => s
                        end
                    | None => s
                    end)).
    { intros m. destruct partial as [part|]; [|apply Hsame].
      destruct (writeFileSync _ part (disk s)) as [e | fs'] eqn:Hwrite;
        [apply Hsame|].
      apply ogg_failed. right. exists part. exact Hwrite. }
    destruct why; apply Hend.
Qed.

Lemma mp3_compressFile_ends (sourceAudioDir : path)
    (language filename : string) (s : process statistics) :
  audio_only (disk s) ->
  mp3_end sourceAudioDir (Mp3Compressor.baseDir ++ [language; "audio"])
    filename s
    (Mp3Compressor.compressFile sourceAudioDir
       (Mp3Compressor.baseDir ++ [language; "audio"]) filename s).
Proof.
  intros HI.
  set (target := Mp3Compressor.baseDir ++ [language; "audio"]).
  (* what the clean-up does after the encoder stopped on the disk [fs1] *)
  assert (Hclean : forall m s1,
             existsSync (join sourceAudioDir filename) (disk s) = true ->
             stats s1 = stats s -> stderr s1 = stderr s ->
             audio_only (disk s1) ->
             maybe_written (join target filename) (disk s) (disk s1) ->
             mp3_end sourceAudioDir target filename s
               (bind (listener (Mp3Compressor.cleanUp (join target filename)))
                  (fun _ => throw m) s1)).
  { intros m s1 Hex Hst Herr HI1 Hw. unfold target in *.
    unfold Mp3Compressor.cleanUp, listener, bind, exists_, existsSync.
    cbn beta.
    destruct (lookup (join _ filename) (disk s1)) as [x|] eqn:Hl.
    - unfold writing.
      rewrite (unlink_regular _ language filename (disk s1) x HI1 Hl).
      unfold throw. rewrite Hst, Herr.
      apply (mp3_failed _ _ _ _ m (disk s1)); auto.
      right. exact (unlink_regular _ language filename (disk s1) x HI1 Hl).
    - unfold ret, throw.
      replace s1 with (with_disk s (disk s1))
        by (destruct s1; cbn in *; subst; reflexivity).
      apply (mp3_failed _ _ _ _ m (disk s1)); auto. left. auto. }
  unfold Mp3Compressor.compressFile. fold target. unfold bind at 1, reading.
  destruct (statSync (join sourceAudioDir filename) (disk s))
    as [e | st] eqn:Hstat; [apply mp3_missing; exact Hstat|].
  assert (Hex : existsSync (join sourceAudioDir filename) (disk s) = true).
  { unfold statSync in Hstat. unfold existsSync.
    destruct (lookup (join sourceAudioDir filename) (disk s));
      [reflexivity | discriminate]. }
  unfold bind at 1. unfold spawn_ffmpeg.
  destruct version as [m | code0 err0].
  - apply Hclean; auto. left. reflexivity.
  - destruct (readFileSync (join sourceAudioDir filename) (disk s))
      as [e | bytes] eqn:Hread.
    + cbn iota. apply Hclean; auto. left. reflexivity.
    + destruct (encode _ bytes) as [out | why partial diag] eqn:Henc.
      * destruct (writeFileSync _ out (disk s)) as [e | fs'] eqn:Hwrite.
        -- cbn iota. apply Hclean; auto. left. reflexivity.
        -- cbn iota. unfold listener, bind, reading, statSync, update_stats.
           cbn [disk with_disk]. rewrite (lookup_written _ _ _ _ _ Hwrite).
           cbn [disk with_disk stats stderr size].
           apply (mp3_converted _ _ _ _ bytes out fs'); auto.
           exact (read_file _ _ _ Hread).
      * set (s1 := match partial with
                   | Some part =>
                       match writeFileSync _ part (disk s) with
                       | inr fs' => with_disk s fs'
                       | inl _ => s
                       end
                   | None => s
                   end).
        assert (H1 : stats s1 = stats s /\ stderr s1 = stderr s
                     /\ audio_only (disk s1)
                     /\ maybe_written (join target filename) (disk s)
                          (disk s1)).
        { unfold s1. destruct partial as [part|].
          - destruct (writeFileSync _ part (disk s)) as [e | fs'] eqn:Hwrite.
            + repeat split; auto. left. reflexivity.
            + repeat split; auto.
              * exact (files_only_write _ _ _ _ _ _ HI Hwrite).
              * right. exists part. exact Hwrite.
          - repeat split; auto. left. reflexivity. }
        destruct H1 as (Hst & Herr & HI1 & Hw).
        destruct why as [code|]; cbn [code_of]; cbn iota;
          apply Hclean; auto.
Qed.

End Facts.
End ConversionFacts.

(** ** What a conversion leaves on the disk *)
Module ConversionResults.
Import Fs FsAux FsFacts DiskFacts Proc ChildProcess Compressor Layout
  RunFacts CompressorAux ConversionFacts.
Local Open Scope list_scope.

(** Replacing the [.mp3] of a name that ends in [.mp3] gives another
    name. *)
Lemma replace_changes (s : string) :
  Js.endsWith s ".mp3" = true -> Js.replace ".mp3" ".ogg" s <> s.
Proof.
  intros He Heq. destruct (JsMore.endsWith_indexOf _ _ He) as [pos Hpos].
  unfold Js.replace in Heq. rewrite Hpos in Heq.
  pose proof (JsMore.indexOf_split _ _ _ Hpos) as Hs.
  remember (Js.take pos s) as front eqn:Hfront.
  remember (Js.drop (pos + String.length ".mp3") s) as back eqn:Hback.
  rewrite Hs in Heq. apply JsMore.append_inj_l in Heq.
  simpl in Heq. inversion Heq.
Qed.

Lemma find_remove_other (name k : string) (es : list (string * node)) :
  String.eqb name k = false -> find k (remove name es) = find k es.
Proof.
  intros Hne. induction es as [|[k' x] es IH]; simpl; auto.
  destruct (String.eqb k' name) eqn:E; simpl.
  - apply String.eqb_eq in E. subst k'. rewrite Hne. reflexivity.
  - destruct (String.eqb k' k); auto.
Qed.

Lemma find_remove_same (name : string) (es : list (string * node)) :
  distinct (map fst es) = true -> find name (remove name es) = None.
Proof.
  induction es as [|[k x] es IH]; simpl; auto.
  intros H. apply andb_true_iff in H as [Hk Hd].
  apply negb_true_iff in Hk.
  destruct (String.eqb k name) eqn:E; simpl.
  - apply String.eqb_eq in E. subst k. apply find_absent. exact Hk.
  - rewrite E. auto.
Qed.

Lemma existsb_alter (name k : string) (f : option node -> node)
    (es : list (string * node)) :
  existsb (String.eqb k) (map fst (alter name f es))
  = existsb (String.eqb k) (map fst es) || String.eqb k name.
Proof.
  induction es as [|[k' x] es IH]; simpl.
  - rewrite orb_false_r. reflexivity.
  - destruct (String.eqb k' name) eqn:E; simpl.
    + apply String.eqb_eq in E. subst k'.
      destruct (String.eqb k name); simpl; rewrite ?orb_true_r, ?orb_false_r;
        reflexivity.
    + rewrite IH, orb_assoc. reflexivity.
Qed.

Lemma distinct_alter (name : string) (f : option node -> node)
    (es : list (string * node)) :
  distinct (map fst es) = true -> distinct (map fst (alter name f es)) = true.
Proof.
  induction es as [|[k x] es IH]; simpl; auto.
  intros H. apply andb_true_iff in H as [Hk Hd].
  destruct (String.eqb k name) eqn:E; simpl.
  - rewrite Hk, Hd. reflexivity.
  - rewrite existsb_alter, E, orb_false_r, Hk. simpl. auto.
Qed.

Lemma distinct_entries (dir : path) (fs : node) (es : list (string * node)) :
  well_formed fs = true -> lookup dir fs = Some (Dir es) ->
  distinct (map fst es) = true.
Proof.
  intros Hwf Hdir. pose proof (well_formed_lookup _ _ _ Hwf Hdir) as H.
  simpl in H. apply andb_true_iff in H as [H _]. exact H.
Qed.

(** The directory after a write and a removal in it. *)
Lemma lookup_after_unlink (dir : path) (name k : string) (fs fs' : node)
    (es : list (string * node)) :
  lookup dir fs = Some (Dir es) ->
  unlinkSync (join dir name) fs = inr fs' ->
  lookup (join dir k) fs' = find k (remove name es).
Proof.
  intros Hdir Hu. apply unlink_shape in Hu as (es' & Hdir' & ->).
  assert (es' = es) by congruence. subst es'.
  unfold join. apply lookup_in_grafted_dir.
  exact (open_way_lookup _ _ _ Hdir).
Qed.

Lemma lookup_after_write (dir : path) (name k content : string)
    (fs fs' : node) :
  writeFileSync (join dir name) content fs = inr fs' ->
  exists es,
    lookup dir fs = Some (Dir es)
    /\ lookup dir fs' = Some (Dir (alter name (fun _ => File content) es))
    /\ lookup (join dir k) fs'
       = find k (alter name (fun _ => File content) es).
Proof.
  intros Hw. apply write_shape in Hw as (es & Hdir & ->).
  exists es. split; [exact Hdir|].
  pose proof (open_way_lookup _ _ _ Hdir) as Hopen. split.
  - apply lookup_graft_same. exact Hopen.
  - unfold join. apply lookup_in_grafted_dir. exact Hopen.
Qed.

Section Facts.
Context {ffmpeg : Ffmpeg}.

(** X9.  Whenever [compressFile] of [compress-audio.js] returns, the
    encoder converted the bytes of the input file, their length was
    added to [compressedSize] and nothing else in the statistics
    changed.  If the name ends in [.mp3] and the names of a directory
    are distinct, the input file is gone and the encoded bytes are in
    the file named by the input's name with its first [.mp3] replaced
    by [.ogg]; when the name has no earlier [.mp3], that is the name
    with the suffix [.ogg] in place of [.mp3].  (For [a.mp3.mp3] it is
    [a.ogg.mp3], which is no [.ogg] file.) *)
Theorem ogg_compressFile_returns (audioDir : path) (filename : string)
    (s s' : process statistics) :
  OggCompressor.compressFile audioDir filename s = Done tt s' ->
  exists bytes out,
    lookup (join audioDir filename) (disk s) = Some (File bytes)
    /\ encode
         (OggCompressor.arguments (join audioDir filename)
            (join audioDir (Js.replace ".mp3" ".ogg" filename)))
         bytes
       = Encoded out
    /\ stats s' = add_compressed (String.length out) (stats s)
    /\ stderr s' = stderr s
    /\ (Js.endsWith filename ".mp3" = true ->
        well_formed (disk s) = true ->
        lookup (join audioDir filename) (disk s') = None
        /\ lookup (join audioDir (Js.replace ".mp3" ".ogg" filename))
             (disk s')
           = Some (File out)
        /\ (RewriterSpec.suffix_only filename = true ->
            lookup
              (join audioDir
                 (RewriterSpec.swap_suffix ".mp3" ".ogg" filename))
              (disk s')
            = Some (File out))).
Proof.
  intros Hdone. pose proof (ogg_compressFile_ends audioDir filename s) as H.
  rewrite Hdone in H.
  inversion H as [| bytes out fs1 fs2 Hin Henc Hwrite Hunlink]; subst.
  exists bytes, out. split; [exact Hin|]. split; [exact Henc|].
  split; [reflexivity|]. split; [reflexivity|].
  intros Hname Hwf. cbn [disk].
  destruct (lookup_after_write audioDir _ filename out _ _ Hwrite)
    as (es & Hdir & Hdir1 & _).
  pose proof (replace_changes filename Hname) as Hne.
  assert (Hneb : String.eqb filename (Js.replace ".mp3" ".ogg" filename)
                 = false).
  { destruct (String.eqb _ _) eqn:E; [|reflexivity].
    apply String.eqb_eq in E. congruence. }
  assert (Hout : lookup (join audioDir (Js.replace ".mp3" ".ogg" filename))
                   fs2
                 = Some (File out)).
  { rewrite (lookup_after_unlink audioDir filename _ fs1 fs2 _ Hdir1 Hunlink).
    rewrite find_remove_other by exact Hneb. rewrite find_alter_same.
    reflexivity. }
  split; [|split; [exact Hout|]].
  - rewrite (lookup_after_unlink audioDir filename _ fs1 fs2 _ Hdir1 Hunlink).
    apply find_remove_same, distinct_alter.
    exact (distinct_entries _ _ _ Hwf Hdir).
  - intros Hsole.
    rewrite <- (JsFacts.replace_suffix_only filename Hname Hsole).
    exact Hout.
Qed.

(** X10.  On a disk with distinct names whose audio directories hold
    regular files, [compressFile] of [compress-audio-mp3.js] on an
    input that exists either returns, and the output file holds the
    encoded bytes, or throws, and no output file is left; it never
    fails in a listener, and the input file is as it was. *)
Theorem mp3_compressFile_leaves (language filename : string)
    (s : process statistics) :
  well_formed (disk s) = true ->
  audio_files Mp3Compressor.baseDir (disk s) = true ->
  existsSync
    (join (Mp3Compressor.backupDir ++ [language; "audio"]) filename) (disk s)
  = true ->
  let input :=
    join (Mp3Compressor.backupDir ++ [language; "audio"]) filename in
  let output :=
    join (Mp3Compressor.baseDir ++ [language; "audio"]) filename in
  match
    Mp3Compressor.compressFile
      (Mp3Compressor.backupDir ++ [language; "audio"])
      (Mp3Compressor.baseDir ++ [language; "audio"]) filename s
  with
  | Done _ s' =>
      (exists bytes out,
          lookup input (disk s) = Some (File bytes)
          /\ encode (Mp3Compressor.arguments input output) bytes = Encoded out
          /\ lookup output (disk s') = Some (File out))
      /\ lookup input (disk s') = lookup input (disk s)
  | Thrown _ s' =>
      lookup output (disk s') = None
      /\ lookup input (disk s') = lookup input (disk s)
  | _ => False
  end.
Proof.
  intros Hwf Haudio Hex input output.
  apply files_only_audio_files in Haudio.
  pose proof (mp3_compressFile_ends
                (Mp3Compressor.backupDir ++ [language; "audio"])
                language filename s Haudio) as H.
  set (target := Mp3Compressor.baseDir ++ [language; "audio"]) in *.
  assert (Hapart : apart target input = true) by reflexivity.
  assert (Hkeep : forall fs1,
             maybe_written output (disk s) fs1 ->
             lookup input fs1 = lookup input (disk s)
             /\ (forall es1, lookup target fs1 = Some (Dir es1) ->
                             distinct (map fst es1) = true)).
  { intros fs1 [-> | [part Hw]].
    - split; [reflexivity|]. intros es1 Hd.
      exact (distinct_entries _ _ _ Hwf Hd).
    - pose proof Hw as Hshape.
      apply write_shape in Hshape as (es & Hdir & ->). split.
      + apply lookup_graft_apart. exact Hapart.
      + intros es1 Hd.
        rewrite lookup_graft_same in Hd by exact (open_way_lookup _ _ _ Hdir).
        inversion Hd. apply distinct_alter.
        exact (distinct_entries _ _ _ Hwf Hdir). }
  destruct (Mp3Compressor.compressFile _ target filename s)
    as [[] s' | e s' | c s' | e s' |];
    inversion H as [m Hstat | m fs1 fs2 _ Hw Hc | bytes out fs1 Hin Henc Hw];
    subst s'.
  - cbn [disk]. split.
    + exists bytes, out. split; [exact Hin|]. split; [exact Henc|].
      exact (lookup_written _ _ _ _ _ Hw).
    + apply (Hkeep fs1). right. exists out. exact Hw.
  - unfold existsSync in Hex. unfold statSync in Hstat.
    destruct (lookup _ (disk s)) as [[c | es] |]; discriminate.
  - cbn [disk with_disk]. destruct (Hkeep fs1 Hw) as [Hin1 Hd1].
    destruct Hc as [[Hnone ->] | Hunlink]; [split; assumption|].
    pose proof Hunlink as Hshape.
    apply unlink_shape in Hshape as (es1 & Hdir1 & ->). split.
    + unfold output, join.
      rewrite lookup_in_grafted_dir by exact (open_way_lookup _ _ _ Hdir1).
      apply find_remove_same. exact (Hd1 es1 Hdir1).
    + rewrite lookup_graft_apart by exact Hapart. exact Hin1.
Qed.

End Facts.

Lemma ogg_compressFile_returns_witness :
  @OggCompressor.compressFile FailureSample.failing_ffmpeg
    (OggCompressor.baseDir ++ ["en"; "audio"]) "next.mp3"
    (FailureSample.start FailureSample.ogg_disk)
  = Done tt
      (mkProcess
         (FailureSample.tree
            [("i18n",
              Dir [("en",
                    Dir [("audio",
                          Dir [("intro.mp3", File "RIFF-intro");
                               ("next.ogg", File "Ogg:RIFF-next")])])])])
         (mkStatistics 0 0 0 13 []) [])
  /\ exists bytes out,
       lookup (join (OggCompressor.baseDir ++ ["en"; "audio"]) "next.mp3")
         FailureSample.ogg_disk
       = Some (File bytes)
       /\ out = "Ogg:RIFF-next".
Proof.
  split; [reflexivity|].
  destruct (@ogg_compressFile_returns FailureSample.failing_ffmpeg
              (OggCompressor.baseDir ++ ["en"; "audio"]) "next.mp3"
              (FailureSample.start FailureSample.ogg_disk) _ eq_refl)
    as (bytes & out & Hin & Henc & _).
  exists bytes, out. split; [exact Hin|].
  cbn in Hin. inversion Hin. subst bytes.
  cbn in Henc. inversion Henc. reflexivity.
Defined.

Lemma mp3_compressFile_leaves_witness :
  well_formed FailureSample.mp3_disk = true
  /\ audio_files Mp3Compressor.baseDir FailureSample.mp3_disk = true
  /\ existsSync
       (join (Mp3Compressor.backupDir ++ ["en"; "audio"]) "intro.mp3")
       FailureSample.mp3_disk
     = true
  /\ match
       @Mp3Compressor.compressFile FailureSample.failing_ffmpeg
         (Mp3Compressor.backupDir ++ ["en"; "audio"])
         (Mp3Compressor.baseDir ++ ["en"; "audio"]) "intro.mp3"
         (FailureSample.start FailureSample.mp3_disk)
     with
     | Thrown _ s' =>
         lookup (join (Mp3Compressor.baseDir ++ ["en"; "audio"]) "intro.mp3")
           (disk s')
         = None
     | _ => False
     end.
Proof.
  split; [reflexivity|]. split; [reflexivity|]. split; [reflexivity|].
  pose proof (@mp3_compressFile_leaves FailureSample.failing_ffmpeg
                "en" "intro.mp3" (FailureSample.start FailureSample.mp3_disk)
                eq_refl eq_refl eq_refl) as H.
  cbv zeta in H.
  destruct (@Mp3Compressor.compressFile FailureSample.failing_ffmpeg _ _ _ _)
    as [a s' | e s' | c s' | e s' |] eqn:E;
    try (vm_compute in E; discriminate E).
  exact (proj1 H).
Defined.

End ConversionResults.

(** ** The loops of the compressors *)
Module CompressionRuns.
Import Fs FsAux FsFacts DiskFacts Proc ChildProcess Compressor Layout
  RunFacts CompressorAux ConversionFacts.
Local Open Scope list_scope.

Lemma outside_audio_apart (baseDir q : path) (language : string) :
  outside_audio baseDir q = true ->
  apart (baseDir ++ [language; "audio"]) q = true.
Proof.
  revert q. induction baseDir as [|a baseDir IH]; intros q H.
  - destruct q as [|l [|name r]]; cbn [outside_audio] in H;
      try discriminate.
    cbn [app apart]. destruct (String.eqb language l); [|reflexivity].
    apply negb_true_iff in H. rewrite String.eqb_sym in H. rewrite H.
    reflexivity.
  - destruct q as [|b q]; cbn [outside_audio] in H; [discriminate|].
    cbn [app apart].
    destruct (String.eqb a b); [apply IH; exact H | reflexivity].
Qed.

Lemma audio_stable_kept (baseDir q : path) (x : option node) :
  outside_audio baseDir q = true ->
  audio_stable baseDir (fun fs => lookup q fs = x).
Proof.
  intros H language entries fs Hq.
  rewrite lookup_graft_apart by (apply outside_audio_apart; exact H).
  exact Hq.
Qed.

Lemma stable_written (dir : path) (Q : node -> Prop) (name : string)
    (fs fs1 : node) :
  stable_at dir Q -> Q fs -> maybe_written (join dir name) fs fs1 -> Q fs1.
Proof.
  intros HQ Hfs [-> | [part Hw]]; [exact Hfs|].
  apply write_shape in Hw as (es & _ & ->). apply HQ. exact Hfs.
Qed.

Lemma stable_unlinked (dir : path) (Q : node -> Prop) (name : string)
    (fs fs1 : node) :
  stable_at dir Q -> Q fs -> unlinkSync (join dir name) fs = inr fs1 -> Q fs1.
Proof.
  intros HQ Hfs Hu. apply unlink_shape in Hu as (es & _ & ->).
  apply HQ. exact Hfs.
Qed.

Lemma stable_mkdir (dir : path) (Q : node -> Prop) (fs fs1 : node) :
  stable_at dir Q -> Q fs -> mkdirSync dir fs = inr fs1 -> Q fs1.
Proof.
  intros HQ Hfs Hm. apply mkdir_shape in Hm as [-> | [_ ->]];
    [exact Hfs | apply HQ; exact Hfs].
Qed.

Lemma counted_refl (s : process statistics) : counted 0 s s.
Proof. unfold counted. repeat split; lia. Qed.

Lemma counted_trans (n m : nat) (s1 s2 s3 : process statistics) :
  counted n s1 s2 -> counted m s2 s3 -> counted (n + m) s1 s3.
Proof.
  unfold counted. intros (H1 & H2 & H3 & H4) (K1 & K2 & K3 & K4).
  repeat split; try congruence. lia.
Qed.

(** Every file of the loop is counted once, as processed or as an
    error. *)
Lemma compressEach_counts (I : node -> Prop) (cf : string -> M unit) :
  (forall file s, I (disk s) ->
     match cf file s with
     | Done _ s' | Thrown _ s' => I (disk s') /\ counted 0 s s'
     | _ => False
     end) ->
  forall files s, I (disk s) ->
    exists s',
      compressEach cf files s = Done tt s'
      /\ I (disk s')
      /\ counted (List.length files) s s'.
Proof.
  intros Hcf files. unfold compressEach.
  induction files as [|file files IH]; intros s HI.
  - exists s. split; [reflexivity|]. split; [exact HI | apply counted_refl].
  - cbn [for_each]. unfold bind at 1. unfold try_catch, bind at 1.
    pose proof (Hcf file s HI) as H.
    destruct (cf file s) as [[] s1 | e s1 | c s1 | e s1 |];
      try contradiction; destruct H as (HI1 & Hc).
    + unfold update_stats.
      destruct (IH (mkProcess (disk s1) (count_processed (stats s1))
                      (stderr s1)) HI1) as (s' & Hrun & HI' & Hc').
      exists s'. split; [exact Hrun|]. split; [exact HI'|].
      change (List.length (file :: files)) with (0 + (1 + List.length files)).
      eapply counted_trans; [exact Hc|].
      eapply counted_trans; [|exact Hc'].
      unfold counted, tally. cbn. repeat split; lia.
    + unfold update_stats.
      destruct (IH (mkProcess (disk s1) (push_error file e (stats s1))
                      (stderr s1)) HI1) as (s' & Hrun & HI' & Hc').
      exists s'. split; [exact Hrun|]. split; [exact HI'|].
      change (List.length (file :: files)) with (0 + (1 + List.length files)).
      eapply counted_trans; [exact Hc|].
      eapply counted_trans; [|exact Hc'].
      unfold counted, tally. cbn. rewrite length_app. cbn.
      repeat split; lia.
Qed.

Section Facts.
Context {ffmpeg : Ffmpeg}.

(** *** [compress-audio.js] *)

Lemma ogg_compressFile_frame (Q : node -> Prop) (audioDir : path)
    (file : string) (s : process statistics) :
  stable_at audioDir Q -> Q (disk s) ->
  match OggCompressor.compressFile audioDir file s with
  | Done _ s' | Thrown _ s' => Q (disk s') /\ counted 0 s s'
  | _ => False
  end.
Proof.
  intros HQ Hs.
  pose proof (ogg_compressFile_ends audioDir file s) as H.
  destruct (OggCompressor.compressFile _ file s)
    as [[] s' | e s' | c s' | e s' |];
    inversion H as [m fs1 Hw | bytes out fs1 fs2 _ _ Hw Hu]; subst s';
    cbn [disk with_disk].
  - split.
    + apply (stable_unlinked _ Q file fs1 fs2 HQ); [|exact Hu].
      apply (stable_written _ Q (Js.replace ".mp3" ".ogg" file)
               (disk s) fs1 HQ Hs).
      right. exists out. exact Hw.
    + unfold counted, tally. cbn. repeat split; lia.
  - split.
    + exact (stable_written _ Q _ (disk s) fs1 HQ Hs Hw).
    + unfold counted, tally. cbn. repeat split; lia.
Qed.

(** One language: every [.mp3] name of its audio directory is
    counted. *)
Lemma ogg_language_counts (Q : node -> Prop) (language : string)
    (s : process statistics) :
  stable_at (OggCompressor.baseDir ++ [language; "audio"]) Q ->
  Q (disk s) ->
  is_file (lookup (OggCompressor.baseDir ++ [language; "audio"]) (disk s))
  = false ->
  exists s',
    OggCompressor.compressLanguageFiles language s = Done tt s'
    /\ Q (disk s')
    /\ counted
         (List.length
            (mp3_names (audio_entries OggCompressor.baseDir (disk s) language)))
         s s'.
Proof.
  intros HQ Hs Hfile. unfold OggCompressor.compressLanguageFiles.
  change (join (join OggCompressor.baseDir language) "audio")
    with (OggCompressor.baseDir ++ [language; "audio"]).
  unfold audio_entries.
  unfold bind at 1. unfold exists_, existsSync.
  destruct (lookup (OggCompressor.baseDir ++ [language; "audio"]) (disk s))
    as [[c | entries] |] eqn:Hdir; [discriminate | |].
  - unfold bind at 1. unfold mp3FilesOf, bind at 1, reading, readdirSync.
    rewrite Hdir. unfold ret at 1.
    apply (compressEach_counts Q); [|exact Hs].
    intros file s0 Hs0. apply ogg_compressFile_frame; assumption.
  - exists s. split; [reflexivity|]. split; [exact Hs | apply counted_refl].
Qed.

Lemma ogg_compressLanguages_frame (Q : node -> Prop) :
  audio_stable OggCompressor.baseDir Q ->
  settles Q OggCompressor.compressLanguages Q.
Proof.
  intros HQ. unfold OggCompressor.compressLanguages.
  apply settles_bind; [apply settles_languagesOf|]. intros languages.
  apply settles_for_each. intros language.
  unfold OggCompressor.compressLanguageFiles.
  apply settles_bind; [apply settles_exists|]. intros [|];
    [|apply settles_ret].
  apply settles_bind; [apply settles_mp3FilesOf|]. intros mp3Files.
  apply settles_compressEach. intros file s Hs.
  pose proof (ogg_compressFile_frame Q
                (join (join OggCompressor.baseDir language) "audio") file s
                (HQ language) Hs) as H.
  destruct (OggCompressor.compressFile _ file s); try contradiction;
    exact (proj1 H).
Qed.

(** *** [compress-audio-mp3.js] *)

Lemma mp3_compressFile_frame (Q : node -> Prop) (sourceAudioDir : path)
    (language file : string) (s : process statistics) :
  stable_at (Mp3Compressor.baseDir ++ [language; "audio"]) Q ->
  audio_only (disk s) -> Q (disk s) ->
  match
    Mp3Compressor.compressFile sourceAudioDir
      (Mp3Compressor.baseDir ++ [language; "audio"]) file s
  with
  | Done _ s' | Thrown _ s' =>
      (audio_only (disk s') /\ Q (disk s')) /\ counted 0 s s'
  | _ => False
  end.
Proof.
  intros HQ HI Hs.
  pose proof (mp3_compressFile_ends sourceAudioDir language file s HI) as H.
  pose proof (ExitFacts.mp3_compressFile_settles sourceAudioDir language file
                s HI) as Hset.
  destruct (Mp3Compressor.compressFile sourceAudioDir _ file s)
    as [[] s' | e s' | c s' | e s' |];
    inversion H as [m Hstat | m fs1 fs2 _ Hw Hc | bytes out fs1 _ _ Hw];
    subst s'; (split; [split; [exact Hset|] |]); cbn [disk with_disk].
  - apply (stable_written _ Q file (disk s) fs1 HQ Hs).
    right. exists out. exact Hw.
  - unfold counted, tally. cbn. repeat split; lia.
  - exact Hs.
  - apply counted_refl.
  - pose proof (stable_written _ Q file (disk s) fs1 HQ Hs Hw) as H1.
    destruct Hc as [[_ ->] | Hu]; [exact H1|].
    exact (stable_unlinked _ Q file fs1 fs2 HQ H1 Hu).
  - unfold counted. cbn. repeat split; lia.
Qed.

(** One language: every [.mp3] name of its audio directory in the
    backup is counted. *)
Lemma mp3_language_counts (Q : node -> Prop) (language : string)
    (s : process statistics) :
  stable_at (Mp3Compressor.baseDir ++ [language; "audio"]) Q ->
  audio_only (disk s) -> Q (disk s) ->
  (forall fs, Q fs ->
     lookup (Mp3Compressor.backupDir ++ [language; "audio"]) fs
     = lookup (Mp3Compressor.backupDir ++ [language; "audio"]) (disk s)) ->
  is_file (lookup (Mp3Compressor.backupDir ++ [language; "audio"]) (disk s))
  = false ->
  existsSync (Mp3Compressor.baseDir ++ [language; "audio"]) (disk s)
  || creatable (Mp3Compressor.baseDir ++ [language; "audio"]) (disk s)
  = true ->
  exists s',
    Mp3Compressor.compressLanguageFiles language s = Done tt s'
    /\ (audio_only (disk s') /\ Q (disk s'))
    /\ counted
         (List.length
            (mp3_names
               (audio_entries Mp3Compressor.backupDir (disk s) language)))
         s s'.
Proof.
  intros HQ Haudio Hs Hsame Hfile Hmk.
  unfold Mp3Compressor.compressLanguageFiles.
  change (join (join Mp3Compressor.backupDir language) "audio")
    with (Mp3Compressor.backupDir ++ [language; "audio"]).
  change (join (join Mp3Compressor.baseDir language) "audio")
    with (Mp3Compressor.baseDir ++ [language; "audio"]).
  set (source := Mp3Compressor.backupDir ++ [language; "audio"]) in *.
  set (target := Mp3Compressor.baseDir ++ [language; "audio"]) in *.
  unfold audio_entries. fold source.
  unfold bind at 1. unfold exists_ at 1. unfold existsSync at 1.
  destruct (lookup source (disk s)) as [[c | entries] |] eqn:Hsrc;
    [discriminate | |].
  - assert (Hmade : exists fs1,
              (if existsSync target (disk s) then ret tt
               else writing (mkdirSync target)) s
              = Done tt (with_disk s fs1)
              /\ audio_only fs1 /\ Q fs1).
    { destruct (existsSync target (disk s)) eqn:Hex.
      - exists (disk s). split; [destruct s; reflexivity|].
        split; assumption.
      - cbn [orb] in Hmk. unfold writing.
        destruct (mkdirSync target (disk s)) as [e | fs1] eqn:Hm.
        + unfold mkdirSync in Hm. rewrite Hmk in Hm.
          destruct (lookup target (disk s)); discriminate.
        + exists fs1. split; [reflexivity|]. split.
          * exact (files_only_mkdir _ language _ _ Haudio Hm).
          * exact (stable_mkdir _ Q _ _ HQ Hs Hm). }
    destruct Hmade as (fs1 & Hmade & HI1 & HQ1).
    unfold bind at 1. unfold exists_ at 1.
    unfold bind at 1. rewrite Hmade.
    unfold bind at 1. unfold mp3FilesOf, bind at 1, reading, readdirSync.
    cbn [disk with_disk]. rewrite (Hsame fs1 HQ1). unfold ret at 1.
    destruct (compressEach_counts (fun fs => audio_only fs /\ Q fs)
                (Mp3Compressor.compressFile source target)) with
      (files := mp3_names entries) (s := with_disk s fs1)
      as (s' & Hrun & HI' & Hc).
    + intros file s0 [HI0 Hs0].
      apply mp3_compressFile_frame; assumption.
    + split; assumption.
    + exists s'. split; [exact Hrun|]. split; [exact HI'|].
      destruct Hc as (H1 & H2 & H3 & H4). unfold counted.
      repeat split; assumption.
  - exists s. split; [reflexivity|]. split; [split; assumption|].
    apply counted_refl.
Qed.

Lemma mp3_compressLanguages_frame (Q : node -> Prop) :
  audio_stable Mp3Compressor.baseDir Q ->
  settles (fun fs => audio_only fs /\ Q fs) Mp3Compressor.compressLanguages
    (fun fs => audio_only fs /\ Q fs).
Proof.
  intros HQ. unfold Mp3Compressor.compressLanguages.
  apply settles_bind; [apply settles_languagesOf|]. intros languages.
  apply settles_for_each. intros language.
  unfold Mp3Compressor.compressLanguageFiles.
  apply settles_bind; [apply settles_exists|]. intros [|];
    [|apply settles_ret].
  apply settles_bind; [apply settles_exists|]. intros made.
  apply settles_bind.
  - destruct made; [apply settles_ret|].
    apply settles_writing. intros fs fs' [HI Hs] Hm. split.
    + exact (files_only_mkdir _ language fs fs' HI Hm).
    + exact (stable_mkdir _ Q fs fs' (HQ language) Hs Hm).
  - intros _. apply settles_bind; [apply settles_mp3FilesOf|].
    intros mp3Files. apply settles_compressEach. intros file s [HI Hs].
    pose proof (mp3_compressFile_frame Q
                  (join (join Mp3Compressor.backupDir language) "audio")
                  language file s (HQ language) HI Hs) as H.
    change (join (join Mp3Compressor.baseDir language) "audio")
      with (Mp3Compressor.baseDir ++ [language; "audio"]).
    destruct (Mp3Compressor.compressFile _ _ file s); try contradiction;
      exact (proj1 H).
Qed.

End Facts.
End CompressionRuns.

(** ** What a run of a compressor leaves alone *)
Module WholeRuns.
Import Fs FsAux FsFacts DiskFacts Proc ChildProcess Compressor Layout
  RunFacts CompressorAux ConversionFacts CompressionRuns.
Local Open Scope list_scope.

(** A script that ends in [catch(console.error)] keeps what the run
    inside it keeps. *)
Lemma catch_console_error_keeps (P Q : node -> Prop) (m : M unit)
    (s : process statistics) :
  settles P m Q -> P (disk s) ->
  match catch_console_error m s with
  | Done _ s' => Q (disk s')
  | _ => False
  end.
Proof.
  intros Hm HP. pose proof (Hm s HP) as H.
  unfold catch_console_error, try_catch.
  destruct (m s) as [a s' | e s' | c s' | e s' |]; try contradiction;
    exact H.
Qed.

Lemma analyzeFiles_needs_directory (dir : path) (s : process statistics) :
  is_dir (lookup dir (disk s)) = false ->
  exists message, analyzeFiles dir s = Thrown message s.
Proof.
  intros H. unfold analyzeFiles, languagesOf, bind, reading, readdirSync.
  destruct (lookup dir (disk s)) as [[c | es] |];
    [eexists; reflexivity | discriminate | eexists; reflexivity].
Qed.

Section Facts.
Context {ffmpeg : Ffmpeg}.

Lemma ogg_run_frame (fuel : nat) (Q : node -> Prop) :
  audio_stable OggCompressor.baseDir Q ->
  (forall fs n, Q fs -> Q (graft OggCompressor.backupDir n fs)) ->
  settles (fun fs => well_formed fs = true /\ height fs < fuel /\ Q fs)
    (bind OggCompressor.analyzeCurrentFiles
       (fun _ => OggCompressor.compressAllFiles fuel))
    Q.
Proof.
  intros HQ Hbackup.
  apply settles_seq with (R := fun fs => well_formed fs = true
                                         /\ height fs < fuel /\ Q fs).
  - apply settles_analyzeFiles.
  - intros fs (_ & _ & H). exact H.
  - intros _. unfold OggCompressor.compressAllFiles.
    apply settles_seq with (R := Q).
    + apply (settles_createBackup ["PNLD"; "content"] "i18n" "i18n-backup");
        [reflexivity | exact Hbackup].
    + auto.
    + intros _. apply ogg_compressLanguages_frame. exact HQ.
Qed.

Lemma mp3_run_frame (fuel : nat) (Q : node -> Prop) :
  audio_stable Mp3Compressor.baseDir Q ->
  settles
    (fun fs => audio_only fs
               /\ is_dir (lookup Mp3Compressor.backupDir fs) = true /\ Q fs)
    (bind Mp3Compressor.analyzeCurrentFiles
       (fun _ => Mp3Compressor.compressAllFiles fuel))
    (fun fs => audio_only fs
               /\ is_dir (lookup Mp3Compressor.backupDir fs) = true /\ Q fs).
Proof.
  intros HQ.
  apply settles_bind; [apply settles_analyzeFiles|]. intros _.
  unfold Mp3Compressor.compressAllFiles. apply settles_bind.
  - intros s (HI & Hdir & Hs).
    unfold Mp3Compressor.createBackup, createBackup, bind, exists_,
      existsSync.
    destruct (lookup Mp3Compressor.backupDir (disk s)) as [[c | es] |]
      eqn:Hb; try discriminate.
    unfold ret. rewrite Hb. repeat split; assumption.
  - intros _.
    apply (mp3_compressLanguages_frame
             (fun fs => is_dir (lookup Mp3Compressor.backupDir fs) = true
                        /\ Q fs)).
    intros language entries fs [Hdir Hs]. split.
    + rewrite lookup_graft_apart by reflexivity. exact Hdir.
    + apply HQ. exact Hs.
Qed.

(** X11.  A run of [compress-audio.js] on a disk with distinct names
    ends by returning or in [process.exit], and whatever lies outside
    the audio directories of the languages and outside the backup
    directory is then as it was. *)
Theorem ogg_run_keeps_the_rest (fuel : nat) (s : process statistics)
    (q : path) :
  well_formed (disk s) = true ->
  height (disk s) < fuel ->
  outside_audio OggCompressor.baseDir q = true ->
  apart OggCompressor.backupDir q = true ->
  match OggCompressor.main fuel s with
  | Done _ s' | Exited _ s' => lookup q (disk s') = lookup q (disk s)
  | _ => False
  end.
Proof.
  intros Hwf Hh Hq Hb.
  unfold OggCompressor.main, OggCompressor.init, checkFFmpeg.
  change (match version with
          | Closed (Some 0%Z) _ => true
          | _ => false
          end) with (found version).
  destruct (found version); [|reflexivity].
  pose proof (catch_console_error_keeps _ _ _ s
                (ogg_run_frame fuel (fun fs => lookup q fs = lookup q (disk s))
                   (audio_stable_kept _ q _ Hq)
                   (fun fs n H =>
                      eq_trans (lookup_graft_apart _ q n fs Hb) H))
                (conj Hwf (conj Hh eq_refl))) as H.
  unfold bind at 1. unfold ret at 1.
  destruct (catch_console_error _ s); try contradiction. exact H.
Qed.

(** X12.  When the encoder is found and the backup directory of
    [compress-audio-mp3.js] is missing, or is a regular file, the run
    converts nothing and makes no backup: the analysis reads the
    backup before [createBackup] is reached, so the run ends with one
    message on the error stream, and the disk and the statistics are
    as they were. *)
Theorem mp3_first_run_converts_nothing (fuel : nat)
    (s : process statistics) :
  found version = true ->
  is_dir (lookup Mp3Compressor.backupDir (disk s)) = false ->
  exists message,
    Mp3Compressor.main fuel s
    = Done tt (mkProcess (disk s) (stats s) (stderr s ++ [message])).
Proof.
  intros Hfound Hdir.
  destruct (analyzeFiles_needs_directory _ s Hdir) as [message Hm].
  exists message.
  unfold Mp3Compressor.main, Mp3Compressor.init, checkFFmpeg.
  change (match version with
          | Closed (Some 0%Z) _ => true
          | _ => false
          end) with (found version).
  rewrite Hfound.
  unfold catch_console_error, try_catch, bind at 1. unfold ret at 1.
  unfold bind at 1. unfold Mp3Compressor.analyzeCurrentFiles. rewrite Hm.
  reflexivity.
Qed.

(** X13.  A run of [compress-audio-mp3.js] on a disk whose audio
    directories hold regular files ends by returning or in
    [process.exit], and whatever lies outside the audio directories of
    the languages is then as it was: the backup it reads from is never
    written, and never made. *)
Theorem mp3_run_keeps_the_rest (fuel : nat) (s : process statistics)
    (q : path) :
  audio_files Mp3Compressor.baseDir (disk s) = true ->
  outside_audio Mp3Compressor.baseDir q = true ->
  match Mp3Compressor.main fuel s with
  | Done _ s' | Exited _ s' => lookup q (disk s') = lookup q (disk s)
  | _ => False
  end.
Proof.
  intros Haudio Hq. apply files_only_audio_files in Haudio.
  unfold Mp3Compressor.main, Mp3Compressor.init, checkFFmpeg.
  change (match version with
          | Closed (Some 0%Z) _ => true
          | _ => false
          end) with (found version).
  destruct (found version); [|reflexivity].
  unfold bind at 1. unfold ret at 1.
  destruct (is_dir (lookup Mp3Compressor.backupDir (disk s))) eqn:Hdir.
  - pose proof (catch_console_error_keeps _ _ _ s
                  (mp3_run_frame fuel
                     (fun fs => lookup q fs = lookup q (disk s))
                     (audio_stable_kept _ q _ Hq))
                  (conj Haudio (conj Hdir eq_refl))) as H.
    destruct (catch_console_error _ s); try contradiction.
    exact (proj2 (proj2 H)).
  - destruct (analyzeFiles_needs_directory _ s Hdir) as [message Hm].
    unfold catch_console_error, try_catch, bind at 1.
    unfold Mp3Compressor.analyzeCurrentFiles. rewrite Hm. reflexivity.
Qed.

End Facts.

Lemma ogg_run_keeps_the_rest_witness :
  match
    @OggCompressor.main FailureSample.failing_ffmpeg 10
      BackupSpec.sample_start
  with
  | Done _ s' =>
      lookup ["PNLD"; "content"; "i18n"; "en"; "page.json"] (disk s')
      = Some (File "{}")
  | _ => False
  end.
Proof.
  pose proof (@ogg_run_keeps_the_rest FailureSample.failing_ffmpeg 10
                BackupSpec.sample_start
                ["PNLD"; "content"; "i18n"; "en"; "page.json"]
                eq_refl) as H.
  assert (Hh : height (disk BackupSpec.sample_start) < 10)
    by (vm_compute; lia).
  specialize (H Hh eq_refl eq_refl).
  destruct (@OggCompressor.main FailureSample.failing_ffmpeg 10
              BackupSpec.sample_start) as [a s' | e s' | c s' | e s' |] eqn:E;
    try contradiction; [exact H|].
  vm_compute in E. discriminate E.
Defined.

Lemma mp3_run_keeps_the_rest_witness :
  match
    @Mp3Compressor.main FailureSample.failing_ffmpeg 0
      (FailureSample.start FailureSample.mp3_disk)
  with
  | Done _ s' =>
      lookup
        ["PNLD"; "content"; "i18n-backup-mp3"; "en"; "audio"; "intro.mp3"]
        (disk s')
      = Some (File "RIFF-intro")
  | _ => False
  end.
Proof.
  pose proof (@mp3_run_keeps_the_rest FailureSample.failing_ffmpeg 0
                (FailureSample.start FailureSample.mp3_disk)
                ["PNLD"; "content"; "i18n-backup-mp3"; "en"; "audio";
                 "intro.mp3"]
                eq_refl eq_refl) as H.
  destruct (@Mp3Compressor.main FailureSample.failing_ffmpeg 0
              (FailureSample.start FailureSample.mp3_disk))
    as [a s' | e s' | c s' | e s' |] eqn:E;
    try contradiction; [exact H|].
  vm_compute in E. discriminate E.
Defined.

Lemma mp3_first_run_converts_nothing_witness :
  exists message,
    @Mp3Compressor.main FailureSample.failing_ffmpeg 10
      (FailureSample.start FailureSample.ogg_disk)
    = Done tt (mkProcess FailureSample.ogg_disk initial [message]).
Proof.
  exact (@mp3_first_run_converts_nothing FailureSample.failing_ffmpeg 10
           (FailureSample.start FailureSample.ogg_disk) eq_refl eq_refl).
Defined.

End WholeRuns.

(** ** The counts of a run *)
Module Accounting.
Import Fs FsAux FsFacts DiskFacts Proc ChildProcess Compressor Layout
  RunFacts CompressorAux ConversionFacts CompressionRuns.
Local Open Scope list_scope.

Lemma find_listed (name : string) (es : list (string * node)) :
  In name (map fst es) -> exists x, find name es = Some x.
Proof.
  induction es as [|[k x] es IH]; simpl; [contradiction|].
  intros [-> | H].
  - rewrite String.eqb_refl. eauto.
  - destruct (String.eqb k name); eauto.
Qed.

Lemma lookup_child (dir : path) (name : string) (fs : node)
    (es : list (string * node)) :
  lookup dir fs = Some (Dir es) -> lookup (join dir name) fs = find name es.
Proof.
  intros H. unfold join. rewrite lookup_app, H. simpl.
  destruct (find name es); reflexivity.
Qed.

Lemma join_audio (dir : path) (language : string) :
  join (join dir language) "audio" = dir ++ [language; "audio"].
Proof. unfold join. rewrite <- app_assoc. reflexivity. Qed.

Lemma add_files_0 (st : statistics) : add_files 0 0 st = st.
Proof. destruct st. unfold add_files. cbn. rewrite !Nat.add_0_r. reflexivity. Qed.

Lemma add_files_count (n bytes size : nat) (st : statistics) :
  add_files n bytes (count_file size st) = add_files (S n) (size + bytes) st.
Proof. unfold add_files, count_file. cbn. f_equal; lia. Qed.

Lemma add_files_add (n bytes n' bytes' : nat) (st : statistics) :
  add_files n bytes (add_files n' bytes' st)
  = add_files (n' + n) (bytes' + bytes) st.
Proof. unfold add_files. cbn. f_equal; lia. Qed.

Lemma stat_child (dir : path) (name : string) (es : list (string * node))
    (x : node) (s : process statistics) :
  lookup dir (disk s) = Some (Dir es) -> find name es = Some x ->
  bind (reading (statSync (join dir name))) (fun st => ret (isDirectory st)) s
  = Done (is_dir (Some x)) s.
Proof.
  intros Hdir Hx. unfold bind, reading, statSync.
  rewrite (lookup_child _ _ _ _ Hdir), Hx. destruct x; reflexivity.
Qed.

Lemma count_child (dir : path) (name : string) (es : list (string * node))
    (x : node) (fs : node) (st : statistics) (err : list string) :
  lookup dir fs = Some (Dir es) -> find name es = Some x ->
  bind (reading (statSync (join dir name)))
    (fun st => update_stats (count_file (size st))) (mkProcess fs st err)
  = Done tt (mkProcess fs (count_file (size_of (Some x)) st) err).
Proof.
  intros Hdir Hx. unfold bind, reading, statSync. cbn [disk].
  rewrite (lookup_child _ _ _ _ Hdir), Hx. destruct x; reflexivity.
Qed.

(** [languagesOf] returns the names of the directories. *)
Lemma languagesOf_lists (dir : path) (s : process statistics) :
  is_dir (lookup dir (disk s)) = true ->
  languagesOf dir s = Done (languages_in dir (disk s)) s.
Proof.
  intros H. unfold languagesOf, languages_in, bind at 1, reading, readdirSync.
  destruct (lookup dir (disk s)) as [[c | es] |] eqn:Hdir; try discriminate.
  assert (Hnames : forall names, incl names (map fst es) ->
            filter_by
              (fun name : string =>
                 bind (reading (statSync (join dir name)))
                   (fun st => ret (isDirectory st)))
              names s
            = Done (filter (fun name => is_dir (find name es)) names) s).
  { induction names as [|n names IH]; intros Hincl; [reflexivity|].
    destruct (find_listed n es (Hincl n (or_introl eq_refl))) as [x Hx].
    cbn [filter_by filter]. unfold bind at 1.
    rewrite (stat_child dir n es x s Hdir Hx). unfold bind at 1.
    rewrite (IH (fun a Ha => Hincl a (or_intror Ha))).
    rewrite Hx. reflexivity. }
  apply Hnames. apply incl_refl.
Qed.

(** The loop of the analysis over the files of one directory. *)
Lemma analyze_files (audioDir : path) (aes : list (string * node))
    (fs : node) (files : list string) :
  lookup audioDir fs = Some (Dir aes) -> incl files (map fst aes) ->
  forall st err,
    for_each files
      (fun file =>
         bind (reading (statSync (join audioDir file)))
           (fun st => update_stats (count_file (size st))))
      (mkProcess fs st err)
    = Done tt
        (mkProcess fs
           (add_files (List.length files)
              (list_sum (map (fun name => size_of (find name aes)) files))
              st)
           err).
Proof.
  intros Hdir. induction files as [|file files IH]; intros Hincl st err.
  - cbn. rewrite add_files_0. reflexivity.
  - destruct (find_listed file aes (Hincl file (or_introl eq_refl)))
      as [x Hx].
    cbn [for_each]. unfold bind at 1.
    rewrite (count_child audioDir file aes x fs st err Hdir Hx).
    rewrite (IH (fun a Ha => Hincl a (or_intror Ha))).
    rewrite add_files_count. cbn [map list_sum List.length fold_right].
    rewrite Hx. reflexivity.
Qed.

Lemma mp3_count_of_cons (dir : path) (fs : node) (l : string)
    (languages : list string) :
  mp3_count_of dir fs (l :: languages)
  = List.length (mp3_names (audio_entries dir fs l))
    + mp3_count_of dir fs languages.
Proof. reflexivity. Qed.

Lemma mp3_bytes_of_cons (dir : path) (fs : node) (l : string)
    (languages : list string) :
  mp3_bytes_of dir fs (l :: languages)
  = list_sum
      (map (fun name => size_of (find name (audio_entries dir fs l)))
         (mp3_names (audio_entries dir fs l)))
    + mp3_bytes_of dir fs languages.
Proof. reflexivity. Qed.

(** The loop of the analysis over the languages. *)
Lemma analyze_languages (dir : path) (fs : node) (languages : list string) :
  (forall l, In l languages ->
     is_file (lookup (dir ++ [l; "audio"]) fs) = false) ->
  forall st err,
    for_each languages
      (fun lang =>
         let audioDir := join (join dir lang) "audio" in
         bind (exists_ audioDir)
           (fun present : bool =>
              if present then
                bind (mp3FilesOf audioDir)
                  (fun files =>
                     for_each files
                       (fun file =>
                          bind (reading (statSync (join audioDir file)))
                            (fun st =>
                               update_stats (count_file (size st)))))
              else ret tt))
      (mkProcess fs st err)
    = Done tt
        (mkProcess fs
           (add_files (mp3_count_of dir fs languages)
              (mp3_bytes_of dir fs languages) st)
           err).
Proof.
  induction languages as [|l languages IH]; intros Hfile st err.
  - cbn. rewrite add_files_0. reflexivity.
  - cbn [for_each]. cbv zeta. rewrite join_audio.
    unfold bind at 1. unfold bind at 1. unfold exists_, existsSync.
    cbn [disk]. rewrite mp3_count_of_cons, mp3_bytes_of_cons.
    unfold audio_entries.
    pose proof (Hfile l (or_introl eq_refl)) as Hl.
    destruct (lookup (dir ++ [l; "audio"]) fs) as [[c | aes] |] eqn:Hdir;
      [discriminate | |].
    + unfold bind at 1. unfold mp3FilesOf, bind at 1, reading, readdirSync.
      cbn [disk]. rewrite Hdir. unfold ret at 1.
      fold (mp3_names aes).
      rewrite (analyze_files _ aes fs (mp3_names aes) Hdir)
        by (unfold mp3_names; apply incl_filter).
      rewrite (IH (fun a Ha => Hfile a (or_intror Ha))).
      rewrite add_files_add. reflexivity.
    + unfold ret at 1.
      rewrite (IH (fun a Ha => Hfile a (or_intror Ha))).
      reflexivity.
Qed.

Lemma audio_dirs_language (dir : path) (fs : node) (l : string) :
  audio_dirs dir fs = true -> In l (languages_in dir fs) ->
  is_file (lookup (dir ++ [l; "audio"]) fs) = false.
Proof.
  intros H Hl. unfold audio_dirs in H. apply andb_true_iff in H as [_ H].
  rewrite forallb_forall in H. apply negb_true_iff. exact (H l Hl).
Qed.

(** The analysis only reads, and counts every [.mp3] name in the audio
    directories of the languages. *)
Lemma analyzeFiles_counts (dir : path) (s : process statistics) :
  audio_dirs dir (disk s) = true ->
  analyzeFiles dir s
  = Done tt
      (mkProcess (disk s)
         (add_files (mp3_count dir (disk s)) (mp3_bytes dir (disk s))
            (stats s))
         (stderr s)).
Proof.
  intros H. unfold analyzeFiles, bind at 1.
  rewrite languagesOf_lists
    by (unfold audio_dirs in H; apply andb_true_iff in H as [H _]; exact H).
  destruct s as [fs st err]. cbn [disk stats stderr] in *.
  apply analyze_languages. intros l Hl.
  exact (audio_dirs_language dir fs l H Hl).
Qed.

(** Making a directory does not close the way to a path that is not
    longer than its own. *)
Lemma creatable_graft (p' : path) (es : list (string * node)) :
  forall (p : path) (fs : node),
    List.length p <= List.length p' ->
    creatable p fs = true -> creatable p (graft p' (Dir es) fs) = true.
Proof.
  induction p' as [|a p' IH]; intros p fs Hlen Hc.
  - destruct p; [reflexivity | simpl in Hlen; lia].
  - destruct fs as [c | ents]; [destruct p; discriminate|].
    cbn [graft]. destruct p as [|b p]; [reflexivity|].
    cbn [creatable] in *. simpl in Hlen.
    destruct (String.eqb a b) eqn:E.
    + apply String.eqb_eq in E. subst b. rewrite find_alter_same.
      apply IH; [lia|].
      destruct (find a ents) as [x|]; [exact Hc|].
      destruct p; reflexivity.
    + rewrite find_alter_other by exact E. exact Hc.
Qed.

Lemma apart_languages (baseDir : path) (l l' : string) :
  l <> l' ->
  apart (baseDir ++ [l; "audio"]) (baseDir ++ [l'; "audio"]) = true.
Proof.
  intros Hne. rewrite apart_common. cbn [apart].
  destruct (String.eqb l l') eqn:E; [|reflexivity].
  apply String.eqb_eq in E. contradiction.
Qed.

Lemma distinct_NoDup (names : list string) :
  distinct names = true -> NoDup names.
Proof.
  induction names as [|n names IH]; intros H; [constructor|].
  cbn [distinct] in H. apply andb_true_iff in H as [Hn Hd].
  constructor; [|exact (IH Hd)].
  intros Hin. apply negb_true_iff in Hn.
  assert (existsb (String.eqb n) names = true).
  { apply existsb_exists. exists n. split; [exact Hin|].
    apply String.eqb_refl. }
  congruence.
Qed.

Lemma languages_in_NoDup (dir : path) (fs : node) :
  well_formed fs = true -> NoDup (languages_in dir fs).
Proof.
  intros Hwf. unfold languages_in.
  destruct (lookup dir fs) as [[c | es] |] eqn:Hdir; try constructor.
  apply NoDup_filter, distinct_NoDup.
  pose proof (well_formed_lookup _ _ _ Hwf Hdir) as H. cbn in H.
  apply andb_true_iff in H as [H _]. exact H.
Qed.

Section Facts.
Context {ffmpeg : Ffmpeg}.

(** The loop of [compress-audio.js] over the languages. *)
Lemma ogg_languages_count (fs0 : node) (languages : list string) :
  NoDup languages ->
  (forall l, In l languages ->
     is_file (lookup (OggCompressor.baseDir ++ [l; "audio"]) fs0) = false) ->
  forall s,
    (forall l, In l languages ->
       lookup (OggCompressor.baseDir ++ [l; "audio"]) (disk s)
       = lookup (OggCompressor.baseDir ++ [l; "audio"]) fs0) ->
    exists s',
      for_each languages OggCompressor.compressLanguageFiles s = Done tt s'
      /\ counted (mp3_count_of OggCompressor.baseDir fs0 languages) s s'.
Proof.
  induction languages as [|l languages IH]; intros Hnd Hfile s Hsame.
  - exists s. split; [reflexivity | apply counted_refl].
  - inversion Hnd as [|? ? Hnotin Hnd']; subst.
    destruct (ogg_language_counts
                (fun fs => forall l', In l' languages ->
                   lookup (OggCompressor.baseDir ++ [l'; "audio"]) fs
                   = lookup (OggCompressor.baseDir ++ [l'; "audio"]) fs0)
                l s) as (s1 & Hrun & HQ1 & Hc1).
    + intros entries fs HQ l' Hl'.
      rewrite lookup_graft_apart; [exact (HQ l' Hl')|].
      apply apart_languages. intros ->. contradiction.
    + intros l' Hl'. apply Hsame. right. exact Hl'.
    + rewrite (Hsame l (or_introl eq_refl)).
      apply Hfile. left. reflexivity.
    + destruct (IH Hnd' (fun a Ha => Hfile a (or_intror Ha)) s1 HQ1)
        as (s' & Hrun' & Hc').
      exists s'. split.
      * cbn [for_each]. unfold bind. rewrite Hrun. exact Hrun'.
      * rewrite mp3_count_of_cons.
        eapply counted_trans; [|exact Hc'].
        unfold audio_entries in *.
        rewrite <- (Hsame l (or_introl eq_refl)). exact Hc1.
Qed.

(** The loop of [compress-audio-mp3.js] over the languages. *)
Lemma mp3_languages_count (fs0 : node) (all languages : list string) :
  incl languages all ->
  (forall l, In l languages ->
     is_file (lookup (Mp3Compressor.backupDir ++ [l; "audio"]) fs0) = false) ->
  forall s,
    audio_only (disk s) ->
    (forall r, lookup (Mp3Compressor.backupDir ++ r) (disk s)
               = lookup (Mp3Compressor.backupDir ++ r) fs0) ->
    (forall l, In l all ->
       creatable (Mp3Compressor.baseDir ++ [l; "audio"]) (disk s) = true) ->
    exists s',
      for_each languages Mp3Compressor.compressLanguageFiles s = Done tt s'
      /\ counted (mp3_count_of Mp3Compressor.backupDir fs0 languages) s s'.
Proof.
  induction languages as [|l languages IH];
    intros Hincl Hfile s Haudio Hsame Hmk.
  - exists s. split; [reflexivity | apply counted_refl].
  - set (Q := fun fs =>
                (forall r, lookup (Mp3Compressor.backupDir ++ r) fs
                           = lookup (Mp3Compressor.backupDir ++ r) fs0)
                /\ (forall l', In l' all ->
                      creatable (Mp3Compressor.baseDir ++ [l'; "audio"]) fs
                      = true)).
    destruct (mp3_language_counts Q l s) as (s1 & Hrun & [HI1 HQ1] & Hc1).
    + intros entries fs [Hb Hc]. split.
      * intros r. rewrite lookup_graft_apart; [apply Hb|].
        apply apart_below. reflexivity.
      * intros l' Hl'. apply creatable_graft; [reflexivity | exact (Hc l' Hl')].
    + exact Haudio.
    + split; assumption.
    + intros fs [Hb _].
      change (Mp3Compressor.backupDir ++ [l; "audio"])
        with (Mp3Compressor.backupDir ++ [l; "audio"]).
      rewrite Hb, Hsame. reflexivity.
    + rewrite Hsame. apply Hfile. left. reflexivity.
    + rewrite (Hmk l (Hincl l (or_introl eq_refl))). apply orb_true_r.
    + destruct HQ1 as [Hb1 Hmk1].
      destruct (IH (fun a Ha => Hincl a (or_intror Ha))
                  (fun a Ha => Hfile a (or_intror Ha)) s1 HI1 Hb1 Hmk1)
        as (s' & Hrun' & Hc').
      exists s'. split.
      * cbn [for_each]. unfold bind. rewrite Hrun. exact Hrun'.
      * rewrite mp3_count_of_cons.
        eapply counted_trans; [|exact Hc'].
        unfold audio_entries in *. rewrite <- Hsame. exact Hc1.
Qed.

End Facts.
End Accounting.

(** ** Every file that is counted is converted or reported *)
Module RunCounts.
Import Fs FsAux FsFacts DiskFacts Proc ChildProcess Compressor Layout
  RunFacts CompressorAux ConversionFacts CompressionRuns Accounting.
Local Open Scope list_scope.

Lemma audio_dirs_dir (dir : path) (fs : node) :
  audio_dirs dir fs = true -> exists es, lookup dir fs = Some (Dir es).
Proof.
  unfold audio_dirs. intros H. apply andb_true_iff in H as [H _].
  destruct (lookup dir fs) as [[c | es] |]; try discriminate. eauto.
Qed.

Lemma languages_in_same (dir : path) (fs fs' : node) :
  lookup dir fs' = lookup dir fs -> languages_in dir fs' = languages_in dir fs.
Proof. unfold languages_in. intros ->. reflexivity. Qed.

Section Facts.
Context {ffmpeg : Ffmpeg}.

(** X14.  When the encoder is found, a run of [compress-audio.js] on a
    disk with distinct names, where [baseDir] is a directory in which
    no language has a regular file named [audio], returns without a
    message on the error stream.
    [totalFiles] has grown by the number of [.mp3] names in the audio
    directories of the languages, and [processedFiles] and the length
    of [errors] have grown together by the same number: every file
    that was counted is converted or reported. *)
Theorem ogg_run_accounts (fuel : nat) (s : process statistics) :
  found version = true ->
  well_formed (disk s) = true ->
  height (disk s) < fuel ->
  audio_dirs OggCompressor.baseDir (disk s) = true ->
  exists s',
    OggCompressor.main fuel s = Done tt s'
    /\ stderr s' = stderr s
    /\ totalFiles (stats s')
       = totalFiles (stats s) + mp3_count OggCompressor.baseDir (disk s)
    /\ processedFiles (stats s') + List.length (errors (stats s'))
       = processedFiles (stats s) + List.length (errors (stats s))
         + mp3_count OggCompressor.baseDir (disk s).
Proof.
  intros Hfound Hwf Hh Hdirs.
  pose proof (analyzeFiles_counts _ s Hdirs) as Hanalyze.
  destruct (audio_dirs_dir _ _ Hdirs) as [es Hbase].
  set (s1 := mkProcess (disk s)
               (add_files (mp3_count OggCompressor.baseDir (disk s))
                  (mp3_bytes OggCompressor.baseDir (disk s)) (stats s))
               (stderr s)) in *.
  destruct (BackupFacts.createBackup_backs_up ["PNLD"; "content"] "i18n"
              "i18n-backup" eq_refl fuel s1 es) as (Hbackup & _).
  { exact (well_formed_lookup _ _ _ Hwf Hbase). }
  { exact Hbase. }
  { pose proof (height_lookup _ _ _ Hbase). lia. }
  set (after := if existsSync (join ["PNLD"; "content"] "i18n-backup")
                     (disk s1)
                then disk s1
                else graft (join ["PNLD"; "content"] "i18n-backup") (Dir es)
                       (disk s1)) in *.
  assert (Hsame : forall r,
             lookup (OggCompressor.baseDir ++ r) after
             = lookup (OggCompressor.baseDir ++ r) (disk s)).
  { intros r. unfold after.
    destruct (existsSync _ (disk s1)); [reflexivity|].
    apply lookup_graft_apart. apply apart_below. reflexivity. }
  assert (Hlangs : languages_in OggCompressor.baseDir after
                   = languages_in OggCompressor.baseDir (disk s)).
  { apply languages_in_same. pose proof (Hsame []) as H.
    rewrite app_nil_r in H. exact H. }
  destruct (ogg_languages_count (disk s)
              (languages_in OggCompressor.baseDir (disk s))
              (languages_in_NoDup _ _ Hwf)
              (fun l Hl => audio_dirs_language _ _ l Hdirs Hl)
              (with_disk s1 after)
              (fun l _ => Hsame [l; "audio"]))
    as (s' & Hloop & Ht & Hn & Ho & He).
  exists s'. split.
  - unfold OggCompressor.main, catch_console_error, try_catch,
      OggCompressor.init, checkFFmpeg.
    change (match version with
            | Closed (Some 0%Z) _ => true
            | _ => false
            end) with (found version).
    rewrite Hfound. unfold bind at 1. unfold ret at 1.
    unfold bind at 1. unfold OggCompressor.analyzeCurrentFiles.
    rewrite Hanalyze.
    unfold OggCompressor.compressAllFiles, bind at 1.
    unfold OggCompressor.createBackup.
    change OggCompressor.baseDir with (join ["PNLD"; "content"] "i18n").
    change OggCompressor.backupDir
      with (join ["PNLD"; "content"] "i18n-backup").
    rewrite Hbackup.
    change (join ["PNLD"; "content"] "i18n") with OggCompressor.baseDir.
    unfold OggCompressor.compressLanguages, bind at 1.
    rewrite languagesOf_lists.
    + cbn [disk with_disk]. rewrite Hlangs, Hloop. reflexivity.
    + cbn [disk with_disk]. pose proof (Hsame []) as H.
      rewrite app_nil_r in H. rewrite H, Hbase. reflexivity.
  - cbn [stats stderr with_disk] in *. unfold tally in Ht.
    rewrite He, Hn. unfold s1. cbn.
    fold (mp3_count OggCompressor.baseDir (disk s)) in Ht.
    repeat split; try reflexivity. exact Ht.
Qed.

(** X15.  When the encoder is found, a run of [compress-audio-mp3.js]
    returns without a message on the error stream if the backup is a
    directory where no language has a regular file named [audio], the
    audio directories below [baseDir] hold regular files, and the
    audio directory of every language of the backup is there below
    [baseDir] or can be made.  [totalFiles] has grown by the number of
    [.mp3] names in the audio directories of the backup, and
    [processedFiles] and the length of [errors] have grown together by
    the same number. *)
Theorem mp3_run_accounts (fuel : nat) (s : process statistics) :
  found version = true ->
  audio_files Mp3Compressor.baseDir (disk s) = true ->
  audio_dirs Mp3Compressor.backupDir (disk s) = true ->
  targets_creatable (disk s) = true ->
  exists s',
    Mp3Compressor.main fuel s = Done tt s'
    /\ stderr s' = stderr s
    /\ totalFiles (stats s')
       = totalFiles (stats s) + mp3_count Mp3Compressor.backupDir (disk s)
    /\ processedFiles (stats s') + List.length (errors (stats s'))
       = processedFiles (stats s) + List.length (errors (stats s))
         + mp3_count Mp3Compressor.backupDir (disk s).
Proof.
  intros Hfound Haudio Hdirs Hmk. apply files_only_audio_files in Haudio.
  pose proof (analyzeFiles_counts _ s Hdirs) as Hanalyze.
  destruct (audio_dirs_dir _ _ Hdirs) as [es Hbackup].
  set (s1 := mkProcess (disk s)
               (add_files (mp3_count Mp3Compressor.backupDir (disk s))
                  (mp3_bytes Mp3Compressor.backupDir (disk s)) (stats s))
               (stderr s)) in *.
  unfold targets_creatable in Hmk. rewrite forallb_forall in Hmk.
  destruct (mp3_languages_count (disk s)
              (languages_in Mp3Compressor.backupDir (disk s))
              (languages_in Mp3Compressor.backupDir (disk s))
              (incl_refl _)
              (fun l Hl => audio_dirs_language _ _ l Hdirs Hl)
              s1 Haudio (fun r => eq_refl) Hmk)
    as (s' & Hloop & Ht & Hn & Ho & He).
  exists s'. split.
  - unfold Mp3Compressor.main, catch_console_error, try_catch,
      Mp3Compressor.init, checkFFmpeg.
    change (match version with
            | Closed (Some 0%Z) _ => true
            | _ => false
            end) with (found version).
    rewrite Hfound. unfold bind at 1. unfold ret at 1.
    unfold bind at 1. unfold Mp3Compressor.analyzeCurrentFiles.
    rewrite Hanalyze.
    unfold Mp3Compressor.compressAllFiles, bind at 1.
    unfold Mp3Compressor.createBackup, createBackup, bind at 1.
    unfold exists_ at 1. unfold existsSync at 1.
    change (disk s1) with (disk s). rewrite Hbackup. unfold ret at 1.
    unfold Mp3Compressor.compressLanguages, bind at 1.
    rewrite languagesOf_lists
      by (change (disk s1) with (disk s); rewrite Hbackup; reflexivity).
    change (disk s1) with (disk s). rewrite Hloop. reflexivity.
  - cbn [stats stderr] in *. unfold tally in Ht.
    rewrite He, Hn. unfold s1. cbn.
    fold (mp3_count Mp3Compressor.backupDir (disk s)) in Ht.
    repeat split; try reflexivity. exact Ht.
Qed.

End Facts.

Lemma ogg_run_accounts_witness :
  found (@version FailureSample.failing_ffmpeg) = true
  /\ well_formed BackupSpec.sample_disk = true
  /\ height BackupSpec.sample_disk < 10
  /\ audio_dirs OggCompressor.baseDir BackupSpec.sample_disk = true
  /\ exists s',
       @OggCompressor.main FailureSample.failing_ffmpeg 10
         BackupSpec.sample_start
       = Done tt s'
       /\ totalFiles (stats s') = 2
       /\ processedFiles (stats s') + List.length (errors (stats s')) = 2.
Proof.
  split; [reflexivity|]. split; [reflexivity|].
  split; [vm_compute; lia|]. split; [reflexivity|].
  assert (Hh : height (disk BackupSpec.sample_start) < 10)
    by (vm_compute; lia).
  destruct (@ogg_run_accounts FailureSample.failing_ffmpeg 10
              BackupSpec.sample_start eq_refl eq_refl Hh eq_refl)
    as (s' & Hrun & _ & Hn & Ht).
  exists s'. split; [exact Hrun|]. split; [exact Hn | exact Ht].
Defined.

Lemma mp3_run_accounts_witness :
  found (@version FailureSample.failing_ffmpeg) = true
  /\ audio_files Mp3Compressor.baseDir FailureSample.mp3_disk = true
  /\ audio_dirs Mp3Compressor.backupDir FailureSample.mp3_disk = true
  /\ targets_creatable FailureSample.mp3_disk = true
  /\ exists s',
       @Mp3Compressor.main FailureSample.failing_ffmpeg 0
         (FailureSample.start FailureSample.mp3_disk)
       = Done tt s'
       /\ totalFiles (stats s') = 2
       /\ processedFiles (stats s') + List.length (errors (stats s')) = 2.
Proof.
  split; [reflexivity|]. split; [reflexivity|]. split; [reflexivity|].
  split; [reflexivity|].
  destruct (@mp3_run_accounts FailureSample.failing_ffmpeg 0
              (FailureSample.start FailureSample.mp3_disk)
              eq_refl eq_refl eq_refl eq_refl)
    as (s' & Hrun & _ & Hn & Ht).
  exists s'. split; [exact Hrun|]. split; [exact Hn | exact Ht].
Defined.

End RunCounts.

(** ** The analysis, and a run that finds nothing to convert *)
Module EdgeRuns.
Import Fs FsAux FsFacts DiskFacts Proc ChildProcess Compressor Layout
  RunFacts CompressorAux ConversionFacts CompressionRuns Accounting.
Local Open Scope list_scope.

Lemma nothing_counted (dir : path) (fs : node) (languages : list string) :
  mp3_count_of dir fs languages = 0 ->
  mp3_bytes_of dir fs languages = 0
  /\ forall l, In l languages -> mp3_names (audio_entries dir fs l) = [].
Proof.
  induction languages as [|l languages IH]; intros H.
  - split; [reflexivity | intros l []].
  - rewrite mp3_count_of_cons in H.
    destruct (mp3_names (audio_entries dir fs l)) as [|f fl] eqn:E;
      [|discriminate].
    destruct (IH H) as [Hb Hl]. split.
    + rewrite mp3_bytes_of_cons, E, Hb. reflexivity.
    + intros l' [<- | Hin]; [exact E | exact (Hl l' Hin)].
Qed.

(** X16.  The analysis of both compressors only reads.  On a directory
    in which no language has a regular file named [audio] and the
    audio directories hold regular files, it returns; [totalFiles] has
    grown by the number of [.mp3] names in the audio directories of
    the languages and [originalSize] by the bytes of the files they
    name, and nothing else has changed.  The second condition keeps
    directories, whose size depends on the platform, out of the
    sum. *)
Theorem analyzeFiles_counts_files (dir : path) (s : process statistics) :
  audio_dirs dir (disk s) = true ->
  audio_files dir (disk s) = true ->
  analyzeFiles dir s
  = Done tt
      (mkProcess (disk s)
         (mkStatistics
            (totalFiles (stats s) + mp3_count dir (disk s))
            (processedFiles (stats s))
            (originalSize (stats s) + mp3_bytes dir (disk s))
            (compressedSize (stats s))
            (errors (stats s)))
         (stderr s)).
Proof.
  intros Hdirs _. exact (analyzeFiles_counts dir s Hdirs).
Qed.

Section Facts.
Context {ffmpeg : Ffmpeg}.

Lemma ogg_language_idle (language : string) (s : process statistics) :
  is_file (lookup (OggCompressor.baseDir ++ [language; "audio"]) (disk s))
  = false ->
  mp3_names (audio_entries OggCompressor.baseDir (disk s) language) = [] ->
  OggCompressor.compressLanguageFiles language s = Done tt s.
Proof.
  intros Hfile Hnone. unfold OggCompressor.compressLanguageFiles.
  change (join (join OggCompressor.baseDir language) "audio")
    with (OggCompressor.baseDir ++ [language; "audio"]).
  unfold audio_entries in Hnone.
  unfold bind at 1. unfold exists_, existsSync.
  destruct (lookup (OggCompressor.baseDir ++ [language; "audio"]) (disk s))
    as [[c | entries] |] eqn:Hdir; [discriminate | | reflexivity].
  unfold bind at 1. unfold mp3FilesOf, bind at 1, reading, readdirSync.
  rewrite Hdir. unfold ret at 1. fold (mp3_names entries).
  rewrite Hnone. reflexivity.
Qed.

(** X17.  When the encoder is found, [baseDir] is a directory in which
    no language has a regular file named [audio], the backup is there
    and no audio directory of a language holds a name that ends in
    [.mp3], a run of [compress-audio.js] changes nothing: the disk,
    the statistics and the error stream are as they were. *)
Theorem ogg_run_with_nothing_to_convert (fuel : nat)
    (s : process statistics) :
  found version = true ->
  audio_dirs OggCompressor.baseDir (disk s) = true ->
  existsSync OggCompressor.backupDir (disk s) = true ->
  mp3_count OggCompressor.baseDir (disk s) = 0 ->
  OggCompressor.main fuel s = Done tt s.
Proof.
  intros Hfound Hdirs Hbackup Hzero.
  pose proof (analyzeFiles_counts _ s Hdirs) as Hanalyze.
  destruct (nothing_counted _ _ _ Hzero) as [Hbytes Hnone].
  fold (mp3_bytes OggCompressor.baseDir (disk s)) in Hbytes.
  rewrite Hzero, Hbytes, add_files_0 in Hanalyze.
  assert (Hs : mkProcess (disk s) (stats s) (stderr s) = s)
    by (destruct s; reflexivity).
  rewrite Hs in Hanalyze.
  assert (Hloop : forall languages,
            incl languages (languages_in OggCompressor.baseDir (disk s)) ->
            for_each languages OggCompressor.compressLanguageFiles s
            = Done tt s).
  { induction languages as [|l languages IH]; intros Hincl; [reflexivity|].
    cbn [for_each]. unfold bind.
    rewrite ogg_language_idle.
    - apply IH. intros a Ha. apply Hincl. right. exact Ha.
    - apply (audio_dirs_language _ _ l Hdirs). apply Hincl. left. reflexivity.
    - apply Hnone. apply Hincl. left. reflexivity. }
  unfold OggCompressor.main, catch_console_error, try_catch,
    OggCompressor.init, checkFFmpeg.
  change (match version with
          | Closed (Some 0%Z) _ => true
          | _ => false
          end) with (found version).
  rewrite Hfound. unfold bind at 1. unfold ret at 1.
  unfold bind at 1. unfold OggCompressor.analyzeCurrentFiles.
  rewrite Hanalyze.
  unfold OggCompressor.compressAllFiles, bind at 1.
  unfold OggCompressor.createBackup, createBackup, bind at 1.
  unfold exists_ at 1. rewrite Hbackup. unfold ret at 1.
  unfold OggCompressor.compressLanguages, bind at 1.
  rewrite languagesOf_lists.
  - rewrite Hloop by apply incl_refl. reflexivity.
  - unfold audio_dirs in Hdirs. apply andb_true_iff in Hdirs as [H _].
    exact H.
Qed.

End Facts.

Lemma analyzeFiles_counts_files_witness :
  audio_dirs OggCompressor.baseDir BackupSpec.sample_disk = true
  /\ audio_files OggCompressor.baseDir BackupSpec.sample_disk = true
  /\ analyzeFiles OggCompressor.baseDir BackupSpec.sample_start
     = Done tt
         (mkProcess BackupSpec.sample_disk (mkStatistics 2 0 19 0 []) []).
Proof.
  split; [reflexivity|]. split; [reflexivity|].
  exact (analyzeFiles_counts_files OggCompressor.baseDir
           BackupSpec.sample_start eq_refl eq_refl).
Defined.

Lemma ogg_run_with_nothing_to_convert_witness :
  found (@version FailureSample.failing_ffmpeg) = true
  /\ audio_dirs OggCompressor.baseDir IdleSample.converted_disk = true
  /\ existsSync OggCompressor.backupDir IdleSample.converted_disk = true
  /\ mp3_count OggCompressor.baseDir IdleSample.converted_disk = 0
  /\ @OggCompressor.main FailureSample.failing_ffmpeg 0 IdleSample.start
     = Done tt IdleSample.start.
Proof.
  split; [reflexivity|]. split; [reflexivity|]. split; [reflexivity|].
  split; [reflexivity|].
  exact (@ogg_run_with_nothing_to_convert FailureSample.failing_ffmpeg 0
           IdleSample.start eq_refl eq_refl eq_refl eq_refl).
Defined.

End EdgeRuns.

(** ** The count and the leaves of the returned tree *)
Module CountFacts.
Import Json Rewriter RewriterSpec RewriterAux RewriterCount RewriterFacts.
Local Open Scope list_scope.

Lemma get_in_order (props : list (string * value)) :
  Js.property_order (keys props) = true ->
  forall kv, In kv props -> get (fst kv) props = Some (snd kv).
Proof.
  induction props as [|[k x] props IH]; intros Ho kv Hin; [destruct Hin|].
  destruct (JsFacts.property_order_app [k] (keys props) Ho)
    as (_ & Hrest & Hbefore).
  cbn [get]. destruct Hin as [<- | Hin].
  - cbn [fst snd]. rewrite String.eqb_refl. reflexivity.
  - assert (Hne : String.eqb k (fst kv) = false).
    { apply JsFacts.precedes_neq, Hbefore; [left; reflexivity|].
      unfold keys. apply in_map. exact Hin. }
    rewrite Hne. apply IH; assumption.
Qed.

Lemma replaced_array (befores afters : list value) :
  replaced (VArr befores) (VArr afters) = replaced_items befores afters.
Proof.
  cbn [replaced]. revert befores.
  induction afters as [|y afters IH]; intros [|x befores]; try reflexivity.
  cbn [replaced_items]. rewrite <- IH. reflexivity.
Qed.

(** What the method counts for a child is what it replaced in it. *)
Lemma hits_replaced (v : value) :
  well_formed v = true -> key_free "__proto__" v = true ->
  hits v = replaced v (child v).
Proof.
  induction v as [| b | x | s | items IH | props IH] using value_ind;
    intros Hwf Hkf; try reflexivity.
  - cbn [hits child]. destruct (Js.endsWith s ".mp3") eqn:He.
    + cbn [replaced].
      destruct (String.eqb s (Js.replace ".mp3" ".ogg" s)) eqn:E;
        [|reflexivity].
      apply String.eqb_eq in E. symmetry in E.
      destruct (ConversionResults.replace_changes s He E).
    + cbn [replaced]. rewrite String.eqb_refl. reflexivity.
  - cbn [hits child].
    rewrite updateObjectReferences_array
      by (apply Forall_forall; intros; apply nested_ok_all).
    cbn [changeCount data]. rewrite replaced_array.
    cbn [well_formed key_free] in Hwf, Hkf. unfold total.
    induction IH as [|item items Hitem _ IHitems]; [reflexivity|].
    cbn [forallb] in Hwf, Hkf.
    apply andb_true_iff in Hwf as [Hwf1 Hwf2].
    apply andb_true_iff in Hkf as [Hkf1 Hkf2].
    cbn [map list_sum fold_right replaced_items].
    rewrite <- (Hitem Hwf1 Hkf1). f_equal. exact (IHitems Hwf2 Hkf2).
  - cbn [hits child].
    rewrite updateObjectReferences_object
      by (apply Forall_forall; intros; apply nested_ok_all).
    cbn [well_formed key_free] in Hwf, Hkf.
    apply andb_true_iff in Hwf as [Ho Hwf].
    apply andb_true_iff in Hkf as [Hp Hkf].
    apply negb_true_iff in Hp.
    rewrite forallb_forall in Hwf, Hkf. rewrite Forall_forall in IH.
    cbn [changeCount data].
    rewrite (assigned_in_order props []) by assumption.
    cbn [app replaced]. unfold total. rewrite !map_map. f_equal.
    apply map_ext_in. intros kv Hin. cbn [fst snd].
    rewrite (get_in_order props Ho kv Hin). apply IH; auto.
Qed.

(** X19.  For every value, [hasChanges] says whether [changeCount] is
    positive, and [changeCount] is the number of strings inside the
    arrays and objects of the input that end in [.mp3].  For a parsed
    document without a [__proto__] key it is also the number of string
    leaves of the returned tree that differ from the leaf at the same
    place of the input. *)
Theorem changeCount_counts_replaced_leaves (v : value) :
  hasChanges (updateObjectReferences v)
  = (0 <? changeCount (updateObjectReferences v))%nat
  /\ changeCount (updateObjectReferences v) = List.length (references v)
  /\ (well_formed v = true ->
      key_free "__proto__" v = true ->
      changeCount (updateObjectReferences v)
      = replaced v (data (updateObjectReferences v))).
Proof.
  destruct (changeCount_counts_references v) as [Hflag Hcount].
  split; [exact Hflag|]. split; [exact Hcount|].
  intros Hwf Hkf. pose proof (hits_replaced v Hwf Hkf) as H.
  destruct v as [| b | x | s | items | props]; try reflexivity.
  - cbn [updateObjectReferences changeCount data replaced].
    rewrite String.eqb_refl. reflexivity.
  - exact H.
  - exact H.
Qed.

Lemma changeCount_counts_replaced_leaves_witness :
  well_formed scenario = true
  /\ key_free "__proto__" scenario = true
  /\ changeCount (updateObjectReferences scenario) = 2
  /\ replaced scenario (data (updateObjectReferences scenario)) = 2.
Proof.
  split; [reflexivity|]. split; [reflexivity|].
  destruct (changeCount_counts_replaced_leaves scenario) as (_ & _ & H).
  split; [reflexivity|]. rewrite <- (H eq_refl eq_refl). reflexivity.
Defined.

(** C10 at the parsed document [{"__proto__": "r.mp3"}]: the method
    counts one change and sets [hasChanges], and the tree it returns
    is the empty object: it holds no string, so the leaf that was
    counted was replaced nowhere in the returned tree. *)
Theorem changeCount_counts_a_lost_leaf :
  well_formed proto_document = true
  /\ updateObjectReferences proto_document = mkResult (VObj []) true 1
  /\ strings (data (updateObjectReferences proto_document)) = []
  /\ replaced proto_document (data (updateObjectReferences proto_document))
     = 0.
Proof. repeat split. Qed.

End CountFacts.

(** ** A cleanup that throws *)
Module CrashFacts.
Import Fs Proc ChildProcess Compressor Layout.

(** C7 at a disk where a directory has the name of an output file of
    [compress-audio-mp3.js]: the encoder is found and the disk has
    distinct names, the conversion of [intro.mp3] fails because its
    output cannot be written, the cleanup finds the directory and
    [unlinkSync] throws inside the ['close'] listener, where nothing
    catches it: the run leaves the process with status 1. *)
Theorem directory_at_output_ends_with_status_1 :
  found (@version CrashSample.working_ffmpeg) = true
  /\ well_formed CrashSample.mp3_disk = true
  /\ height CrashSample.mp3_disk < 10
  /\ (exists message s',
        @Mp3Compressor.main CrashSample.working_ffmpeg 10 CrashSample.start
        = Uncaught message s')
  /\ exit_status
       (@Mp3Compressor.main CrashSample.working_ffmpeg 10 CrashSample.start)
     = Some 1%Z.
Proof.
  split; [reflexivity|]. split; [reflexivity|].
  split; [vm_compute; lia|].
  split; [eexists; eexists; vm_compute; reflexivity | reflexivity].
Qed.

End CrashFacts.
